(** * TFSA penalty calculator: the simulation engine and the CSV import gate

    A shallow embedding of [script.js].  JavaScript numbers are IEEE 754
    binary64 values and are modelled by Rocq's primitive floats, so every
    arithmetic step and every comparison below is the one the engine performs,
    rounding, infinities and NaN included.  JavaScript strings are modelled by
    [string] (one [ascii] per code unit), [Date] objects by UTC calendar dates,
    arrays by lists, and the [ANNUAL_LIMITS] object by a finite map. *)

From Stdlib Require Import ZArith List Bool Lia Ascii String DecimalString.
From Stdlib Require Import Sorted Permutation.
From Stdlib Require Import Floats.
From stdpp Require Import base gmap strings list.

Set Warnings "-inexact-float".
Local Open Scope Z_scope.

(** ** JavaScript built-ins used by the engine *)

Module JS.

(** Relational operators on numbers: any comparison with NaN is false. *)
Definition lt (a b : float) : bool := PrimFloat.ltb a b.
Definition gt (a b : float) : bool := PrimFloat.ltb b a.
Definition le (a b : float) : bool := PrimFloat.leb a b.
Definition ge (a b : float) : bool := PrimFloat.leb b a.

Definition isNaN (x : float) : bool := PrimFloat.is_nan x.

Definition Math_abs (x : float) : float := PrimFloat.abs x.

Definition is_pos_zero (x : float) : bool :=
  PrimFloat.is_zero x && negb (PrimFloat.get_sign x).
Definition is_neg_zero (x : float) : bool :=
  PrimFloat.is_zero x && PrimFloat.get_sign x.

(** One round of [Math.max]: NaN is absorbing, [+0] beats [-0]. *)
Definition max_step (highest number : float) : float :=
  if PrimFloat.is_nan highest then nan
  else if PrimFloat.is_nan number then nan
  else if is_pos_zero number && is_neg_zero highest then number
  else if PrimFloat.ltb highest number then number
  else highest.

(** [Math.max(...values)]: the fold starts from [-Infinity]. *)
Definition Math_max (values : list float) : float :=
  fold_left max_step values neg_infinity.

(** Truthiness of a number: [0], [-0] and NaN are falsy. *)
Definition truthy (x : float) : bool :=
  negb (PrimFloat.is_nan x || PrimFloat.is_zero x).

(** [v || d] where [v] is a property read ([None] stands for [undefined]). *)
Definition or_default (v : option float) (d : float) : float :=
  match v with
  | Some x => if truthy x then x else d
  | None => d
  end.

(** Decimal rendering of an integer, as [String(n)] gives for a safe integer. *)
Definition string_of_Z (n : Z) : string := NilZero.string_of_int (Z.to_int n).

(** [String(n).padStart(2, '0')] for a natural number. *)
Definition pad2 (n : nat) : string :=
  let s := string_of_Z (Z.of_nat n) in
  if (String.length s <? 2)%nat then String "0" s else s.


(** One round of [Math.min]: NaN is absorbing, [-0] beats [+0]. *)
Definition min_step (lowest number : float) : float :=
  if PrimFloat.is_nan lowest then nan
  else if PrimFloat.is_nan number then nan
  else if is_neg_zero number && is_pos_zero lowest then number
  else if PrimFloat.ltb number lowest then number
  else lowest.

(** [Math.min(...values)]: the fold starts from [+Infinity]. *)
Definition Math_min (values : list float) : float :=
  fold_left min_step values infinity.

(** *** Strings *)

(** White space, as [trim] and [parseFloat] see it, among 8-bit code units. *)
Definition isWhiteSpace (c : ascii) : bool :=
  let n := nat_of_ascii c in
  ((n =? 9) || (n =? 10) || (n =? 11) || (n =? 12) || (n =? 13)
   || (n =? 32) || (n =? 160))%nat.

Fixpoint trimStart (s : string) : string :=
  match s with
  | EmptyString => EmptyString
  | String c r => if isWhiteSpace c then trimStart r else s
  end.

Fixpoint trimEnd (s : string) : string :=
  match s with
  | EmptyString => EmptyString
  | String c r =>
      match trimEnd r with
      | EmptyString => if isWhiteSpace c then EmptyString else String c EmptyString
      | r' => String c r'
      end
  end.

Definition trim (s : string) : string := trimEnd (trimStart s).

Definition lowerChar (c : ascii) : ascii :=
  let n := nat_of_ascii c in
  if ((65 <=? n) && (n <=? 90))%nat then ascii_of_nat (n + 32) else c.

(** [s.toLowerCase()]: the letters A..Z are the ones that matter to the
    substring tests of the import. *)
Fixpoint toLowerCase (s : string) : string :=
  match s with
  | EmptyString => EmptyString
  | String c r => String (lowerChar c) (toLowerCase r)
  end.

(** [s.includes(sub)]. *)
Fixpoint includes (s sub : string) : bool :=
  if String.prefix sub s then true
  else match s with
       | EmptyString => false
       | String _ r => includes r sub
       end.

(** [s.split(sep)] for a one-character separator. *)
Fixpoint splitOn (sep : ascii) (s : string) : list string :=
  match s with
  | EmptyString => [EmptyString]
  | String c r =>
      if Ascii.eqb c sep then EmptyString :: splitOn sep r
      else match splitOn sep r with
           | h :: t => String c h :: t
           | [] => [String c EmptyString]
           end
  end.

(** [s.replace(/c/g, '')]. *)
Fixpoint removeChar (x : ascii) (s : string) : string :=
  match s with
  | EmptyString => EmptyString
  | String c r => if Ascii.eqb c x then removeChar x r else String c (removeChar x r)
  end.

Definition isDigit (c : ascii) : bool :=
  let n := nat_of_ascii c in ((48 <=? n) && (n <=? 57))%nat.

(** *** [parseFloat] *)

(** The leading decimal digits of a string, most significant first. *)
Fixpoint takeDigits (s : string) : list Z * string :=
  match s with
  | EmptyString => ([], EmptyString)
  | String c r =>
      if isDigit c
      then let '(ds, rest) := takeDigits r in
           (Z.of_nat (nat_of_ascii c) - 48 :: ds, rest)
      else ([], s)
  end.

Definition digitsValue (ds : list Z) : Z :=
  fold_left (fun acc d => 10 * acc + d) ds 0.

Definition takeSign (s : string) : bool * string :=
  match s with
  | String "+" r => (false, r)
  | String "-" r => (true, r)
  | _ => (false, s)
  end.

(** The binary64 number nearest to [m * 10^e10], ties to even, for [m >= 0]. *)
Definition decimalToFloat (m e10 : Z) : float :=
  if m =? 0 then 0%float
  else if 0 <=? e10
       then SF2Prim (binary_normalize prec emax (m * 10 ^ e10) 0 false)
       else SF2Prim (SFdiv prec emax
                       (S754_finite false (Z.to_pos m) 0)
                       (S754_finite false (Z.to_pos (10 ^ (- e10))) 0)).

(** The exponent part [e|E [+|-] digits], when it is well formed. *)
Definition takeExponent (s : string) : Z :=
  match s with
  | String c r =>
      if Ascii.eqb c "e" || Ascii.eqb c "E"
      then let '(neg, r1) := takeSign r in
           match takeDigits r1 with
           | ([], _) => 0
           | (ds, _) => if neg then - digitsValue ds else digitsValue ds
           end
      else 0
  | EmptyString => 0
  end.

(** [parseFloat(s)]: leading white space is skipped, the longest prefix that
    is a decimal literal is read, and NaN comes back when there is none. *)
Definition parseFloat (s : string) : float :=
  let '(neg, r) := takeSign (trimStart s) in
  let applySign (x : float) := if neg then PrimFloat.opp x else x in
  if String.prefix "Infinity" r then applySign infinity
  else
    let '(ip, r1) := takeDigits r in
    let '(fp, r2) :=
      match r1 with
      | String "." r' => takeDigits r'
      | _ => ([], r1)
      end in
    match ip, fp with
    | [], [] => nan
    | _, _ =>
        applySign (decimalToFloat (digitsValue (ip ++ fp))
                     (takeExponent r2 - Z.of_nat (length fp)))
    end.

End JS.

(** ** Data model *)

(** A ledger entry, as pushed by [processCsvData] and [addTransaction]. *)
Record Tx := mkTx {
  id : float;
  date : string;
  type : string;
  amount : float;
  institution : string
}.

Definition MONTHS : list string :=
  ["Jan"; "Feb"; "Mar"; "Apr"; "May"; "Jun";
   "Jul"; "Aug"; "Sep"; "Oct"; "Nov"; "Dec"]%string.

Definition ANNUAL_LIMITS : gmap Z float :=
  {[ 2023 := 6500%float; 2024 := 7000%float;
     2025 := 7000%float; 2026 := 7000%float ]}.

(** ** UTC calendar dates

    The engine only builds midnight-UTC dates and moves them one day at a
    time, so a [Date] is a calendar day; [None] is the Invalid Date. *)

Record UTCDate := mkDate {
  utcFullYear : Z;
  utcMonth : nat;      (* 0 .. 11, as getUTCMonth *)
  utcDate : nat        (* 1 .. 31, as getUTCDate *)
}.

Definition isLeap (y : Z) : bool :=
  ((y mod 4 =? 0) && negb (y mod 100 =? 0)) || (y mod 400 =? 0).

Definition daysInMonth (y : Z) (m : nat) : nat :=
  match m with
  | 1%nat => if isLeap y then 29 else 28
  | 3%nat | 5%nat | 8%nat | 10%nat => 30
  | _ => 31
  end.

(** Days from the epoch to January 1 of year [y] (ECMAScript's DayFromYear). *)
Definition dayFromYear (y : Z) : Z :=
  365 * (y - 1970) + (y - 1969) / 4 - (y - 1901) / 100 + (y - 1601) / 400.

Fixpoint daysBeforeMonth (y : Z) (m : nat) : nat :=
  match m with
  | O => 0
  | S m' => daysBeforeMonth y m' + daysInMonth y m'
  end.

Definition dayNumber (d : UTCDate) : Z :=
  dayFromYear (utcFullYear d)
  + Z.of_nat (daysBeforeMonth (utcFullYear d) (utcMonth d))
  + Z.of_nat (utcDate d) - 1.

(** [new Date(Date.UTC(year, m, d))] for an in-range month and day: years
    0..99 are read as 1900..1999, and a time value beyond 8.64e15 ms
    (100 000 000 days) from the epoch gives the Invalid Date. *)
Definition Date_UTC (year : Z) (m d : nat) : option UTCDate :=
  let yr := if (0 <=? year) && (year <=? 99) then 1900 + year else year in
  let c := mkDate yr m d in
  if Z.abs (dayNumber c) <=? 100000000 then Some c else None.

(** [iterDate.setUTCDate(iterDate.getUTCDate() + 1)]. *)
Definition nextDay (c : UTCDate) : UTCDate :=
  if (utcDate c <? daysInMonth (utcFullYear c) (utcMonth c))%nat
  then mkDate (utcFullYear c) (utcMonth c) (S (utcDate c))
  else if (utcMonth c <? 11)%nat
       then mkDate (utcFullYear c) (S (utcMonth c)) 1
       else mkDate (utcFullYear c + 1) 0 1.

(** [a <= b] on dates compares time values; with an Invalid Date it is false. *)
Definition dateCivilLeb (a b : UTCDate) : bool :=
  if utcFullYear a <? utcFullYear b then true
  else if utcFullYear b <? utcFullYear a then false
  else if (utcMonth a <? utcMonth b)%nat then true
  else if (utcMonth b <? utcMonth a)%nat then false
  else (utcDate a <=? utcDate b)%nat.

Definition dateLeb (a b : option UTCDate) : bool :=
  match a, b with
  | Some x, Some y => dateCivilLeb x y
  | _, _ => false
  end.

(** The [dateStr] template literal of the daily loop. *)
Definition formatDate (c : UTCDate) : string :=
  (JS.string_of_Z (utcFullYear c) ++ "-" ++ JS.pad2 (S (utcMonth c))
     ++ "-" ++ JS.pad2 (utcDate c))%string.

(** ** Sorting the ledger *)

(** The comparator handed to [Array.prototype.sort], on the two dates. *)
Definition compareDates (a b : string) : Z :=
  if String.ltb a b then -1
  else if String.ltb b a then 1
  else 0.

Definition compareTx (a b : Tx) : Z := compareDates (date a) (date b).

(** [Array.prototype.sort] is stable, and the comparator is a consistent
    one, so the outcome is the stable sorted arrangement; insertion from the
    right computes it. *)
Fixpoint insertBy {A : Type} (cmp : A -> A -> Z) (a : A) (l : list A) : list A :=
  match l with
  | [] => [a]
  | b :: l' => if cmp a b <=? 0 then a :: b :: l' else b :: insertBy cmp a l'
  end.

Definition sortBy {A : Type} (cmp : A -> A -> Z) (l : list A) : list A :=
  fold_right (insertBy cmp) [] l.

(** [[...txs].sort(...)], on the contents of the array. *)
Definition sortTxs (txs : list Tx) : list Tx := sortBy compareTx txs.

(** ** The simulation state *)

(** The four running figures the transactions act on. *)
Record Ledger := mkLedger {
  excess : float;
  unusedRoom : float;
  totalWithdrawals : float;
  totalContributions : float
}.

(** All the variables the daily loop updates. *)
Record LoopState := mkLoop {
  txIndex : nat;
  ledger : Ledger;
  monthlyMaxExcess : list float;
  vizDataDates : list string;
  vizDataExcess : list float;
  iterDate : option UTCDate
}.

(** "Handle Starting Condition". *)
Definition initLedger (startRoom : float) : Ledger :=
  if JS.lt startRoom 0
  then mkLedger (JS.Math_abs startRoom) 0 0 0
  else mkLedger 0 startRoom 0 0.

Definition initState (startRoom : float) (startDate : option UTCDate) : LoopState :=
  mkLoop 0 (initLedger startRoom) (replicate 12 0%float) [] [] startDate.

(** The two branches on [tx.type]; any other type leaves the figures alone. *)
Definition applyTx (tx : Tx) (l : Ledger) : Ledger :=
  if String.eqb (type tx) "CONTRIBUTION" then
    let tc := (totalContributions l + amount tx)%float in
    if JS.ge (unusedRoom l) (amount tx)
    then mkLedger (excess l) (unusedRoom l - amount tx)%float
           (totalWithdrawals l) tc
    else
      let spill := (amount tx - unusedRoom l)%float in
      mkLedger (excess l + spill)%float 0 (totalWithdrawals l) tc
  else if String.eqb (type tx) "WITHDRAWAL" then
    let tw := (totalWithdrawals l + amount tx)%float in
    if JS.gt (excess l) 0
    then if JS.ge (excess l) (amount tx)
         then mkLedger (excess l - amount tx)%float (unusedRoom l) tw
                (totalContributions l)
         else mkLedger 0 (unusedRoom l) tw (totalContributions l)
    else mkLedger (excess l) (unusedRoom l) tw (totalContributions l)
  else l.

(** The guard of the inner [while], the [break] included: the transaction
    the next iteration applies, if there is one. *)
Definition nextTx (sortedTxs : list Tx) (dateStr : string) (st : LoopState)
  : option Tx :=
  match sortedTxs !! txIndex st with
  | Some tx => if String.eqb (date tx) dateStr then Some tx else None
  | None => None
  end.

(** One iteration of the inner loop: apply [tx], then [txIndex++]. *)
Definition txStep (tx : Tx) (st : LoopState) : LoopState :=
  mkLoop (S (txIndex st)) (applyTx tx (ledger st)) (monthlyMaxExcess st)
    (vizDataDates st) (vizDataExcess st) (iterDate st).

(** The inner [while (txIndex < sortedTxs.length)] loop; [fuel] bounds the
    number of iterations. *)
Fixpoint txLoop (fuel : nat) (sortedTxs : list Tx) (dateStr : string)
    (st : LoopState) : LoopState :=
  match fuel with
  | O => st
  | S fuel' =>
      match nextTx sortedTxs dateStr st with
      | Some tx => txLoop fuel' sortedTxs dateStr (txStep tx st)
      | None => st
      end
  end.

(** "Track High-Water Mark for the Month". *)
Definition trackMax (monthIndex : nat) (e : float) (maxes : list float)
  : list float :=
  match maxes !! monthIndex with
  | Some m => if JS.gt e m then <[monthIndex := e]> maxes else maxes
  | None => maxes
  end.

(** One round of the daily loop, for the cursor at calendar day [c]. *)
Definition dayBody (sortedTxs : list Tx) (c : UTCDate) (st : LoopState)
  : LoopState :=
  let dateStr := formatDate c in
  let monthIndex := utcMonth c in
  let st1 := txLoop (length sortedTxs) sortedTxs dateStr st in
  mkLoop (txIndex st1) (ledger st1)
    (trackMax monthIndex (excess (ledger st1)) (monthlyMaxExcess st1))
    (vizDataDates st1 ++ [dateStr])
    (vizDataExcess st1 ++ [excess (ledger st1)])
    (Some (nextDay c)).

(** The guard of the daily loop: the day the next round simulates. *)
Definition nextSimDay (endDate : option UTCDate) (st : LoopState)
  : option UTCDate :=
  match iterDate st with
  | Some c => if dateLeb (Some c) endDate then Some c else None
  | None => None
  end.

(** The daily [while (iterDate <= endDate)] loop; [fuel] bounds the number of
    rounds, so [dailyLoop n] is also the state after the first [n] days. *)
Fixpoint dailyLoop (fuel : nat) (sortedTxs : list Tx) (endDate : option UTCDate)
    (st : LoopState) : LoopState :=
  match fuel with
  | O => st
  | S fuel' =>
      match nextSimDay endDate st with
      | Some c => dailyLoop fuel' sortedTxs endDate (dayBody sortedTxs c st)
      | None => st
      end
  end.

(** ** The result record *)

Record MonthlyRecord := mkMonthly {
  monthLabel : string;
  maxExcess : float;
  penalty : float;
  isAffected : bool
}.

Record VizData := mkViz { labels : list string; data : list float }.

Record Result := mkResult {
  totalPenalty : float;
  peakExcess : float;
  currentExcess : float;
  remainingRoom : float;
  nextYearLimit : float;
  resTotalContributions : float;
  resTotalWithdrawals : float;
  unusedRoomEndOfYear : float;
  nextAnnualLimit : float;
  affectedMonths : nat;
  monthlyDetails : list MonthlyRecord;
  vizData : VizData
}.

(** Step 5: the [map] callback, with the two counters it updates. *)
Record Finalize := mkFin {
  finPenalty : float;
  finAffected : nat;
  finDetails : list MonthlyRecord
}.

(** The record the callback returns for the month of index [idx]. *)
Definition monthlyRecord (idx : nat) (max : float) : MonthlyRecord :=
  let pen := (max * 0.01)%float in
  mkMonthly (default EmptyString (MONTHS !! idx)) max pen (JS.gt max 0).

Definition finalizeStep (acc : Finalize) (idx : nat) (max : float) : Finalize :=
  let rec := monthlyRecord idx max in
  mkFin (finPenalty acc + penalty rec)%float
        (if JS.gt max 0 then S (finAffected acc) else finAffected acc)
        (finDetails acc ++ [rec]).

Fixpoint finalizeFrom (acc : Finalize) (idx : nat) (maxes : list float) : Finalize :=
  match maxes with
  | [] => acc
  | max :: rest => finalizeFrom (finalizeStep acc idx max) (S idx) rest
  end.

Definition finalize (maxes : list float) : Finalize :=
  finalizeFrom (mkFin 0 0 []) 0 maxes.

(** The daily loop run for [n] rounds from the initial state. *)
Definition stateAfterDays (n : nat) (year : Z) (startRoom : float)
    (sortedTxs : list Tx) : LoopState :=
  dailyLoop n sortedTxs (Date_UTC year 11 31)
    (initState startRoom (Date_UTC year 0 1)).

(** The daily loop of one call: at most 366 rounds ever run. *)
Definition simulate (year : Z) (startRoom : float) (sortedTxs : list Tx)
  : LoopState :=
  stateAfterDays 366 year startRoom sortedTxs.

(** Steps 3 to 6 of [calculatePenalty], from the sorted copy on. *)
Definition resultOf (year : Z) (startRoom : float) (sortedTxs : list Tx)
  : Result :=
  let st := simulate year startRoom sortedTxs in
  let fin := finalize (monthlyMaxExcess st) in
  let unusedRoomEndOfYear :=
    (startRoom - totalContributions (ledger st))%float in
  let withdrawalsToAddBack := totalWithdrawals (ledger st) in
  let nextLimit := JS.or_default (ANNUAL_LIMITS !! (year + 1)) 7000 in
  let nextYearRoom :=
    (unusedRoomEndOfYear + withdrawalsToAddBack + nextLimit)%float in
  let currentYearRemaining :=
    JS.Math_max [0%float; (startRoom - totalContributions (ledger st))%float] in
  mkResult (finPenalty fin) (JS.Math_max (monthlyMaxExcess st))
    (excess (ledger st)) currentYearRemaining nextYearRoom
    (totalContributions (ledger st)) (totalWithdrawals (ledger st))
    unusedRoomEndOfYear nextLimit
    (finAffected fin) (finDetails fin)
    (mkViz (vizDataDates st) (vizDataExcess st)).

Definition calculatePenalty (year : Z) (startRoom : float) (txs : list Tx)
  : Result :=
  resultOf year startRoom (sortTxs txs).

(** ** CSV import *)

Fixpoint countQuotes (s : string) : nat :=
  match s with
  | EmptyString => 0
  | String c r => if Ascii.eqb c "034" then S (countQuotes r) else countQuotes r
  end.

(** [line.split(csvSplitRegex)]: a comma separates two fields when an even
    number of double quotes follows it. *)
Fixpoint csvSplit (line : string) : list string :=
  match line with
  | EmptyString => [EmptyString]
  | String c r =>
      if Ascii.eqb c "," && Nat.even (countQuotes r)
      then EmptyString :: csvSplit r
      else match csvSplit r with
           | h :: t => String c h :: t
           | [] => [String c EmptyString]
           end
  end.

Fixpoint dropLastQuote (s : string) : string :=
  match s with
  | EmptyString => EmptyString
  | String c EmptyString => if Ascii.eqb c "034" then EmptyString else s
  | String c r => String c (dropLastQuote r)
  end.

(** [c.replace(/^"|"$/g, '')]: a leading quote and a trailing quote go. *)
Definition stripQuotes (s : string) : string :=
  match s with
  | String c r => if Ascii.eqb c "034" then dropLastQuote r else dropLastQuote s
  | EmptyString => EmptyString
  end.

(** [/^\d{4}-\d{2}-\d{2}$/.test(s)]. *)
Definition isoRegexTest (s : string) : bool :=
  match list_ascii_of_string s with
  | [y1; y2; y3; y4; h1; m1; m2; h2; d1; d2] =>
      JS.isDigit y1 && JS.isDigit y2 && JS.isDigit y3 && JS.isDigit y4
      && Ascii.eqb h1 "-" && JS.isDigit m1 && JS.isDigit m2
      && Ascii.eqb h2 "-" && JS.isDigit d1 && JS.isDigit d2
  | _ => false
  end.

(** What the import loop updates. *)
Record CsvState := mkCsv {
  transactions : list Tx;
  addedCount : nat;
  errors : list string
}.

(** What [processCsvData] leaves behind: the ledger, the counters and the
    text put in the error element, if any. *)
Record CsvOutcome := mkOutcome {
  ledgerAfter : list Tx;
  imported : nat;
  skipped : list string;
  errorText : option string
}.

Section Csv.

(** The engine-dependent [new Date(dateRaw)]: the [YYYY-MM-DD] part of its
    [toISOString()], or nothing when the date is invalid. *)
Variable dateParse : string -> option string.

(** [Date.now() + Math.random()] at the line of that index. *)
Variable newId : nat -> float.

Definition lineLabel (i : nat) : string :=
  ("Line " ++ JS.string_of_Z (Z.of_nat (i + 1)))%string.

(** The body of the [for] loop, for the line of index [i]. *)
Definition processLine (i : nat) (rawLine : string) (st : CsvState) : CsvState :=
  let line := JS.trim rawLine in
  if String.eqb line EmptyString then st
  else
    let cols := map (fun c => stripQuotes (JS.trim c)) (csvSplit line) in
    match cols with
    | dateRaw :: typeRaw :: amountRaw :: rest =>
        let type :=
          if JS.includes (JS.toLowerCase typeRaw) "withdraw"
          then "WITHDRAWAL"%string else "CONTRIBUTION"%string in
        let amount := JS.parseFloat (JS.removeChar "," amountRaw) in
        if JS.isNaN amount || JS.le amount 0
        then mkCsv (transactions st) (addedCount st)
               (errors st ++ [(lineLabel i ++ ": Invalid amount: " ++ amountRaw)%string])
        else
          let pushTx (date : string) :=
            let institution :=
              match rest with
              | inst :: _ => if String.eqb inst EmptyString then "Imported"%string else inst
              | [] => "Imported"%string
              end in
            mkCsv (transactions st ++ [mkTx (newId i) date type amount institution])
              (S (addedCount st)) (errors st) in
          if isoRegexTest dateRaw then pushTx dateRaw
          else match dateParse dateRaw with
               | Some date => pushTx date
               | None =>
                   mkCsv (transactions st) (addedCount st)
                     (errors st ++ [(lineLabel i ++ ": Invalid date: " ++ dateRaw)%string])
               end
    | _ =>
        mkCsv (transactions st) (addedCount st)
          (errors st ++ [(lineLabel i ++ ": Invalid format")%string])
    end.

(** The [for] loop from index [i] over the remaining lines. *)
Fixpoint csvLoop (i : nat) (lines : list string) (st : CsvState) : CsvState :=
  match lines with
  | [] => st
  | l :: rest => csvLoop (S i) rest (processLine i l st)
  end.

(** "Skip header if present". *)
Definition headerIndex (lines : list string) : nat :=
  match lines with
  | first :: _ => if JS.includes (JS.toLowerCase first) "date" then 1%nat else 0%nat
  | [] => 0%nat
  end.

(** [processCsvData(text, errorEl)], with the global ledger passed in. *)
Definition processCsvData (text : string) (ledger0 : list Tx) : CsvOutcome :=
  let lines := JS.splitOn "010" text in
  let startIndex := headerIndex lines in
  let st := csvLoop startIndex (drop startIndex lines) (mkCsv ledger0 0 []) in
  let msg :=
    if (0 <? addedCount st)%nat
    then match errors st with
         | [] => None
         | _ => Some ("Imported " ++ JS.string_of_Z (Z.of_nat (addedCount st))
                        ++ " items. Skipped "
                        ++ JS.string_of_Z (Z.of_nat (length (errors st)))
                        ++ " errors. Details: "
                        ++ String.concat "; " (errors st))%string
         end
    else Some "No valid transactions found in CSV. Check format."%string in
  mkOutcome (transactions st) (addedCount st) (errors st) msg.

End Csv.

(** ** The ledger array as the caller holds it

    Arrays and transaction objects live in a store; an array holds
    references to its elements, so a copy of an array shares the objects. *)

Record Store := mkStore {
  arrays : gmap nat (list nat);
  objects : gmap nat Tx
}.

(** The objects a list of references points to. *)
Fixpoint derefAll (objs : gmap nat Tx) (refs : list nat) : option (list Tx) :=
  match refs with
  | [] => Some []
  | r :: rest =>
      match objs !! r, derefAll objs rest with
      | Some t, Some ts => Some (t :: ts)
      | _, _ => None
      end
  end.

(** [a.date] through a reference. *)
Definition dateOf (objs : gmap nat Tx) (r : nat) : string :=
  match objs !! r with
  | Some t => date t
  | None => EmptyString
  end.

(** [calculatePenalty(year, startRoom, txs)] for the array at [txs]:
    [[...txs]] allocates a fresh array with the same references, [.sort]
    rearranges that array in place, and the loop reads it back. *)
Definition calculatePenaltyOn (s : Store) (year : Z) (startRoom : float)
    (txs : nat) : option (Result * Store) :=
  match arrays s !! txs with
  | None => None
  | Some refs =>
      let sortedTxs := fresh (dom (arrays s)) in
      let s1 := mkStore (<[sortedTxs := refs]> (arrays s)) (objects s) in
      let cmp a b := compareDates (dateOf (objects s1) a) (dateOf (objects s1) b) in
      let s2 :=
        match arrays s1 !! sortedTxs with
        | Some copy => mkStore (<[sortedTxs := sortBy cmp copy]> (arrays s1)) (objects s1)
        | None => s1
        end in
      match arrays s2 !! sortedTxs with
      | Some sortedRefs =>
          match derefAll (objects s2) sortedRefs with
          | Some sorted => Some (resultOf year startRoom sorted, s2)
          | None => None
          end
      | None => None
      end
  end.

(** * Notions the statements use *)

(** ** The calendar *)

(** The year the walk covers: [Date.UTC] reads 0..99 as 1900..1999. *)
Definition simYear (year : Z) : Z :=
  if (0 <=? year) && (year <=? 99) then 1900 + year else year.

Definition daysInYear (y : Z) : nat := if isLeap y then 366%nat else 365%nat.

(** Rank of a day within its year, from 1. *)
Definition dayOfYear (c : UTCDate) : nat :=
  (daysBeforeMonth (utcFullYear c) (utcMonth c) + utcDate c)%nat.

(** [c] is a calendar day of year [yr]. *)
Definition inYear (yr : Z) (c : UTCDate) : Prop :=
  utcFullYear c = yr /\ (utcMonth c <= 11)%nat /\
  (1 <= utcDate c <= daysInMonth yr (utcMonth c))%nat.

(** The cursor is on a day of the year, or has just left it. *)
Definition cursorOk (yr : Z) (st : LoopState) : Prop :=
  match iterDate st with
  | Some c => inYear yr c \/ c = mkDate (yr + 1) 0 1
  | None => True
  end.

(** ** The sorted ledger and the applied transactions *)

(** Ascending dates, in the lexical order of the strings. *)
Definition dateLe (a b : Tx) : Prop := String.leb (date a) (date b) = true.

(** The entries of one date, in the order the list has them. *)
Definition onDate (d : string) (l : list Tx) : list Tx :=
  List.filter (fun t => String.eqb (date t) d) l.

(** Applying a list of transactions, first to last. *)
Definition applyAll (txs : list Tx) (l : Ledger) : Ledger :=
  fold_left (fun acc tx => applyTx tx acc) txs l.

(** The pointer splits the sorted ledger: the entries before it are the
    ones applied so far, in that order. *)
Definition prefixInv (sortedTxs : list Tx) (l0 : Ledger) (st : LoopState) : Prop :=
  (txIndex st <= length sortedTxs)%nat /\
  ledger st = applyAll (take (txIndex st) sortedTxs) l0.

(** Every applied entry carries the date string of a day of the year. *)
Definition appliedInYear (sortedTxs : list Tx) (yr : Z) (st : LoopState) : Prop :=
  Forall (fun tx => exists c, inYear yr c /\ date tx = formatDate c)
         (take (txIndex st) sortedTxs).

(** The date string of January 1 and of December 31 of the simulated year. *)
Definition jan1 (year : Z) : string := formatDate (mkDate (simYear year) 0 1).
Definition dec31 (year : Z) : string := formatDate (mkDate (simYear year) 11 31).

(** ** What a transaction does, in the words of the specification *)

(** CONTRIBUTION of [a]: cumulative contributions grow by [a]; when the
    room covers [a] it shrinks by [a] and the excess stays, otherwise the
    shortfall goes to the excess and the room becomes 0. *)
Definition contributionEffect (a : float) (l l' : Ledger) : Prop :=
  totalContributions l' = (totalContributions l + a)%float /\
  totalWithdrawals l' = totalWithdrawals l /\
  (if JS.ge (unusedRoom l) a
   then unusedRoom l' = (unusedRoom l - a)%float /\ excess l' = excess l
   else excess l' = (excess l + (a - unusedRoom l))%float /\
        unusedRoom l' = 0%float).

(** WITHDRAWAL of [a]: cumulative withdrawals grow by [a]; the excess
    shrinks by [min(excess, a)]; the room is left alone. *)
Definition withdrawalEffect (a : float) (l l' : Ledger) : Prop :=
  totalWithdrawals l' = (totalWithdrawals l + a)%float /\
  totalContributions l' = totalContributions l /\
  excess l' = (excess l - JS.Math_min [excess l; a])%float /\
  unusedRoom l' = unusedRoom l.

(** ** The daily trace and the monthly high-water marks *)

(** The day that round [n + 1] of the daily loop simulates, if it runs. *)
Definition simulatedDay (n : nat) (year : Z) (startRoom : float)
    (sortedTxs : list Tx) : option UTCDate :=
  nextSimDay (Date_UTC year 11 31) (stateAfterDays n year startRoom sortedTxs).

(** Month index and excess at the end of each of the first [n] days, the
    excess being read after the transactions of the day are applied. *)
Definition dayTrace (n : nat) (year : Z) (startRoom : float)
    (sortedTxs : list Tx) : list (nat * float) :=
  omap (fun k =>
          match simulatedDay k year startRoom sortedTxs with
          | Some c =>
              Some (utcMonth c,
                    excess (ledger (stateAfterDays (S k) year startRoom sortedTxs)))
          | None => None
          end)
       (seq 0 n).

(** The excess values of the days of month [i]. *)
Definition monthExcesses (i : nat) (trace : list (nat * float)) : list float :=
  map snd (List.filter (fun p => Nat.eqb (fst p) i) trace).

(** High-water mark of a run of values, from 0. *)
Definition highWater (es : list float) : float :=
  fold_left (fun acc e => if JS.gt e acc then e else acc) es 0%float.

(** ** Ordering and rounding of binary64 numbers *)

Module FloatOrder.

(** The value of a binary64 number in units of [2^-1074], the smallest
    subnormal: an integer, since no exponent is below [-1074].  The
    infinities sit beyond every finite value, and NaN is given 0. *)
Definition SFval (x : spec_float) : Z :=
  match x with
  | S754_zero _ => 0
  | S754_infinity s => cond_Zopp s (2 ^ 2100)
  | S754_nan => 0
  | S754_finite s m e => cond_Zopp s (Z.pos m * 2 ^ (e + 1074))
  end.

Definition SFnotnan (x : spec_float) : bool :=
  match x with S754_nan => false | _ => true end.

(** Whether a right shift dropped a non-zero bit. *)
Definition lost (mrs : shr_record) : bool := shr_r mrs || shr_s mrs.

(** The number has sign bit [s] and is not NaN. *)
Definition signed (s : bool) (x : spec_float) : Prop :=
  match x with
  | S754_zero s' | S754_infinity s' | S754_finite s' _ _ => s' = s
  | S754_nan => False
  end.

Definition SFfin (m : positive) (e : Z) : spec_float := S754_finite false m e.

Definition fval (x : float) : Z := SFval (Prim2SF x).
Definition notnan (x : float) : bool := SFnotnan (Prim2SF x).

(** The sign bit is clear and the number is not NaN: [+0], a positive
    finite number, or [+Infinity]. *)
Definition plus (x : float) : Prop := signed false (Prim2SF x).

End FloatOrder.

(** ** Admissible ledgers *)

(** The amount is strictly positive ([Infinity] included). *)
Definition positiveAmount (tx : Tx) : Prop := JS.gt (amount tx) 0 = true.

(** The amount is strictly positive and finite. *)
Definition finitePositiveAmount (tx : Tx) : Prop :=
  JS.gt (amount tx) 0 = true /\ JS.lt (amount tx) infinity = true.

(** The figures a run with finite positive amounts keeps: the excess is
    [+0] or above, the room is a zero or above. *)
Definition ledgerOk (l : Ledger) : Prop :=
  FloatOrder.plus (excess l) /\ JS.ge (unusedRoom l) 0 = true.

(** The figures a run with positive amounts keeps, NaN allowed: the excess
    is never [-0] or below, the room never below zero. *)
Definition ledgerSane (l : Ledger) : Prop :=
  (FloatOrder.plus (excess l) \/ FloatOrder.notnan (excess l) = false) /\
  (JS.ge (unusedRoom l) 0 = true \/ FloatOrder.notnan (unusedRoom l) = false).

(** ** Sample ledgers *)

Definition contribution (d : string) (a : float) : Tx :=
  mkTx 0 d "CONTRIBUTION" a "RBC".

Definition withdrawal (d : string) (a : float) : Tx :=
  mkTx 0 d "WITHDRAWAL" a "RBC".

(** Scenario A: room 10,000; contribute 15,000, withdraw 2,000, contribute
    2,000 on the first three days of the year. *)
Definition scenarioA : list Tx :=
  [contribution "2024-01-01" 15000; withdrawal "2024-01-02" 2000;
   contribution "2024-01-03" 2000].

(** An infinite contribution followed by an infinite withdrawal. *)
Definition infiniteLedger : list Tx :=
  [contribution "2024-01-01" infinity; withdrawal "2024-01-02" infinity].

(** ** Sample stores and CSV texts *)

(** A ledger array at location 0 holding two transaction objects, the later
    dated one first. *)
Definition sampleStore : Store :=
  mkStore {[ 0%nat := [0%nat; 1%nat] ]}
    {[ 0%nat := contribution "2024-03-01" 500;
       1%nat := withdrawal "2024-01-02" 10 ]}.

(** The text of the date column of a line, as the loop of [processCsvData]
    reads it. *)
Definition dateColumn (rawLine : string) : string :=
  match map (fun c => stripQuotes (JS.trim c)) (csvSplit (JS.trim rawLine)) with
  | d :: _ => d
  | [] => EmptyString
  end.

Definition joinLines (lines : list string) : string :=
  String.concat (String "010" EmptyString) lines.

(** A file without a header whose first record names an institution with
    the letters "date" in it. *)
Definition creditUnionLine : string :=
  "2024-01-15,Contribution,5000,Consolidated Credit Union".

Definition creditUnionCsv : string :=
  joinLines [creditUnionLine; "2024-02-01,Contribution,100,RBC"%string].

(** A file with a header, an unreadable amount, an infinite amount written
    two ways, a negative amount and a good record. *)
Definition amountsCsv : string :=
  joinLines
    ["Date,Type,Amount,Institution";
     "2024-01-15,Contribution,abc,RBC";
     "2024-01-16,Contribution,Infinity,RBC";
     "2024-01-17,Withdrawal,1e309,RBC";
     "2024-01-18,Contribution,-5,RBC";
     "2024-01-19,Contribution," ++ String "034" "7,371.84"
       ++ String "034" ",RBC"]%string.

(** * Further notions: the calendar of a year *)

(** The calendar days of year [y], January 1 first. *)
Definition daysOfYear (y : Z) : list UTCDate :=
  flat_map (fun m => map (mkDate y m) (seq 1 (daysInMonth y m))) (seq 0 12).

(** [s] is the date string of a calendar day of year [y]. *)
Definition isDayOfYear (y : Z) (s : string) : bool :=
  existsb (fun c => String.eqb s (formatDate c)) (daysOfYear y).

(** Both ends of the simulated year are dates the engine can build. *)
Definition validYear (year : Z) : bool :=
  match Date_UTC year 0 1, Date_UTC year 11 31 with
  | Some _, Some _ => true
  | _, _ => false
  end.

(** Order of two days by month, then by day of the month. *)
Definition compareMonthDay (a b : UTCDate) : comparison :=
  match Nat.compare (utcMonth a) (utcMonth b) with
  | Eq => Nat.compare (utcDate a) (utcDate b)
  | c => c
  end.

Definition comparison_eqb (a b : comparison) : bool :=
  match a, b with
  | Eq, Eq | Lt, Lt | Gt, Gt => true
  | _, _ => false
  end.

(** The longest prefix of a list whose elements pass a test. *)
Fixpoint takeWhile {A : Type} (f : A -> bool) (l : list A) : list A :=
  match l with
  | [] => []
  | x :: r => if f x then x :: takeWhile f r else []
  end.

(** The entries the daily loop reaches: the sorted ledger up to its first
    entry that is not dated on a day of the year. *)
Definition reachedTxs (y : Z) (sortedTxs : list Tx) : list Tx :=
  takeWhile (fun tx => isDayOfYear y (date tx)) sortedTxs.

(** The labels collected so far are those of the first days of the year,
    and the cursor stands on the day after them. *)
Definition walked (yr : Z) (st : LoopState) : Prop :=
  exists k,
    vizDataDates st = map formatDate (take k (daysOfYear yr)) /\
    length (vizDataExcess st) = k /\
    match iterDate st with
    | Some c => (inYear yr c /\ dayOfYear c = S k) \/
                (c = mkDate (yr + 1) 0 1 /\ k = daysInYear yr)
    | None => False
    end.

(** The pointer has passed every entry dated before the cursor; once the
    cursor has left the year, it has passed them all. *)
Definition caughtUp (yr : Z) (l : list Tx) (st : LoopState) : Prop :=
  (txIndex st <= length l)%nat /\
  match iterDate st with
  | Some c =>
      (inYear yr c /\
       forall i tx, l !! i = Some tx -> (txIndex st <= i)%nat ->
                    String.leb (formatDate c) (date tx) = true) \/
      (c = mkDate (yr + 1) 0 1 /\ txIndex st = length l)
  | None => True
  end.

(** The entries one call applies, in the order it applies them. *)
Definition appliedTxs (year : Z) (txs : list Tx) : list Tx :=
  if validYear year then reachedTxs (simYear year) (sortTxs txs) else [].

(** The last chart value is the excess the ledger holds. *)
Definition lastSync (st : LoopState) : Prop :=
  vizDataExcess st = [] \/
  last (vizDataExcess st) = Some (excess (ledger st)).

(** The run has seen no excess so far: the figures a ledger without
    contributions keeps from a starting room that is not negative. *)
Definition quiet (startRoom : float) (st : LoopState) : Prop :=
  excess (ledger st) = 0%float /\
  unusedRoom (ledger st) = startRoom /\
  totalContributions (ledger st) = 0%float /\
  monthlyMaxExcess st = replicate 12 0%float /\
  List.Forall (fun e => e = 0%float) (vizDataExcess st).

(** Two entries with the same date, type and amount. *)
Definition sameEntry (a b : Tx) : Prop :=
  date a = date b /\ type a = type b /\ amount a = amount b.

(** Two withdrawals and nothing else. *)
Definition withdrawalsOnly : list Tx :=
  [withdrawal "2024-01-02" 2000; withdrawal "2024-05-05" 100].

(** Scenario A entered by another hand: other ids, other institutions. *)
Definition scenarioA_relabelled : list Tx :=
  [mkTx 1 "2024-01-01" "CONTRIBUTION" 15000 "Tangerine";
   mkTx 2 "2024-01-02" "WITHDRAWAL" 2000 "Imported";
   mkTx 3 "2024-01-03" "CONTRIBUTION" 2000 "TD"].

(** Scenario A entered last day first. *)
Definition scenarioA_reversed : list Tx :=
  [contribution "2024-01-03" 2000; withdrawal "2024-01-02" 2000;
   contribution "2024-01-01" 15000].

(** * Further notions: the import *)

(** The line of the file is blank to the import loop. *)
Definition isBlank (rawLine : string) : bool :=
  String.eqb (JS.trim rawLine) EmptyString.

(** The lines the import loop reads, each with its index in the file: those
    after the header, the blank ones left out. *)
Definition dataLines (text : string) : list (nat * string) :=
  let lines := JS.splitOn "010" text in
  List.filter (fun p => negb (isBlank (snd p)))
    (drop (headerIndex lines) (combine (seq 0 (length lines)) lines)).

(** An entry as the import writes it. *)
Definition importedShape (dateParse : string -> option string) (tx : Tx) : Prop :=
  (type tx = "CONTRIBUTION"%string \/ type tx = "WITHDRAWAL"%string) /\
  institution tx <> EmptyString /\
  JS.gt (amount tx) 0 = true /\
  (isoRegexTest (date tx) = true \/ exists raw, dateParse raw = Some (date tx)).

(** A message of the import about the line of index [i]. *)
Definition messageOfLine (i : nat) (msg : string) : Prop :=
  exists what, msg = (lineLabel i ++ ": Invalid " ++ what)%string.

(** ** The template offered for download *)

(** [csvContent] of [downloadTemplate]. *)
Definition csvContent : string :=
  joinLines
    ["Date,Type,Amount,Institution";
     "2024-01-15,Contribution,5000,RBC";
     "2024-06-20,Withdrawal,2000,Tangerine"]%string.

(** * The entry form and the ledger *)

(** The form fields [addTransaction] reads and resets. *)
Record Form := mkForm {
  txDate : string;
  txInstitution : string;
  txType : string;
  txAmount : string;
  calcYear : string
}.

(** What [addTransaction] leaves behind: the form, the ledger, and the text
    shown in the error element ([None] when it stays hidden). *)
Record AddOutcome := mkAdd {
  formAfter : Form;
  ledgerAdded : list Tx;
  shownError : option string
}.

(** [addTransaction()], with the clock reading [now] for the id; the two
    renderings that follow a successful entry are left out. *)
Definition addTransaction (now : float) (form : Form) (ledger0 : list Tx)
  : AddOutcome :=
  let date := txDate form in
  let amount := JS.parseFloat (txAmount form) in
  let type := txType form in
  let institution := txInstitution form in
  let year := calcYear form in
  let showError (msg : string) := mkAdd form ledger0 (Some msg) in
  if String.eqb institution EmptyString then
    showError "Please select a financial institution."%string
  else if String.eqb date EmptyString || negb (JS.truthy amount) || JS.isNaN amount then
    showError "Please enter a valid date and amount."%string
  else if JS.le amount 0 then
    showError "Amount must be positive."%string
  else if negb (String.eqb (String.substring 0 4 date) year) then
    showError ("Date must be in " ++ year ++ ".")%string
  else
    let tx := mkTx now date type amount institution in
    mkAdd (mkForm (txDate form) (txInstitution form) "CONTRIBUTION" EmptyString
             (calcYear form))
      (ledger0 ++ [tx]) None.

(** [removeTransaction(id)]: the entries whose id is not [id] stay. *)
Definition removeTransaction (id0 : float) (ledger0 : list Tx) : list Tx :=
  List.filter (fun t => negb (PrimFloat.eqb (id t) id0)) ledger0.

(** [parseFloat(inputs.startRoom.value) || 0] of [recalculateAll]. *)
Definition startRoomOf (value : string) : float :=
  JS.or_default (Some (JS.parseFloat value)) 0.

(** The ledgers the page can hold: it starts empty, and changes by a manual
    entry, a removal or an import. *)
Inductive Reachable (dateParse : string -> option string)
  : list Tx -> Prop :=
| reach_empty : Reachable dateParse []
| reach_add (now : float) (form : Form) (l : list Tx) :
    Reachable dateParse l ->
    Reachable dateParse (ledgerAdded (addTransaction now form l))
| reach_remove (id0 : float) (l : list Tx) :
    Reachable dateParse l ->
    Reachable dateParse (removeTransaction id0 l)
| reach_import (newId : nat -> float) (text : string) (l : list Tx) :
    Reachable dateParse l ->
    Reachable dateParse (ledgerAfter (processCsvData dateParse newId text l)).

(** The character occurs in the string. *)
Fixpoint hasChar (c : ascii) (s : string) : bool :=
  match s with
  | EmptyString => false
  | String x r => Ascii.eqb x c || hasChar c r
  end.

(** The lines of a file joined the Windows way, by a carriage return and a
    line feed. *)
Definition joinLinesCRLF (lines : list string) : string :=
  String.concat (String "013" (String "010" EmptyString)) lines.

(** What [split] gives back for a file joined the Windows way: every line
    but the last keeps its carriage return. *)
Fixpoint withCR (lines : list string) : list string :=
  match lines with
  | [] => []
  | [x] => [x]
  | x :: rest => (x ++ String "013" EmptyString)%string :: withCR rest
  end.

(** Two lines the import cannot tell apart: the same once trimmed, and the
    same to the header test. *)
Definition sameLine (a b : string) : Prop :=
  JS.trim a = JS.trim b /\
  JS.includes (JS.toLowerCase a) "date" = JS.includes (JS.toLowerCase b) "date".

(** The template, line by line. *)
Definition templateLines : list string :=
  ["Date,Type,Amount,Institution";
   "2024-01-15,Contribution,5000,RBC";
   "2024-06-20,Withdrawal,2000,Tangerine"]%string.

(** The test a manual entry has to pass, in one: institution and date are
    given, the amount reads as a number above zero, and the date starts
    with the selected year. *)
Definition entryAccepted (form : Form) : bool :=
  negb (String.eqb (txInstitution form) EmptyString)
  && negb (String.eqb (txDate form) EmptyString)
  && JS.gt (JS.parseFloat (txAmount form)) 0
  && String.eqb (String.substring 0 4 (txDate form)) (calcYear form).

(** What every entry of the page's ledger has. *)
Definition entryInvariant (tx : Tx) : Prop :=
  positiveAmount tx /\ institution tx <> EmptyString.

(** A form filled in for a contribution of 250 at RBC on 2024-03-01. *)
Definition sampleForm : Form :=
  mkForm "2024-03-01" "RBC" "CONTRIBUTION" "250" "2024".

(** * Further notions: entries up to a date *)

(** The entries dated on or before [d], and those dated after it, in the
    order the list has them. *)
Definition upTo (d : string) (l : list Tx) : list Tx :=
  List.filter (fun t => String.leb (date t) d) l.

Definition laterThan (d : string) (l : list Tx) : list Tx :=
  List.filter (fun t => negb (String.leb (date t) d)) l.

(** The day the cursor stands on after [n] rounds of the daily loop. *)
Definition cursorAfter (yr : Z) (n : nat) : UTCDate :=
  default (mkDate (yr + 1) 0 1) (daysOfYear yr !! n).

(** Scenario A without its entry of January 3. *)
Definition scenarioA_two_days : list Tx :=
  [contribution "2024-01-01" 15000; withdrawal "2024-01-02" 2000].

(** * Further notions: the fields of a well-formed line *)

(** A field as a well-formed CSV line writes it: plain, or enclosed in
    double quotes. *)
Inductive CsvField :=
| plainField (text : string)
| quotedField (body : string).

(** The text of the field on the line, and the content it stands for. *)
Definition fieldText (f : CsvField) : string :=
  match f with
  | plainField s => s
  | quotedField b => String "034" (b ++ String "034" EmptyString)
  end.

Definition fieldContent (f : CsvField) : string :=
  match f with
  | plainField s => s
  | quotedField b => b
  end.

(** A plain field has no double quote and no comma; a quoted field has no
    double quote inside, and may have commas. *)
Definition wellFormedField (f : CsvField) : Prop :=
  match f with
  | plainField s => countQuotes s = 0%nat /\ hasChar "," s = false
  | quotedField b => countQuotes b = 0%nat
  end.

(** The line that writes the fields, separated by commas. *)
Definition lineOfFields (fields : list CsvField) : string :=
  String.concat "," (map fieldText fields).

(** Three fields, the middle one quoted with a comma inside. *)
Definition quotedAmountFields : list CsvField :=
  [plainField "2024-01-19"; quotedField "7,371.84"; plainField "RBC"].

(** * Ordering and rounding facts about binary64 *)

Module FloatFacts.

Import FloatOrder.

Lemma digits2_pos_bounds (p : positive) :
  2 ^ (Z.pos (digits2_pos p) - 1) <= Z.pos p < 2 ^ Z.pos (digits2_pos p).
Proof.
  induction p as [p IH|p IH|]; simpl digits2_pos.
  - rewrite Pos2Z.inj_succ, (Pos2Z.inj_xI p).
    replace (Z.succ (Z.pos (digits2_pos p)) - 1)
      with (Z.succ (Z.pos (digits2_pos p) - 1)) by lia.
    rewrite !Z.pow_succ_r by lia.
    generalize dependent (2 ^ (Z.pos (digits2_pos p) - 1)).
    generalize (2 ^ Z.pos (digits2_pos p)). intros; lia.
  - rewrite Pos2Z.inj_succ, (Pos2Z.inj_xO p).
    replace (Z.succ (Z.pos (digits2_pos p)) - 1)
      with (Z.succ (Z.pos (digits2_pos p) - 1)) by lia.
    rewrite !Z.pow_succ_r by lia.
    generalize dependent (2 ^ (Z.pos (digits2_pos p) - 1)).
    generalize (2 ^ Z.pos (digits2_pos p)). intros; lia.
  - simpl. lia.
Qed.

(** What [valid_binary] says about a finite binary64 number. *)
Lemma bounded_inv (m : positive) (e : Z) :
  bounded prec emax m e = true ->
  -1074 <= e <= 971 /\
  e = Z.max (Z.pos (digits2_pos m) + e - 53) (-1074) /\
  Z.pos m < 2 ^ 53 /\
  (-1074 < e -> 2 ^ 52 <= Z.pos m).
Proof.
  unfold bounded, canonical_mantissa, fexp, SpecFloat.emin, prec, emax.
  intros H. apply andb_true_iff in H as [H1 H2].
  apply Z.eqb_eq in H1. apply Z.leb_le in H2.
  pose proof (digits2_pos_bounds m) as [Hlo Hhi].
  set (d := Z.pos (digits2_pos m)) in *.
  assert (Hd : d <= 53) by lia.
  repeat split; try lia.
  - eapply Z.lt_le_trans; [exact Hhi|]. apply Z.pow_le_mono_r; lia.
  - intros He. assert (d = 53) as Hd53 by lia.
    rewrite Hd53 in Hlo. exact Hlo.
Qed.

Lemma pow2_pos (n : Z) : 0 <= n -> 0 < 2 ^ n.
Proof. intros. apply Z.pow_pos_nonneg; lia. Qed.

(** A canonical number with the smaller exponent is the smaller one. *)
Lemma finite_lt_exp (m1 m2 : positive) (e1 e2 : Z) :
  bounded prec emax m1 e1 = true -> bounded prec emax m2 e2 = true ->
  e1 < e2 ->
  Z.pos m1 * 2 ^ (e1 + 1074) < Z.pos m2 * 2 ^ (e2 + 1074).
Proof.
  intros H1 H2 Hlt.
  apply bounded_inv in H1 as (He1 & _ & Hm1 & _).
  apply bounded_inv in H2 as (He2 & _ & _ & Hm2).
  specialize (Hm2 ltac:(lia)).
  assert (Hp : 0 < 2 ^ (e1 + 1074)) by (apply pow2_pos; lia).
  assert (Hstep : 2 * 2 ^ (e1 + 1074) <= 2 ^ (e2 + 1074)).
  { rewrite <- Z.pow_succ_r by lia. apply Z.pow_le_mono_r; lia. }
  change (2 ^ 53) with (2 ^ 52 * 2) in Hm1.
  nia.
Qed.

Lemma finite_val_pos (m : positive) (e : Z) :
  -1074 <= e -> 0 < Z.pos m * 2 ^ (e + 1074).
Proof. intros. pose proof (pow2_pos (e + 1074)). nia. Qed.

Lemma finite_val_bound (m : positive) (e : Z) :
  bounded prec emax m e = true -> Z.pos m * 2 ^ (e + 1074) < 2 ^ 2100.
Proof.
  intros H. apply bounded_inv in H as (He & _ & Hm & _).
  assert (Hp : 0 < 2 ^ (e + 1074)) by (apply pow2_pos; lia).
  assert (Hq : 2 ^ (e + 1074) <= 2 ^ 2045) by (apply Z.pow_le_mono_r; lia).
  assert (E : 2 ^ 2100 = 2 ^ 53 * 2 ^ 2045 * 4).
  { change 4 with (2 ^ 2). rewrite <- !Z.pow_add_r by lia. reflexivity. }
  rewrite E. nia.
Qed.

Ltac cmp_by_lia :=
  f_equal; symmetry;
  first [ apply Z.compare_eq_iff; lia
        | apply Z.compare_lt_iff; lia
        | apply Z.compare_gt_iff; lia ].

(** Comparison of valid numbers is comparison of their values. *)
Lemma SFcompare_val (x y : spec_float) :
  valid_binary x = true -> valid_binary y = true ->
  SFnotnan x = true -> SFnotnan y = true ->
  SFcompare x y = Some (SFval x ?= SFval y).
Proof.
  assert (Hinf : 0 < 2 ^ 2100) by (apply pow2_pos; lia).
  destruct x as [sx|sx| |sx mx ex], y as [sy|sy| |sy my ey];
    cbn [SFval SFcompare cond_Zopp valid_binary SFnotnan];
    intros Vx Vy Nx Ny; try discriminate.
  - reflexivity.
  - destruct sy; cbn [cond_Zopp]; cmp_by_lia.
  - pose proof (bounded_inv _ _ Vy) as (He & _).
    pose proof (finite_val_pos my ey ltac:(lia)).
    destruct sy; cbn [cond_Zopp]; cmp_by_lia.
  - destruct sx; cbn [cond_Zopp]; cmp_by_lia.
  - destruct sx, sy; cbn [cond_Zopp]; cmp_by_lia.
  - pose proof (finite_val_bound _ _ Vy).
    pose proof (bounded_inv _ _ Vy) as (He & _).
    pose proof (finite_val_pos my ey ltac:(lia)).
    destruct sx, sy; cbn [cond_Zopp]; cmp_by_lia.
  - pose proof (bounded_inv _ _ Vx) as (He & _).
    pose proof (finite_val_pos mx ex ltac:(lia)).
    destruct sx; cbn [cond_Zopp]; cmp_by_lia.
  - pose proof (finite_val_bound _ _ Vx).
    pose proof (bounded_inv _ _ Vx) as (He & _).
    pose proof (finite_val_pos mx ex ltac:(lia)).
    destruct sx, sy; cbn [cond_Zopp]; cmp_by_lia.
  - pose proof (bounded_inv _ _ Vx) as (Hex & _).
    pose proof (bounded_inv _ _ Vy) as (Hey & _).
    pose proof (finite_val_pos mx ex ltac:(lia)) as Px.
    pose proof (finite_val_pos my ey ltac:(lia)) as Py.
    assert (Hcmp : match ex ?= ey with
                   | Lt => Lt | Gt => Gt
                   | Eq => Pos.compare_cont Eq mx my
                   end
                   = (Z.pos mx * 2 ^ (ex + 1074) ?= Z.pos my * 2 ^ (ey + 1074))).
    { destruct (Z.compare_spec ex ey) as [E|L|G].
      - subst ey. change (Pos.compare_cont Eq mx my) with (Pos.compare mx my).
        symmetry.
        destruct (Pos.compare_spec mx my) as [E|L|G];
          [ apply Z.compare_eq_iff | apply Z.compare_lt_iff
          | apply Z.compare_gt_iff ]; nia.
      - symmetry. apply Z.compare_lt_iff. now apply finite_lt_exp.
      - symmetry. apply Z.compare_gt_iff. now apply finite_lt_exp. }
    destruct sx, sy; cbn [cond_Zopp]; f_equal.
    + rewrite Z.compare_opp.
      rewrite (Z.compare_antisym (Z.pos mx * 2 ^ (ex + 1074))
                 (Z.pos my * 2 ^ (ey + 1074))), <- Hcmp.
      now destruct (ex ?= ey).
    + symmetry. apply Z.compare_lt_iff. lia.
    + symmetry. apply Z.compare_gt_iff. lia.
    + exact Hcmp.
Qed.

(** ** Right shifts with rounding bits *)

Lemma iter_pos_nat {A : Type} (f : A -> A) (p : positive) (x : A) :
  SpecFloat.iter_pos f p x = Nat.iter (Pos.to_nat p) f x.
Proof.
  revert x; induction p as [p IH|p IH|]; intros x; simpl SpecFloat.iter_pos.
  - rewrite !IH, Pos2Nat.inj_xI.
    replace (S (2 * Pos.to_nat p)) with (Pos.to_nat p + S (Pos.to_nat p))%nat
      by lia.
    rewrite Nat.iter_add. f_equal. now rewrite Nat.iter_succ_r.
  - rewrite !IH, Pos2Nat.inj_xO.
    replace (2 * Pos.to_nat p)%nat with (Pos.to_nat p + Pos.to_nat p)%nat by lia.
    now rewrite Nat.iter_add.
  - reflexivity.
Qed.

Lemma shr_1_spec (mrs : shr_record) :
  0 <= shr_m mrs ->
  exists b : bool,
    shr_m mrs = 2 * shr_m (shr_1 mrs) + (if b then 1 else 0) /\
    0 <= shr_m (shr_1 mrs) /\
    lost (shr_1 mrs) = b || lost mrs.
Proof.
  destruct mrs as [m r s']; simpl. intros Hm.
  destruct m as [|[p|p|]|p]; try lia; unfold lost; simpl.
  - exists false. repeat split; lia.
  - exists true. repeat split; lia.
  - exists false. repeat split; lia.
  - exists true. repeat split; lia.
Qed.

Lemma shr_iter_spec (n : nat) (m : Z) :
  0 <= m ->
  let mrs := Nat.iter n shr_1 (Build_shr_record m false false) in
  0 <= shr_m mrs /\
  shr_m mrs * 2 ^ Z.of_nat n <= m < (shr_m mrs + 1) * 2 ^ Z.of_nat n /\
  (lost mrs = false <-> shr_m mrs * 2 ^ Z.of_nat n = m).
Proof.
  intros Hm. induction n as [|n IH]; cbn zeta.
  - simpl. unfold lost; simpl. repeat split; try lia.
  - rewrite Nat2Z.inj_succ, Z.pow_succ_r by lia.
    simpl Nat.iter. cbn zeta in IH.
    set (mrs := Nat.iter n shr_1 _) in *.
    destruct IH as (H0 & Hb & Hex).
    destruct (shr_1_spec mrs H0) as (b & Hq & Hq0 & Hl).
    assert (Hp : 0 < 2 ^ Z.of_nat n) by (apply pow2_pos; lia).
    set (P := 2 ^ Z.of_nat n) in *.
    set (q := shr_m (shr_1 mrs)) in *.
    repeat split; try (destruct b; nia).
    + rewrite Hl. intros Hf. apply orb_false_iff in Hf as [-> Hf].
      apply Hex in Hf. nia.
    + intros He. rewrite Hl.
      assert (b = false) as -> by (destruct b; [nia | reflexivity]).
      simpl. apply Hex. nia.
Qed.

Lemma shr_nonneg (mrs : shr_record) (e n : Z) :
  0 <= shr_m mrs -> 0 <= shr_m (fst (shr mrs e n)).
Proof.
  intros H. unfold shr. destruct n as [|p|p]; simpl; try exact H.
  rewrite iter_pos_nat. induction (Pos.to_nat p) as [|k IH]; simpl; [exact H|].
  now destruct (shr_1_spec _ IH) as (b & _ & Hq & _).
Qed.

Lemma round_nearest_even_spec (q : Z) (mrs : shr_record) :
  shr_m mrs = q ->
  q <= round_nearest_even q (loc_of_shr_record mrs) <= q + 1 /\
  (lost mrs = false -> round_nearest_even q (loc_of_shr_record mrs) = q).
Proof.
  intros _. destruct mrs as [m [|] [|]]; unfold lost; simpl;
    try destruct (Z.even q); split; try lia; try discriminate; reflexivity.
Qed.

Lemma shr_record_of_loc_m (m : Z) (l : location) :
  shr_m (shr_record_of_loc m l) = m.
Proof. now destruct l as [|[]]. Qed.

Lemma binary_round_aux_signed (s : bool) (m e : Z) (l : location) :
  0 <= m -> signed s (binary_round_aux prec emax s m e l).
Proof.
  intros Hm. unfold binary_round_aux, shr_fexp.
  destruct (shr (shr_record_of_loc m l) e _) as [mrs' e'] eqn:E1.
  assert (H1 : 0 <= shr_m mrs').
  { change mrs' with (fst (mrs', e')). rewrite <- E1. apply shr_nonneg.
    now rewrite shr_record_of_loc_m. }
  destruct (round_nearest_even_spec (shr_m mrs') mrs' eq_refl) as [[Hlo _] _].
  set (m1 := round_nearest_even _ _) in *.
  destruct (shr (shr_record_of_loc m1 loc_Exact) e' _) as [mrs'' e''] eqn:E2.
  assert (H2 : 0 <= shr_m mrs'').
  { change mrs'' with (fst (mrs'', e'')). rewrite <- E2. apply shr_nonneg.
    simpl. lia. }
  destruct (shr_m mrs'') as [|p|p]; simpl; try lia; try reflexivity.
  now destruct (e'' <=? emax - prec).
Qed.

Lemma binary_round_signed (s : bool) (m : positive) (e : Z) :
  signed s (binary_round prec emax s m e).
Proof.
  unfold binary_round. destruct (shl_align m e _) as [mz ez].
  apply binary_round_aux_signed. lia.
Qed.

Lemma binary_normalize_signed (m e : Z) :
  0 <= m -> signed false (binary_normalize prec emax m e false).
Proof.
  destruct m as [|p|p]; intros H;
    [reflexivity | apply binary_round_signed | lia].
Qed.

(** ** Rounding never goes above a representable upper bound *)

Lemma fexp64 (x : Z) : fexp prec emax x = Z.max (x - 53) (-1074).
Proof. reflexivity. Qed.

Lemma shr_fexp_exact_spec (m e : Z) :
  0 <= m ->
  forall mrs e', shr_fexp prec emax m e loc_Exact = (mrs, e') ->
  e' = Z.max e (Z.max (Zdigits2 m + e - 53) (-1074)) /\
  0 <= shr_m mrs /\
  shr_m mrs * 2 ^ (e' - e) <= m < (shr_m mrs + 1) * 2 ^ (e' - e) /\
  (lost mrs = false <-> shr_m mrs * 2 ^ (e' - e) = m).
Proof.
  intros Hm mrs e'. unfold shr_fexp. rewrite fexp64.
  set (t := Z.max (Zdigits2 m + e - 53) (-1074)).
  unfold shr. destruct (t - e) as [|p|p] eqn:En.
  - intros [= <- <-]. replace (Z.max e t) with e by lia.
    replace (e - e) with 0 by lia. unfold lost; simpl.
    repeat split; lia.
  - intros [= <- <-]. replace (Z.max e t) with (e + Z.pos p) by lia.
    replace (e + Z.pos p - e) with (Z.of_nat (Pos.to_nat p)) by lia.
    rewrite iter_pos_nat. split; [reflexivity|].
    exact (shr_iter_spec (Pos.to_nat p) m Hm).
  - intros [= <- <-]. replace (Z.max e t) with e by lia.
    replace (e - e) with 0 by lia. unfold lost; simpl.
    repeat split; lia.
Qed.

Lemma Zdigits2_bounds (m : Z) :
  0 < m -> 2 ^ (Zdigits2 m - 1) <= m < 2 ^ Zdigits2 m.
Proof.
  destruct m as [|p|p]; try lia. intros _. apply digits2_pos_bounds.
Qed.

Lemma pow2_split (a b : Z) : 0 <= a -> 0 <= b -> 2 ^ (a + b) = 2 ^ a * 2 ^ b.
Proof. intros. now apply Z.pow_add_r. Qed.

(** [m * 2^e], rounded to nearest, stays at or below any binary64 number
    that is at or above it. *)
Lemma binary_round_aux_le (m e : Z) (mx : positive) (ex : Z) :
  0 < m -> -1074 <= e <= ex -> bounded prec emax mx ex = true ->
  m * 2 ^ (e + 1074) <= Z.pos mx * 2 ^ (ex + 1074) ->
  SFval (binary_round_aux prec emax false m e loc_Exact)
    <= Z.pos mx * 2 ^ (ex + 1074).
Proof.
  intros Hm He Hbx Hle.
  pose proof (bounded_inv _ _ Hbx) as (Hex & Hcan & _ & _).
  pose proof (digits2_pos_bounds mx) as [_ Hdx].
  set (dx := Z.pos (digits2_pos mx)) in *.
  set (X := Z.pos mx * 2 ^ (ex + 1074)) in *.
  assert (HX : X < 2 ^ (dx + ex + 1074)).
  { replace (dx + ex + 1074) with (dx + (ex + 1074)) by lia.
    rewrite pow2_split by lia.
    pose proof (pow2_pos (ex + 1074) ltac:(lia)). unfold X. nia. }
  assert (HX0 : 0 < X).
  { pose proof (pow2_pos (ex + 1074) ltac:(lia)). unfold X. nia. }
  (* any mantissa at exponent k whose value is at most X has few digits *)
  assert (Hdig : forall k z, 0 < k -> -1074 <= z ->
                   k * 2 ^ (z + 1074) <= X -> Zdigits2 k + z <= dx + ex).
  { intros k z Hk Hz Hkz.
    pose proof (Zdigits2_bounds k Hk) as [Hlo _].
    assert (Hd1 : 0 < Zdigits2 k) by (destruct k; simpl; lia).
    assert (2 ^ (Zdigits2 k - 1 + (z + 1074)) < 2 ^ (dx + ex + 1074)).
    { rewrite pow2_split by lia.
      pose proof (pow2_pos (z + 1074) ltac:(lia)). nia. }
    apply Z.pow_lt_mono_r_iff in H; lia. }
  unfold binary_round_aux.
  destruct (shr_fexp prec emax m e loc_Exact) as [mrs' e'] eqn:E1.
  destruct (shr_fexp_exact_spec m e ltac:(lia) _ _ E1)
    as (He' & Hq0 & Hqb & Hqe).
  pose proof (Hdig m e Hm ltac:(lia) Hle) as Hd.
  assert (He'x : -1074 <= e' <= ex) by lia.
  destruct (round_nearest_even_spec (shr_m mrs') mrs' eq_refl) as [Hr Hrx].
  set (q := shr_m mrs') in *.
  set (m1 := round_nearest_even q (loc_of_shr_record mrs')) in *.
  assert (HA : m1 * 2 ^ (e' + 1074) <= X).
  { assert (Hs : 2 ^ (e' + 1074) = 2 ^ (e + 1074) * 2 ^ (e' - e)).
    { rewrite <- pow2_split by lia. f_equal. lia. }
    assert (HY : X = Z.pos mx * 2 ^ (ex - e') * 2 ^ (e' + 1074)).
    { unfold X. rewrite <- Z.mul_assoc, <- pow2_split by lia.
      do 2 f_equal. lia. }
    pose proof (pow2_pos (e + 1074) ltac:(lia)) as HP.
    pose proof (pow2_pos (e' - e) ltac:(lia)) as HN.
    set (Y := Z.pos mx * 2 ^ (ex - e')) in *.
    rewrite HY, Hs in *.
    set (P := 2 ^ (e + 1074)) in *. set (N := 2 ^ (e' - e)) in *.
    assert (HmY : m <= Y * N) by nia.
    destruct (lost mrs') eqn:El.
    - assert (q * N <> m) by (intros Hc; apply Hqe in Hc; discriminate).
      assert (q + 1 <= Y) by nia. nia.
    - rewrite (Hrx eq_refl). assert (q * N = m) by now apply Hqe.
      assert (q <= Y) by nia. nia. }
  destruct (shr_fexp prec emax m1 e' loc_Exact) as [mrs'' e''] eqn:E2.
  destruct (shr_fexp_exact_spec m1 e' ltac:(lia) _ _ E2)
    as (He'' & Hq20 & Hq2b & _).
  set (q2 := shr_m mrs'') in *.
  assert (He''x : e' <= e'' <= 971).
  { destruct (Z.eq_dec m1 0) as [Hz|Hnz].
    - rewrite Hz in He''. simpl in He''. lia.
    - pose proof (Hdig m1 e' ltac:(lia) ltac:(lia) HA). lia. }
  assert (HB : q2 * 2 ^ (e'' + 1074) <= X).
  { assert (Hs : 2 ^ (e'' + 1074) = 2 ^ (e' + 1074) * 2 ^ (e'' - e')).
    { rewrite <- pow2_split by lia. f_equal. lia. }
    pose proof (pow2_pos (e' + 1074) ltac:(lia)).
    pose proof (pow2_pos (e'' - e') ltac:(lia)).
    rewrite Hs. nia. }
  destruct q2 as [|p2|p2] eqn:Eq2; simpl; try lia.
  destruct (Z.leb_spec e'' (emax - prec)) as [_|Hgt]; simpl.
  - exact HB.
  - unfold emax, prec in Hgt. lia.
Qed.

Lemma pos_iter_xO (p d : positive) :
  Z.pos (Pos.iter xO p d) = Z.pos p * 2 ^ Z.pos d.
Proof.
  induction d as [|d IH] using Pos.peano_ind.
  - simpl Pos.iter. rewrite Pos2Z.inj_xO. change (2 ^ 1) with 2. ring.
  - rewrite Pos.iter_succ, Pos2Z.inj_xO, IH, Pos2Z.inj_succ, Z.pow_succ_r by lia.
    ring.
Qed.

(** Aligning a mantissa to a smaller exponent keeps the value. *)
Lemma shl_align_spec (m : positive) (e e' : Z) :
  -1074 <= e -> -1074 <= e' ->
  snd (shl_align m e e') = Z.min e e' /\
  Z.pos (fst (shl_align m e e')) * 2 ^ (Z.min e e' + 1074)
  = Z.pos m * 2 ^ (e + 1074).
Proof.
  intros He He'. unfold shl_align. destruct (e' - e) as [|d|d] eqn:E; simpl.
  - replace (Z.min e e') with e by lia. split; reflexivity.
  - replace (Z.min e e') with e by lia. split; reflexivity.
  - replace (Z.min e e') with e' by lia. split; [reflexivity|].
    rewrite pos_iter_xO. replace (e + 1074) with (Z.pos d + (e' + 1074)) by lia.
    rewrite (pow2_split (Z.pos d) (e' + 1074)) by lia. ring.
Qed.

Lemma binary_round_le (p : positive) (e : Z) (mx : positive) (ex : Z) :
  -1074 <= e <= ex -> bounded prec emax mx ex = true ->
  Z.pos p * 2 ^ (e + 1074) <= Z.pos mx * 2 ^ (ex + 1074) ->
  SFval (binary_round prec emax false p e) <= Z.pos mx * 2 ^ (ex + 1074).
Proof.
  intros He Hb Hle. unfold binary_round. rewrite fexp64.
  set (t := Z.max _ _).
  destruct (shl_align_spec p e t ltac:(lia) ltac:(lia)) as [H1 H2].
  destruct (shl_align p e t) as [mz ez]; simpl in H1, H2. subst ez.
  apply (binary_round_aux_le (Z.pos mz) (Z.min e t) mx ex);
    [lia | lia | assumption | now rewrite H2].
Qed.

(** ** Sums and differences of non-negative numbers *)

Lemma SFsub_pos (mx my : positive) (ex ey : Z) :
  bounded prec emax mx ex = true -> bounded prec emax my ey = true ->
  SFval (SFfin my ey) <= SFval (SFfin mx ex) ->
  signed false (SF64sub (SFfin mx ex) (SFfin my ey)) /\
  SFval (SF64sub (SFfin mx ex) (SFfin my ey)) <= SFval (SFfin mx ex).
Proof.
  intros Hx Hy Hle. unfold SF64sub, SFsub, SFfin in *.
  cbn [cond_Zopp SFval] in *.
  pose proof (bounded_inv _ _ Hx) as (Hex & _).
  pose proof (bounded_inv _ _ Hy) as (Hey & _).
  destruct (shl_align_spec mx ex (Z.min ex ey) ltac:(lia) ltac:(lia)) as [_ Hax].
  destruct (shl_align_spec my ey (Z.min ex ey) ltac:(lia) ltac:(lia)) as [_ Hay].
  replace (Z.min ex (Z.min ex ey)) with (Z.min ex ey) in Hax by lia.
  replace (Z.min ey (Z.min ex ey)) with (Z.min ex ey) in Hay by lia.
  set (Mx := Z.pos (fst (shl_align mx ex (Z.min ex ey)))) in *.
  set (My := Z.pos (fst (shl_align my ey (Z.min ex ey)))) in *.
  pose proof (pow2_pos (Z.min ex ey + 1074) ltac:(lia)) as HP.
  assert (Hd : 0 <= Mx - My) by nia.
  split; [now apply binary_normalize_signed|].
  destruct (Mx - My) as [|p|p] eqn:Ed; try lia.
  - simpl. pose proof (finite_val_pos mx ex ltac:(lia)). lia.
  - cbn [binary_normalize].
    apply (binary_round_le p (Z.min ex ey) mx ex); [lia | assumption |].
    rewrite <- Ed. nia.
Qed.

Lemma SFadd_pos (mx my : positive) (ex ey : Z) :
  signed false (SF64add (SFfin mx ex) (SFfin my ey)).
Proof.
  unfold SF64add, SFadd, SFfin. cbn [cond_Zopp].
  apply binary_normalize_signed. lia.
Qed.

(** ** The same facts on primitive floats *)

Lemma compare_fval (x y : float) :
  notnan x = true -> notnan y = true ->
  SFcompare (Prim2SF x) (Prim2SF y) = Some (fval x ?= fval y).
Proof. intros. apply SFcompare_val; auto using Prim2SF_valid. Qed.

Lemma SFcompare_nan_l (y : spec_float) : SFcompare S754_nan y = None.
Proof. reflexivity. Qed.

Lemma SFcompare_nan_r (x : spec_float) : SFcompare x S754_nan = None.
Proof. now destruct x. Qed.

Lemma compare_notnan (x y : float) (c : comparison) :
  SFcompare (Prim2SF x) (Prim2SF y) = Some c ->
  notnan x = true /\ notnan y = true.
Proof.
  unfold notnan. destruct (Prim2SF x), (Prim2SF y); simpl; try discriminate;
    now split.
Qed.

Lemma ltb_iff (x y : float) :
  PrimFloat.ltb x y = true <->
  notnan x = true /\ notnan y = true /\ fval x < fval y.
Proof.
  rewrite FloatAxioms.ltb_spec. unfold SFltb. split.
  - destruct (SFcompare _ _) as [c|] eqn:E; [|discriminate].
    destruct (compare_notnan _ _ _ E) as [Nx Ny].
    rewrite (compare_fval _ _ Nx Ny) in E. injection E as <-.
    destruct (Z.compare_spec (fval x) (fval y)); try discriminate. now auto.
  - intros (Nx & Ny & H). rewrite (compare_fval _ _ Nx Ny).
    now apply Z.compare_lt_iff in H as ->.
Qed.

Lemma leb_iff (x y : float) :
  PrimFloat.leb x y = true <->
  notnan x = true /\ notnan y = true /\ fval x <= fval y.
Proof.
  rewrite FloatAxioms.leb_spec. unfold SFleb. split.
  - destruct (SFcompare _ _) as [c|] eqn:E; [|discriminate].
    destruct (compare_notnan _ _ _ E) as [Nx Ny].
    rewrite (compare_fval _ _ Nx Ny) in E. injection E as <-.
    destruct (Z.compare_spec (fval x) (fval y)); try discriminate;
      intros _; repeat split; auto; lia.
  - intros (Nx & Ny & H). rewrite (compare_fval _ _ Nx Ny).
    destruct (Z.compare_spec (fval x) (fval y)); try reflexivity. lia.
Qed.

Lemma is_nan_notnan (x : float) : PrimFloat.is_nan x = negb (notnan x).
Proof.
  unfold PrimFloat.is_nan, notnan. rewrite FloatAxioms.eqb_spec. unfold SFeqb.
  destruct (SFnotnan (Prim2SF x)) eqn:N.
  - rewrite (SFcompare_val _ _ (Prim2SF_valid x) (Prim2SF_valid x) N N).
    now rewrite Z.compare_refl.
  - destruct (Prim2SF x); try discriminate. reflexivity.
Qed.

Lemma plus_notnan (x : float) : plus x -> notnan x = true.
Proof. unfold plus, notnan. now destruct (Prim2SF x). Qed.

Lemma plus_fval (x : float) : plus x -> 0 <= fval x.
Proof.
  unfold plus, fval. pose proof (Prim2SF_valid x) as V.
  destruct (Prim2SF x) as [s|s| |s m e]; simpl; try tauto; intros ->; simpl.
  - lia.
  - pose proof (pow2_pos 2100). lia.
  - apply bounded_inv in V as (He & _).
    pose proof (finite_val_pos m e ltac:(lia)). lia.
Qed.

Lemma fval_zero : fval 0%float = 0.
Proof. reflexivity. Qed.

Lemma notnan_zero : notnan 0%float = true.
Proof. reflexivity. Qed.

Lemma plus_zero : plus 0%float.
Proof. reflexivity. Qed.

Lemma plus_nonneg (x : float) : plus x -> PrimFloat.leb 0 x = true.
Proof.
  intros H. apply leb_iff. rewrite fval_zero.
  repeat split; [apply plus_notnan, H | apply plus_fval, H].
Qed.

Lemma fval_infinity : fval infinity = 2 ^ 2100.
Proof. reflexivity. Qed.

(** A number above zero is a positive finite number or [+Infinity]. *)
Lemma pos_inv (a : float) :
  PrimFloat.ltb 0 a = true ->
  (exists m e, Prim2SF a = SFfin m e /\ bounded prec emax m e = true) \/
  Prim2SF a = S754_infinity false.
Proof.
  intros H. apply ltb_iff in H as (_ & Na & Hv).
  unfold notnan, fval in *. pose proof (Prim2SF_valid a) as V.
  change (SFval (Prim2SF 0%float)) with 0 in Hv.
  destruct (Prim2SF a) as [s|s| |s m e]; simpl in *; try discriminate; try lia.
  - destruct s; [|now right]. pose proof (pow2_pos 2100). simpl in Hv. lia.
  - pose proof (bounded_inv _ _ V) as (He & _).
    pose proof (finite_val_pos m e ltac:(lia)).
    destruct s; simpl in Hv; [lia|]. left. now exists m, e.
Qed.

Lemma pos_finite_inv (a : float) :
  PrimFloat.ltb 0 a = true -> PrimFloat.ltb a infinity = true ->
  exists m e, Prim2SF a = SFfin m e /\ bounded prec emax m e = true.
Proof.
  intros H0 Hi. destruct (pos_inv a H0) as [H|H]; [exact H|].
  apply ltb_iff in Hi as (_ & _ & Hv). unfold fval in Hv.
  rewrite H in Hv. change (SFval (Prim2SF infinity)) with (2 ^ 2100) in Hv.
  simpl in Hv. lia.
Qed.

(** A number at or above zero is a zero, a positive finite number or
    [+Infinity]. *)
Lemma nonneg_inv (u : float) :
  PrimFloat.leb 0 u = true ->
  (exists s, Prim2SF u = S754_zero s) \/
  (exists m e, Prim2SF u = SFfin m e /\ bounded prec emax m e = true) \/
  Prim2SF u = S754_infinity false.
Proof.
  intros H. apply leb_iff in H as (_ & Nu & Hv).
  unfold notnan, fval in *. pose proof (Prim2SF_valid u) as V.
  change (SFval (Prim2SF 0%float)) with 0 in Hv.
  destruct (Prim2SF u) as [s|s| |s m e]; simpl in *; try discriminate.
  - left. now exists s.
  - destruct s; [|now auto]. pose proof (pow2_pos 2100). simpl in Hv. lia.
  - pose proof (bounded_inv _ _ V) as (He & _).
    pose proof (finite_val_pos m e ltac:(lia)).
    destruct s; simpl in Hv; [lia|]. right; left. now exists m, e.
Qed.

(** [x - a] for [0 < a <= x] with [a] finite: the difference is at or
    above [+0], and at or below [x]. *)
Lemma sub_ge (x a : float) :
  PrimFloat.ltb 0 a = true -> PrimFloat.ltb a infinity = true ->
  PrimFloat.leb a x = true ->
  plus (x - a) /\ PrimFloat.leb (x - a) x = true.
Proof.
  intros H0 Hi Hle.
  destruct (pos_finite_inv a H0 Hi) as (ma & ea & Ea & Ba).
  pose proof (proj1 (ltb_iff _ _) H0) as (_ & _ & Hva).
  pose proof (proj1 (leb_iff _ _) Hle) as (_ & Nx & Hvx).
  rewrite fval_zero in Hva.
  assert (H0x : PrimFloat.ltb 0 x = true).
  { apply ltb_iff. rewrite fval_zero. repeat split; auto; lia. }
  assert (S : signed false (Prim2SF (x - a)) /\ fval (x - a) <= fval x).
  { unfold fval in *. rewrite sub_spec, Ea in *.
    destruct (pos_inv x H0x) as [(mx & ex & Ex & Bx)|Ex]; rewrite Ex in *.
    - now apply SFsub_pos.
    - split; [reflexivity | simpl; lia]. }
  destruct S as [S1 S2]. split; [exact S1|].
  apply leb_iff. repeat split; auto. now apply plus_notnan.
Qed.

(** The spill [a - u] when the room [u] does not cover [a]. *)
Lemma sub_spill (u a : float) :
  PrimFloat.leb 0 u = true -> PrimFloat.ltb 0 a = true ->
  PrimFloat.leb a u = false -> plus (a - u).
Proof.
  intros Hu Ha Hn.
  pose proof (proj1 (leb_iff _ _) Hu) as (_ & Nu & _).
  pose proof (proj1 (ltb_iff _ _) Ha) as (_ & Na & _).
  assert (Hlt : fval u < fval a).
  { destruct (Z.lt_ge_cases (fval u) (fval a)) as [|Hge]; [assumption|].
    exfalso. assert (PrimFloat.leb a u = true)
      by (apply leb_iff; repeat split; auto; lia).
    congruence. }
  unfold plus, fval in *. rewrite sub_spec.
  destruct (nonneg_inv u Hu) as [(s & Eu)|[(mu & eu & Eu & Bu)|Eu]];
    destruct (pos_inv a Ha) as [(ma & ea & Ea & Ba)|Ea];
    rewrite Eu, Ea in *; try reflexivity.
  - apply SFsub_pos; auto. lia.
  - simpl in Hlt. pose proof (finite_val_bound _ _ Ba). lia.
  - simpl in Hlt. lia.
Qed.

Lemma plus_inv (x : float) :
  plus x ->
  Prim2SF x = S754_zero false \/
  (exists m e, Prim2SF x = SFfin m e) \/
  Prim2SF x = S754_infinity false.
Proof.
  unfold plus. destruct (Prim2SF x) as [s|s| |s m e]; simpl; try tauto;
    intros ->; auto. right; left. now exists m, e.
Qed.

Lemma add_plus (x y : float) : plus x -> plus y -> plus (x + y).
Proof.
  intros Hx Hy. unfold plus. rewrite add_spec.
  destruct (plus_inv x Hx) as [Ex|[(mx & ex & Ex)|Ex]];
    destruct (plus_inv y Hy) as [Ey|[(my & ey & Ey)|Ey]];
    rewrite Ex, Ey; try reflexivity.
  apply SFadd_pos.
Qed.

Lemma abs_plus (x : float) : notnan x = true -> plus (abs x).
Proof.
  unfold plus, notnan. rewrite abs_spec.
  now destruct (Prim2SF x).
Qed.

Lemma eqb_iff (x y : float) :
  PrimFloat.eqb x y = true <->
  notnan x = true /\ notnan y = true /\ fval x = fval y.
Proof.
  rewrite FloatAxioms.eqb_spec. unfold SFeqb. split.
  - destruct (SFcompare _ _) as [c|] eqn:E; [|discriminate].
    destruct (compare_notnan _ _ _ E) as [Nx Ny].
    rewrite (compare_fval _ _ Nx Ny) in E. injection E as <-.
    destruct (Z.compare_spec (fval x) (fval y)); try discriminate. now auto.
  - intros (Nx & Ny & H). rewrite (compare_fval _ _ Nx Ny), H.
    now rewrite Z.compare_refl.
Qed.

(** There is one NaN. *)
Lemma nan_eq (x : float) : notnan x = false -> x = nan.
Proof.
  unfold notnan. intros H. apply Prim2SF_inj.
  destruct (Prim2SF x); try discriminate. reflexivity.
Qed.

Lemma notnan_sub_l (x y : float) : notnan x = false -> notnan (x - y) = false.
Proof.
  unfold notnan. rewrite sub_spec. now destruct (Prim2SF x).
Qed.

Lemma notnan_sub_r (x y : float) : notnan y = false -> notnan (x - y) = false.
Proof.
  unfold notnan. rewrite sub_spec.
  now destruct (Prim2SF x), (Prim2SF y).
Qed.

Lemma notnan_add_l (x y : float) : notnan x = false -> notnan (x + y) = false.
Proof.
  unfold notnan. rewrite add_spec. now destruct (Prim2SF x).
Qed.

Lemma notnan_add_r (x y : float) : notnan y = false -> notnan (x + y) = false.
Proof.
  unfold notnan. rewrite add_spec.
  now destruct (Prim2SF x), (Prim2SF y).
Qed.

(** A value of [2^2100] units belongs to [+Infinity] alone. *)
Lemma fval_top (x : float) :
  notnan x = true -> 2 ^ 2100 <= fval x -> x = infinity.
Proof.
  unfold notnan, fval. intros N H. apply Prim2SF_inj.
  pose proof (Prim2SF_valid x) as V. pose proof (pow2_pos 2100 ltac:(lia)).
  change (Prim2SF infinity) with (S754_infinity false).
  destruct (Prim2SF x) as [s|s| |s m e]; simpl in *; try discriminate; try lia.
  - destruct s; simpl in H; [lia | reflexivity].
  - pose proof (finite_val_bound _ _ V).
    pose proof (bounded_inv _ _ V) as (He & _).
    pose proof (finite_val_pos m e ltac:(lia)).
    destruct s; simpl in H; lia.
Qed.

(** Positive numbers of equal value are the same number. *)
Lemma fval_inj_pos (x y : float) :
  PrimFloat.ltb 0 x = true -> notnan y = true -> fval x = fval y -> x = y.
Proof.
  intros Hx Ny Hv.
  pose proof (proj1 (ltb_iff _ _) Hx) as (_ & Nx & Hvx). rewrite fval_zero in Hvx.
  assert (Hy : PrimFloat.ltb 0 y = true)
    by (apply ltb_iff; rewrite fval_zero; repeat split; auto; lia).
  apply Prim2SF_inj. unfold fval in Hv.
  destruct (pos_inv x Hx) as [(mx & ex & Ex & Bx)|Ex];
    destruct (pos_inv y Hy) as [(my & ey & Ey & By)|Ey];
    rewrite Ex, Ey in *; simpl in Hv.
  - destruct (Z.lt_total ex ey) as [L|[E|G]].
    + pose proof (finite_lt_exp _ _ _ _ Bx By L). lia.
    + subst ey. pose proof (bounded_inv _ _ Bx) as (He & _).
      pose proof (pow2_pos (ex + 1074) ltac:(lia)).
      assert (Z.pos mx = Z.pos my) by nia. unfold SFfin. congruence.
    + pose proof (finite_lt_exp _ _ _ _ By Bx ltac:(lia)). lia.
  - pose proof (finite_val_bound _ _ Bx). lia.
  - pose proof (finite_val_bound _ _ By). lia.
  - reflexivity.
Qed.

(** [x - x] is [+0] for a finite [x] at or above [+0]. *)
Lemma sub_self (x : float) :
  plus x -> PrimFloat.ltb x infinity = true -> (x - x)%float = 0%float.
Proof.
  intros Hp Hi. apply Prim2SF_inj. rewrite sub_spec.
  apply ltb_iff in Hi as (_ & _ & Hv). unfold fval in Hv.
  change (SFval (Prim2SF infinity)) with (2 ^ 2100) in Hv.
  change (Prim2SF 0%float) with (S754_zero false).
  destruct (plus_inv x Hp) as [E|[(m & e & E)|E]]; rewrite E in *.
  - reflexivity.
  - unfold SF64sub, SFsub, SFfin. cbn [cond_Zopp].
    now rewrite Z.sub_diag.
  - simpl in Hv. lia.
Qed.

(** [x - a] for [0 < a <= x], the infinite amount included: at or above
    [+0], or NaN. *)
Lemma sub_ge_or_nan (x a : float) :
  PrimFloat.ltb 0 a = true -> PrimFloat.leb a x = true ->
  plus (x - a) \/ notnan (x - a) = false.
Proof.
  intros H0 Hle.
  destruct (PrimFloat.ltb a infinity) eqn:Hi.
  - left. now apply sub_ge.
  - right. pose proof (proj1 (ltb_iff _ _) H0) as (_ & Na & _).
    pose proof (proj1 (leb_iff _ _) Hle) as (_ & Nx & Hv).
    assert (Ha : 2 ^ 2100 <= fval a).
    { destruct (Z.lt_ge_cases (fval a) (2 ^ 2100)) as [L|]; [|assumption].
      exfalso. assert (PrimFloat.ltb a infinity = true)
        by (apply ltb_iff; rewrite fval_infinity; repeat split; auto).
      congruence. }
    rewrite (fval_top a Na Ha), (fval_top x Nx ltac:(lia)). reflexivity.
Qed.

Lemma fval_le_top (x : float) : fval x <= 2 ^ 2100.
Proof.
  unfold fval. pose proof (Prim2SF_valid x) as V.
  pose proof (pow2_pos 2100 ltac:(lia)).
  destruct (Prim2SF x) as [s|s| |s m e]; simpl; try lia.
  - destruct s; simpl; lia.
  - pose proof (finite_val_bound _ _ V).
    pose proof (bounded_inv _ _ V) as (He & _).
    pose proof (finite_val_pos m e ltac:(lia)).
    destruct s; simpl; lia.
Qed.

(** At or above [+0] with value 0 is [+0] itself. *)
Lemma plus_fval_zero (x : float) : plus x -> fval x = 0 -> x = 0%float.
Proof.
  unfold plus, fval. intros Hp Hv. apply Prim2SF_inj.
  pose proof (Prim2SF_valid x) as V.
  change (Prim2SF 0%float) with (S754_zero false).
  destruct (Prim2SF x) as [s|s| |s m e]; simpl in *; try tauto; subst s.
  - reflexivity.
  - pose proof (pow2_pos 2100 ltac:(lia)). simpl in Hv. lia.
  - pose proof (bounded_inv _ _ V) as (He & _).
    pose proof (finite_val_pos m e ltac:(lia)). simpl in Hv. lia.
Qed.

Lemma notnan_infinity : notnan infinity = true.
Proof. reflexivity. Qed.

Lemma leb_refl (x : float) : notnan x = true -> PrimFloat.leb x x = true.
Proof. intros. apply leb_iff. repeat split; auto; lia. Qed.

Lemma leb_trans (x y z : float) :
  PrimFloat.leb x y = true -> PrimFloat.leb y z = true ->
  PrimFloat.leb x z = true.
Proof.
  intros H1 H2. apply leb_iff in H1 as (? & ? & ?), H2 as (? & ? & ?).
  apply leb_iff. repeat split; auto; lia.
Qed.

Lemma ltb_false_iff (x y : float) :
  notnan x = true -> notnan y = true ->
  PrimFloat.ltb x y = false <-> fval y <= fval x.
Proof.
  intros Nx Ny. split.
  - intros H. destruct (Z.lt_ge_cases (fval x) (fval y)) as [L|]; [|lia].
    assert (PrimFloat.ltb x y = true) by (apply ltb_iff; auto). congruence.
  - intros H. destruct (PrimFloat.ltb x y) eqn:E; [|reflexivity].
    apply ltb_iff in E as (_ & _ & L). lia.
Qed.

Lemma leb_false_iff (x y : float) :
  notnan x = true -> notnan y = true ->
  PrimFloat.leb x y = false <-> fval y < fval x.
Proof.
  intros Nx Ny. split.
  - intros H. destruct (Z.lt_ge_cases (fval y) (fval x)) as [L|]; [lia|].
    assert (PrimFloat.leb x y = true) by (apply leb_iff; auto). congruence.
  - intros H. destruct (PrimFloat.leb x y) eqn:E; [|reflexivity].
    apply leb_iff in E as (_ & _ & L). lia.
Qed.

Lemma ltb_nan_r (x y : float) : notnan y = false -> PrimFloat.ltb x y = false.
Proof.
  intros N. destruct (PrimFloat.ltb x y) eqn:E; [|reflexivity].
  apply ltb_iff in E as (_ & Ny & _). congruence.
Qed.

Lemma ltb_nan_l (x y : float) : notnan x = false -> PrimFloat.ltb x y = false.
Proof.
  intros N. destruct (PrimFloat.ltb x y) eqn:E; [|reflexivity].
  apply ltb_iff in E as (Nx & _ & _). congruence.
Qed.

End FloatFacts.

(** * Properties of the two loops *)

Section Loops.

Variable sortedTxs : list Tx.

(** ** The inner loop *)

Lemma txLoop_add (a b : nat) (d : string) (st : LoopState) :
  txLoop (a + b) sortedTxs d st = txLoop b sortedTxs d (txLoop a sortedTxs d st).
Proof.
  revert st; induction a as [|a IH]; intros st; simpl; [reflexivity|].
  destruct (nextTx sortedTxs d st) as [tx|] eqn:E.
  - apply IH.
  - destruct b; simpl; [reflexivity | now rewrite E].
Qed.

(** The state after one more iteration is one step from the state before. *)
Lemma txLoop_snoc (fuel : nat) (d : string) (st : LoopState) :
  txLoop (S fuel) sortedTxs d st =
  match nextTx sortedTxs d (txLoop fuel sortedTxs d st) with
  | Some tx => txStep tx (txLoop fuel sortedTxs d st)
  | None => txLoop fuel sortedTxs d st
  end.
Proof.
  replace (S fuel) with (fuel + 1)%nat by lia.
  rewrite txLoop_add. simpl.
  now destruct (nextTx sortedTxs d (txLoop fuel sortedTxs d st)).
Qed.

Lemma txLoop_exit (fuel : nat) (d : string) (st : LoopState) :
  (length sortedTxs <= txIndex st + fuel)%nat ->
  nextTx sortedTxs d (txLoop fuel sortedTxs d st) = None.
Proof.
  revert st; induction fuel as [|fuel IH]; intros st H; simpl.
  - unfold nextTx. rewrite lookup_ge_None_2; [reflexivity | lia].
  - destruct (nextTx sortedTxs d st) as [tx|] eqn:E; [|exact E].
    apply IH. simpl. lia.
Qed.

(** The fuel [dayBody] gives the inner loop is enough: the loop has left
    through its guard or its [break], and more fuel changes nothing. *)
Lemma txLoop_fuel_enough (k : nat) (d : string) (st : LoopState) :
  nextTx sortedTxs d (txLoop (length sortedTxs) sortedTxs d st) = None /\
  txLoop (length sortedTxs + k) sortedTxs d st
  = txLoop (length sortedTxs) sortedTxs d st.
Proof.
  assert (E : nextTx sortedTxs d (txLoop (length sortedTxs) sortedTxs d st) = None)
    by (apply txLoop_exit; lia).
  split; [exact E|].
  rewrite txLoop_add. destruct k; simpl; [reflexivity | now rewrite E].
Qed.

(** An induction principle for the inner loop. *)
Lemma txLoop_ind (d : string) (P : LoopState -> Prop) :
  (forall st tx, P st -> nextTx sortedTxs d st = Some tx -> P (txStep tx st)) ->
  forall fuel st, P st -> P (txLoop fuel sortedTxs d st).
Proof.
  intros Hstep fuel; induction fuel as [|fuel IH]; intros st H; simpl; [exact H|].
  destruct (nextTx sortedTxs d st) as [tx|] eqn:E; [|exact H].
  apply IH. now apply Hstep.
Qed.

Lemma nextTx_Some (d : string) (st : LoopState) (tx : Tx) :
  nextTx sortedTxs d st = Some tx ->
  sortedTxs !! txIndex st = Some tx /\ date tx = d.
Proof.
  unfold nextTx. destruct (sortedTxs !! txIndex st) as [t|]; [|discriminate].
  destruct (String.eqb_spec (date t) d); [|discriminate].
  intros [= <-]. now split.
Qed.

(** The inner loop leaves the arrays and the cursor alone. *)
Lemma txLoop_frame (fuel : nat) (d : string) (st : LoopState) :
  monthlyMaxExcess (txLoop fuel sortedTxs d st) = monthlyMaxExcess st /\
  vizDataDates (txLoop fuel sortedTxs d st) = vizDataDates st /\
  vizDataExcess (txLoop fuel sortedTxs d st) = vizDataExcess st /\
  iterDate (txLoop fuel sortedTxs d st) = iterDate st.
Proof.
  revert st; induction fuel as [|fuel IH]; intros st; simpl; [now repeat split|].
  destruct (nextTx sortedTxs d st) as [tx|]; [|now repeat split].
  destruct (IH (txStep tx st)) as (H1 & H2 & H3 & H4).
  now rewrite H1, H2, H3, H4.
Qed.

(** ** The daily loop *)

Variable endDate : option UTCDate.

Lemma dailyLoop_add (a b : nat) (st : LoopState) :
  dailyLoop (a + b) sortedTxs endDate st
  = dailyLoop b sortedTxs endDate (dailyLoop a sortedTxs endDate st).
Proof.
  revert st; induction a as [|a IH]; intros st; simpl; [reflexivity|].
  destruct (nextSimDay endDate st) as [c|] eqn:E.
  - apply IH.
  - destruct b; simpl; [reflexivity | now rewrite E].
Qed.

(** The state after day [n + 1] is one round from the state after day [n]. *)
Lemma dailyLoop_snoc (n : nat) (st : LoopState) :
  dailyLoop (S n) sortedTxs endDate st =
  match nextSimDay endDate (dailyLoop n sortedTxs endDate st) with
  | Some c => dayBody sortedTxs c (dailyLoop n sortedTxs endDate st)
  | None => dailyLoop n sortedTxs endDate st
  end.
Proof.
  replace (S n) with (n + 1)%nat by lia.
  rewrite dailyLoop_add. simpl.
  now destruct (nextSimDay endDate (dailyLoop n sortedTxs endDate st)).
Qed.

Lemma dailyLoop_ind (P : LoopState -> Prop) :
  (forall st c, P st -> nextSimDay endDate st = Some c ->
                P (dayBody sortedTxs c st)) ->
  forall n st, P st -> P (dailyLoop n sortedTxs endDate st).
Proof.
  intros Hstep n; induction n as [|n IH]; intros st H; simpl; [exact H|].
  destruct (nextSimDay endDate st) as [c|] eqn:E; [|exact H].
  apply IH. now apply Hstep.
Qed.

Lemma nextSimDay_Some (st : LoopState) (c : UTCDate) :
  nextSimDay endDate st = Some c ->
  iterDate st = Some c /\ dateLeb (Some c) endDate = true.
Proof.
  unfold nextSimDay. destruct (iterDate st) as [c'|]; [|discriminate].
  destruct (dateLeb (Some c') endDate) eqn:E; [|discriminate].
  intros [= <-]. now split.
Qed.

End Loops.

(** * The calendar walk *)

Lemma nextDay_inYear (yr : Z) (c : UTCDate) :
  inYear yr c ->
  (inYear yr (nextDay c) /\ dayOfYear (nextDay c) = S (dayOfYear c)) \/
  (nextDay c = mkDate (yr + 1) 0 1 /\ dayOfYear c = daysInYear yr).
Proof.
  destruct c as [y m d]. unfold inYear, nextDay, dayOfYear, daysInYear; simpl.
  intros (-> & Hm & Hd).
  destruct (isLeap yr) eqn:EL;
    do 12 (destruct m as [|m];
           [ simpl in *; rewrite ?EL in *;
             match goal with
             | |- context [(d <? ?k)%nat] => destruct (Nat.ltb_spec d k)
             end; simpl; rewrite ?EL;
             first [ left; repeat split; simpl; rewrite ?EL; lia
                   | right; split; [reflexivity | lia] ] | ]);
    lia.
Qed.

Lemma dayOfYear_bound (yr : Z) (c : UTCDate) :
  inYear yr c -> (1 <= dayOfYear c <= daysInYear yr)%nat.
Proof.
  destruct c as [y m d]. unfold inYear, dayOfYear, daysInYear; simpl.
  intros (-> & Hm & Hd).
  do 12 (destruct m as [|m]; [simpl in *; destruct (isLeap yr); lia|]).
  lia.
Qed.

Lemma dateCivilLeb_inYear (yr : Z) (c : UTCDate) :
  inYear yr c -> dateCivilLeb c (mkDate yr 11 31) = true.
Proof.
  destruct c as [y m d]. unfold inYear, dateCivilLeb; simpl.
  intros (-> & Hm & Hd).
  rewrite Z.ltb_irrefl.
  destruct (Nat.ltb_spec m 11); [reflexivity|].
  assert (m = 11%nat) as -> by lia. simpl in *.
  apply Nat.leb_le. lia.
Qed.

Lemma dateCivilLeb_nextYear (yr : Z) :
  dateCivilLeb (mkDate (yr + 1) 0 1) (mkDate yr 11 31) = false.
Proof.
  unfold dateCivilLeb; simpl.
  destruct (Z.ltb_spec (yr + 1) yr); [lia|].
  destruct (Z.ltb_spec yr (yr + 1)); [reflexivity | lia].
Qed.

Lemma Date_UTC_Some (year : Z) (m d : nat) (c : UTCDate) :
  Date_UTC year m d = Some c -> c = mkDate (simYear year) m d.
Proof.
  unfold Date_UTC, simYear.
  destruct (Z.abs _ <=? 100000000); [|discriminate]. now intros [= <-].
Qed.

Section Walk.

Variable sortedTxs : list Tx.
Variable yr : Z.

Lemma nextSimDay_inYear (st : LoopState) (c : UTCDate) :
  cursorOk yr st -> nextSimDay (Some (mkDate yr 11 31)) st = Some c -> inYear yr c.
Proof.
  intros Hok H. apply nextSimDay_Some in H as [Hc Hle].
  unfold cursorOk in Hok. rewrite Hc in Hok. destruct Hok as [?| ->]; [assumption|].
  simpl in Hle. now rewrite dateCivilLeb_nextYear in Hle.
Qed.

Lemma dayBody_cursorOk (st : LoopState) (c : UTCDate) :
  inYear yr c -> cursorOk yr (dayBody sortedTxs c st).
Proof.
  intros H. unfold cursorOk, dayBody; simpl.
  destruct (nextDay_inYear yr c H) as [[? _]|[? _]]; [now left | now right].
Qed.

Lemma dailyLoop_cursorOk (n : nat) (st : LoopState) :
  cursorOk yr st -> cursorOk yr (dailyLoop n sortedTxs (Some (mkDate yr 11 31)) st).
Proof.
  apply dailyLoop_ind. intros st' c Hok Hc.
  apply dayBody_cursorOk. eapply nextSimDay_inYear; eassumption.
Qed.

(** Once the days left in the year are fewer than the fuel, the loop has
    left through its guard. *)
Lemma dailyLoop_exit (fuel : nat) (st : LoopState) :
  cursorOk yr st ->
  (forall c, iterDate st = Some c -> inYear yr c ->
             (daysInYear yr < dayOfYear c + fuel)%nat) ->
  nextSimDay (Some (mkDate yr 11 31))
    (dailyLoop fuel sortedTxs (Some (mkDate yr 11 31)) st) = None.
Proof.
  revert st; induction fuel as [|fuel IH]; intros st Hok Hfuel; simpl.
  - destruct (nextSimDay _ st) as [c|] eqn:E; [|reflexivity].
    pose proof (nextSimDay_inYear st c Hok E) as Hin.
    apply nextSimDay_Some in E as [Hc _].
    pose proof (Hfuel c Hc Hin). pose proof (dayOfYear_bound yr c Hin). lia.
  - destruct (nextSimDay _ st) as [c|] eqn:E; [|exact E].
    pose proof (nextSimDay_inYear st c Hok E) as Hin.
    apply nextSimDay_Some in E as [Hc _].
    apply IH; [now apply dayBody_cursorOk|].
    unfold dayBody; simpl. intros c' [= <-] Hin'.
    destruct (nextDay_inYear yr c Hin) as [[_ Hs]|[Hn _]].
    + rewrite Hs. pose proof (Hfuel c Hc Hin). lia.
    + rewrite Hn in Hin'. destruct Hin' as [Hy _]. simpl in Hy. lia.
Qed.

End Walk.

(** 366 rounds are enough for any year: the daily loop of [simulate] has
    stopped at its guard, and more fuel gives the same state. *)
Lemma simulate_fuel_enough (year : Z) (startRoom : float) (sortedTxs : list Tx)
    (k : nat) :
  nextSimDay (Date_UTC year 11 31) (simulate year startRoom sortedTxs) = None /\
  stateAfterDays (366 + k) year startRoom sortedTxs
  = simulate year startRoom sortedTxs.
Proof.
  assert (E : nextSimDay (Date_UTC year 11 31) (simulate year startRoom sortedTxs)
              = None).
  { unfold simulate, stateAfterDays.
    destruct (Date_UTC year 11 31) as [e|] eqn:He.
    - apply Date_UTC_Some in He as ->.
      apply dailyLoop_exit.
      + unfold cursorOk, initState; simpl.
        destruct (Date_UTC year 0 1) as [s|] eqn:Hs; [|exact I].
        apply Date_UTC_Some in Hs as ->. left.
        unfold inYear; simpl. repeat split; lia.
      + intros c _ Hin. pose proof (dayOfYear_bound _ _ Hin) as Hb.
        revert Hb. unfold daysInYear. destruct (isLeap _); lia.
    - generalize (dailyLoop 366 sortedTxs None
                    (initState startRoom (Date_UTC year 0 1))).
      intros st. unfold nextSimDay. destruct (iterDate st); reflexivity. }
  split; [exact E|].
  unfold stateAfterDays. rewrite dailyLoop_add.
  change (dailyLoop 366 sortedTxs (Date_UTC year 11 31)
            (initState startRoom (Date_UTC year 0 1)))
    with (simulate year startRoom sortedTxs).
  destruct k; simpl; [reflexivity | now rewrite E].
Qed.

(** * Lexical order on date strings *)

Module StringOrder.

Lemma compare_refl (s : string) : String.compare s s = Eq.
Proof.
  induction s as [|a s IH]; simpl; [reflexivity|].
  unfold Ascii.compare. now rewrite N.compare_refl.
Qed.

Lemma compare_lt_trans (a b c : string) :
  String.compare a b = Lt -> String.compare b c = Lt -> String.compare a c = Lt.
Proof.
  revert b c; induction a as [|x a IH]; intros [|y b] [|z c]; simpl;
    try discriminate; try reflexivity.
  unfold Ascii.compare.
  destruct (N.compare_spec (N_of_ascii x) (N_of_ascii y)) as [Exy|Lxy|Gxy];
    destruct (N.compare_spec (N_of_ascii y) (N_of_ascii z)) as [Eyz|Lyz|Gyz];
    try discriminate; intros H1 H2.
  - rewrite Exy, Eyz, N.compare_refl. now apply IH with b.
  - rewrite Exy. now apply N.compare_lt_iff in Lyz as ->.
  - rewrite <- Eyz. now apply N.compare_lt_iff in Lxy as ->.
  - assert (L : (N_of_ascii x < N_of_ascii z)%N) by lia.
    now apply N.compare_lt_iff in L as ->.
Qed.

Lemma string_leb_refl (s : string) : String.leb s s = true.
Proof. unfold String.leb. now rewrite compare_refl. Qed.

Lemma string_leb_trans (a b c : string) :
  String.leb a b = true -> String.leb b c = true -> String.leb a c = true.
Proof.
  unfold String.leb.
  destruct (String.compare a b) eqn:Eab; try discriminate;
    destruct (String.compare b c) eqn:Ebc; try discriminate; intros _ _.
  - apply String.compare_eq_iff in Eab as ->. now rewrite Ebc.
  - apply String.compare_eq_iff in Eab as ->. now rewrite Ebc.
  - apply String.compare_eq_iff in Ebc as <-. now rewrite Eab.
  - now rewrite (compare_lt_trans a b c).
Qed.

Lemma ltb_leb (a b : string) : String.ltb a b = true -> String.leb a b = true.
Proof. unfold String.ltb, String.leb. now destruct (String.compare a b). Qed.

Lemma ltb_false_leb (a b : string) :
  String.ltb a b = false -> String.leb b a = true.
Proof.
  unfold String.ltb, String.leb. rewrite (String.compare_antisym b a).
  now destruct (String.compare a b).
Qed.

(** A string strictly below [a] differs from every string from [a] up. *)
Lemma ltb_leb_neq (s a b : string) :
  String.ltb s a = true -> String.leb a b = true -> s <> b.
Proof.
  unfold String.ltb, String.leb. intros H1 H2 ->.
  rewrite (String.compare_antisym a b) in H2.
  now destruct (String.compare b a).
Qed.

Lemma compare_app (p a b : string) :
  String.compare (p ++ a) (p ++ b) = String.compare a b.
Proof.
  induction p as [|x p IH]; simpl; [reflexivity|].
  unfold Ascii.compare. now rewrite N.compare_refl.
Qed.

End StringOrder.

(** * The sorted ledger *)

Lemma compareTx_le (a b : Tx) : compareTx a b <= 0 <-> dateLe a b.
Proof.
  unfold compareTx, compareDates, dateLe.
  destruct (String.ltb (date a) (date b)) eqn:E1.
  - split; [intros _; now apply StringOrder.ltb_leb | lia].
  - destruct (String.ltb (date b) (date a)) eqn:E2.
    + split; [lia|]. intros H. exfalso.
      unfold String.ltb, String.leb in *.
      rewrite (String.compare_antisym (date a) (date b)) in H.
      now destruct (String.compare (date b) (date a)).
    + split; [intros _; now apply StringOrder.ltb_false_leb | lia].
Qed.

Lemma compareTx_gt (a b : Tx) :
  ~ compareTx a b <= 0 -> String.ltb (date b) (date a) = true.
Proof.
  unfold compareTx, compareDates.
  destruct (String.ltb (date a) (date b)); [lia|].
  destruct (String.ltb (date b) (date a)); [reflexivity | lia].
Qed.

Lemma insertBy_perm (a : Tx) (l : list Tx) :
  Permutation (insertBy compareTx a l) (a :: l).
Proof.
  induction l as [|b l IH]; simpl; [reflexivity|].
  destruct (compareTx a b <=? 0); [reflexivity|].
  rewrite IH. apply perm_swap.
Qed.

Lemma sortTxs_perm (txs : list Tx) : Permutation (sortTxs txs) txs.
Proof.
  induction txs as [|a txs IH]; simpl; [reflexivity|].
  rewrite insertBy_perm. now constructor.
Qed.

Lemma insertBy_sorted (a : Tx) (l : list Tx) :
  StronglySorted dateLe l -> StronglySorted dateLe (insertBy compareTx a l).
Proof.
  induction 1 as [|b l Hs IH Hb]; simpl.
  - repeat constructor.
  - destruct (Z.leb_spec (compareTx a b) 0) as [Hle|Hgt].
    + apply compareTx_le in Hle.
      constructor; [now constructor|].
      constructor; [exact Hle|].
      eapply Forall_impl; [exact Hb|].
      intros c Hc. unfold dateLe in *. eapply StringOrder.string_leb_trans; eassumption.
    + constructor; [exact IH|].
      rewrite insertBy_perm. constructor; [|exact Hb].
      apply StringOrder.ltb_leb, compareTx_gt. lia.
Qed.

Lemma sortTxs_sorted (txs : list Tx) : StronglySorted dateLe (sortTxs txs).
Proof.
  induction txs as [|a txs IH]; simpl; [constructor | now apply insertBy_sorted].
Qed.

Lemma insertBy_onDate (d : string) (a : Tx) (l : list Tx) :
  onDate d (insertBy compareTx a l) = onDate d (a :: l).
Proof.
  induction l as [|b l IH]; simpl; [reflexivity|].
  destruct (Z.leb_spec (compareTx a b) 0) as [Hle|Hgt]; [reflexivity|].
  change (onDate d (b :: insertBy compareTx a l)) with
    (if String.eqb (date b) d then b :: onDate d (insertBy compareTx a l)
     else onDate d (insertBy compareTx a l)).
  rewrite IH. simpl.
  destruct (String.eqb_spec (date b) d) as [Hb|]; [|reflexivity].
  destruct (String.eqb_spec (date a) d) as [Ha|]; [|reflexivity].
  exfalso. assert (Hlt : String.ltb (date b) (date a) = true)
    by (apply compareTx_gt; lia).
  rewrite Ha, Hb in Hlt. unfold String.ltb in Hlt.
  now rewrite StringOrder.compare_refl in Hlt.
Qed.

(** The sort is stable: entries sharing a date keep their relative order. *)
Lemma sortTxs_stable (d : string) (txs : list Tx) :
  onDate d (sortTxs txs) = onDate d txs.
Proof.
  induction txs as [|a txs IH]; simpl; [reflexivity|].
  rewrite insertBy_onDate. simpl. now rewrite IH.
Qed.

(** A list already in ascending order is left as it is. *)
Lemma sortTxs_id (l : list Tx) : StronglySorted dateLe l -> sortTxs l = l.
Proof.
  induction 1 as [|a l Hs IH Ha]; simpl; [reflexivity|].
  rewrite IH. destruct l as [|b l]; simpl; [reflexivity|].
  apply Forall_cons in Ha as [Hab _]. apply compareTx_le in Hab.
  now destruct (Z.leb_spec (compareTx a b) 0); [|lia].
Qed.

Lemma sorted_app_l (l1 l2 : list Tx) :
  StronglySorted dateLe (l1 ++ l2) -> StronglySorted dateLe l1.
Proof.
  induction l1 as [|a l1 IH]; simpl; [constructor|].
  intros H. apply StronglySorted_inv in H as [Hs Ha].
  constructor; [now apply IH|].
  apply Forall_app in Ha. tauto.
Qed.

(** * The transactions a run applies *)

Lemma applyAll_snoc (txs : list Tx) (tx : Tx) (l : Ledger) :
  applyAll (txs ++ [tx]) l = applyTx tx (applyAll txs l).
Proof. unfold applyAll. now rewrite fold_left_app. Qed.

Section Applied.

Variable sortedTxs : list Tx.
Variable l0 : Ledger.

Lemma prefixInv_txStep (d : string) (st : LoopState) (tx : Tx) :
  prefixInv sortedTxs l0 st -> nextTx sortedTxs d st = Some tx -> prefixInv sortedTxs l0 (txStep tx st).
Proof.
  intros [Hle Hl] H. apply nextTx_Some in H as [Hlk _].
  split; simpl.
  - apply lookup_lt_Some in Hlk. lia.
  - rewrite (take_S_r _ _ _ Hlk), applyAll_snoc. now rewrite Hl.
Qed.

Lemma prefixInv_txLoop (fuel : nat) (d : string) (st : LoopState) :
  prefixInv sortedTxs l0 st -> prefixInv sortedTxs l0 (txLoop fuel sortedTxs d st).
Proof.
  apply txLoop_ind. intros st' tx. apply prefixInv_txStep.
Qed.

Lemma prefixInv_dayBody (c : UTCDate) (st : LoopState) :
  prefixInv sortedTxs l0 st -> prefixInv sortedTxs l0 (dayBody sortedTxs c st).
Proof.
  intros H. apply (prefixInv_txLoop (length sortedTxs) (formatDate c)) in H.
  exact H.
Qed.

Lemma prefixInv_dailyLoop (endDate : option UTCDate) (n : nat) (st : LoopState) :
  prefixInv sortedTxs l0 st -> prefixInv sortedTxs l0 (dailyLoop n sortedTxs endDate st).
Proof.
  apply dailyLoop_ind. intros st' c H _. now apply prefixInv_dayBody.
Qed.

Lemma appliedInYear_txLoop (yr : Z) (c : UTCDate) (fuel : nat) (st : LoopState) :
  inYear yr c -> appliedInYear sortedTxs yr st ->
  appliedInYear sortedTxs yr (txLoop fuel sortedTxs (formatDate c) st).
Proof.
  intros Hc. apply txLoop_ind. intros st' tx H Hn.
  apply nextTx_Some in Hn as [Hlk Hd].
  unfold appliedInYear in *; simpl.
  rewrite (take_S_r _ _ _ Hlk). apply Forall_app; split; [exact H|].
  constructor; [|constructor]. now exists c.
Qed.

Lemma appliedInYear_dailyLoop (yr : Z) (n : nat) (st : LoopState) :
  cursorOk yr st -> appliedInYear sortedTxs yr st ->
  appliedInYear sortedTxs yr (dailyLoop n sortedTxs (Some (mkDate yr 11 31)) st).
Proof.
  intros Hok Happ.
  enough (H : cursorOk yr (dailyLoop n sortedTxs (Some (mkDate yr 11 31)) st)
              /\ appliedInYear sortedTxs yr
                   (dailyLoop n sortedTxs (Some (mkDate yr 11 31)) st))
    by apply H.
  apply dailyLoop_ind; [|now split].
  intros st' c [Hok' Happ'] Hc.
  pose proof (nextSimDay_inYear yr st' c Hok' Hc) as Hin.
  split; [now apply dayBody_cursorOk|].
  exact (appliedInYear_txLoop yr c (length sortedTxs) st' Hin Happ').
Qed.

End Applied.

Lemma initState_prefixInv (sortedTxs : list Tx) (startRoom : float)
    (d : option UTCDate) :
  prefixInv sortedTxs (initLedger startRoom) (initState startRoom d).
Proof. split; simpl; [lia | reflexivity]. Qed.

Lemma initState_cursorOk (year : Z) (startRoom : float) :
  cursorOk (simYear year) (initState startRoom (Date_UTC year 0 1)).
Proof.
  unfold cursorOk, initState; simpl.
  destruct (Date_UTC year 0 1) as [s|] eqn:Hs; [|exact I].
  apply Date_UTC_Some in Hs as ->. left.
  unfold inYear; simpl. repeat split; lia.
Qed.

(** A daily loop whose end date is the Invalid Date never runs. *)
Lemma dailyLoop_invalid_end (n : nat) (sortedTxs : list Tx) (st : LoopState) :
  dailyLoop n sortedTxs None st = st.
Proof.
  destruct n; simpl; [reflexivity|].
  unfold nextSimDay. now destruct (iterDate st).
Qed.

(** ** A date string below January 1 blocks the pointer *)

Section Blocked.

Variables (pre post : list Tx) (blocker : Tx).

Lemma nextTx_blocked (d : string) (st : LoopState) :
  (txIndex st <= length pre)%nat -> date blocker <> d ->
  nextTx (pre ++ blocker :: post) d st = nextTx pre d st.
Proof.
  intros Hle Hd. unfold nextTx.
  destruct (Nat.eq_dec (txIndex st) (length pre)) as [E|N].
  - rewrite E, list_lookup_middle by reflexivity.
    rewrite lookup_ge_None_2 by lia.
    now destruct (String.eqb_spec (date blocker) d).
  - now rewrite lookup_app_l by lia.
Qed.

Lemma txIndex_txLoop_le (fuel : nat) (d : string) (st : LoopState) :
  (txIndex st <= length pre)%nat ->
  (txIndex (txLoop fuel pre d st) <= length pre)%nat.
Proof.
  apply (txLoop_ind pre d (fun s => (txIndex s <= length pre)%nat)).
  intros st' tx _ Hn. apply nextTx_Some in Hn as [Hlk _].
  apply lookup_lt_Some in Hlk. simpl. lia.
Qed.

Lemma txLoop_blocked (fuel : nat) (d : string) (st : LoopState) :
  (txIndex st <= length pre)%nat -> date blocker <> d ->
  txLoop fuel (pre ++ blocker :: post) d st = txLoop fuel pre d st.
Proof.
  revert st; induction fuel as [|fuel IH]; intros st Hle Hd; simpl;
    [reflexivity|].
  rewrite nextTx_blocked by assumption.
  destruct (nextTx pre d st) as [tx|] eqn:E; [|reflexivity].
  apply IH; [|exact Hd].
  apply nextTx_Some in E as [Hlk _]. apply lookup_lt_Some in Hlk. simpl. lia.
Qed.

Lemma dayBody_blocked (c : UTCDate) (st : LoopState) :
  (txIndex st <= length pre)%nat -> date blocker <> formatDate c ->
  dayBody (pre ++ blocker :: post) c st = dayBody pre c st.
Proof.
  intros Hle Hd. unfold dayBody.
  rewrite txLoop_blocked by assumption.
  rewrite length_app.
  now rewrite (proj2 (txLoop_fuel_enough pre _ (formatDate c) st)).
Qed.

Lemma dailyLoop_blocked (yr : Z) (n : nat) (st : LoopState) :
  (forall c, inYear yr c -> date blocker <> formatDate c) ->
  cursorOk yr st -> (txIndex st <= length pre)%nat ->
  dailyLoop n (pre ++ blocker :: post) (Some (mkDate yr 11 31)) st
  = dailyLoop n pre (Some (mkDate yr 11 31)) st.
Proof.
  intros Hb. revert st; induction n as [|n IH]; intros st Hok Hle; simpl;
    [reflexivity|].
  destruct (nextSimDay _ st) as [c|] eqn:E; [|reflexivity].
  pose proof (nextSimDay_inYear yr st c Hok E) as Hin.
  rewrite dayBody_blocked by auto.
  apply IH; [now apply dayBody_cursorOk|].
  unfold dayBody; simpl. now apply txIndex_txLoop_le.
Qed.

End Blocked.

(** * The date strings of a year *)

Lemma daysInMonth_le_31 (yr : Z) (m : nat) : (daysInMonth yr m <= 31)%nat.
Proof.
  unfold daysInMonth.
  do 12 (destruct m as [|m]; [try destruct (isLeap yr); lia|]). lia.
Qed.

(** Every day of a year formats to a string between those of January 1 and
    December 31, in the lexical order. *)
Lemma formatDate_bounds (yr : Z) (c : UTCDate) :
  inYear yr c ->
  String.leb (formatDate (mkDate yr 0 1)) (formatDate c) = true /\
  String.leb (formatDate c) (formatDate (mkDate yr 11 31)) = true.
Proof.
  destruct c as [y m d]. intros (Hy & Hm & Hd). simpl in Hy, Hm, Hd. subst y.
  pose proof (daysInMonth_le_31 yr m) as H31.
  assert (Hd' : (1 <= d <= 31)%nat) by lia. clear Hd H31.
  unfold formatDate, String.leb. cbn [utcFullYear utcMonth utcDate].
  rewrite !StringOrder.compare_app.
  destruct d as [|d]; [lia|].
  do 12 (destruct m as [|m];
         [do 31 (destruct d as [|d]; [vm_compute; split; reflexivity|]); lia|]).
  lia.
Qed.

(** * The ledger under admissible amounts *)

Section LedgerFacts.

Import FloatOrder FloatFacts.

Lemma initLedger_ok (startRoom : float) :
  JS.isNaN startRoom = false -> ledgerOk (initLedger startRoom).
Proof.
  unfold JS.isNaN. rewrite is_nan_notnan. intros N.
  apply negb_false_iff in N.
  unfold initLedger, ledgerOk, JS.lt, JS.ge.
  destruct (PrimFloat.ltb startRoom 0) eqn:E; simpl.
  - split; [now apply abs_plus | reflexivity].
  - split; [exact plus_zero|].
    apply leb_iff. repeat split; auto.
    now apply ltb_false_iff in E.
Qed.

Lemma initLedger_sane (startRoom : float) : ledgerSane (initLedger startRoom).
Proof.
  unfold initLedger, ledgerSane, JS.lt, JS.ge.
  destruct (PrimFloat.ltb startRoom 0) eqn:E; simpl.
  - apply ltb_iff in E as (N & _ & _).
    split; [left; now apply abs_plus | now left].
  - split; [left; exact plus_zero|].
    destruct (notnan startRoom) eqn:N; [left | now right].
    apply leb_iff. repeat split; auto.
    now apply ltb_false_iff in E.
Qed.

(** One transaction with a finite positive amount keeps the figures at or
    above zero and never raises the room. *)
Lemma applyTx_ok (tx : Tx) (l : Ledger) :
  finitePositiveAmount tx -> ledgerOk l ->
  ledgerOk (applyTx tx l) /\
  JS.le (unusedRoom (applyTx tx l)) (unusedRoom l) = true.
Proof.
  unfold finitePositiveAmount, ledgerOk, JS.gt, JS.lt, JS.ge, JS.le.
  intros [Hpos Hfin] [He Hu].
  assert (Nu : notnan (unusedRoom l) = true) by (now apply leb_iff in Hu).
  unfold applyTx, JS.gt, JS.ge.
  destruct (String.eqb (type tx) "CONTRIBUTION").
  - destruct (PrimFloat.leb (amount tx) (unusedRoom l)) eqn:G; simpl.
    + destruct (sub_ge _ _ Hpos Hfin G) as [P L].
      repeat split; auto using plus_nonneg.
    + repeat split; auto.
      apply add_plus; [exact He | now apply sub_spill].
  - destruct (String.eqb (type tx) "WITHDRAWAL").
    + destruct (PrimFloat.ltb 0 (excess l)) eqn:G0;
        [destruct (PrimFloat.leb (amount tx) (excess l)) eqn:G|]; simpl;
        repeat split; auto using leb_refl, plus_zero.
      now destruct (sub_ge _ _ Hpos Hfin G).
    + repeat split; auto using leb_refl.
Qed.

(** One transaction with a positive amount, [Infinity] allowed, keeps the
    figures away from the negative numbers. *)
Lemma applyTx_sane (tx : Tx) (l : Ledger) :
  positiveAmount tx -> ledgerSane l -> ledgerSane (applyTx tx l).
Proof.
  unfold positiveAmount, ledgerSane, JS.gt, JS.ge.
  intros Hpos [He Hu].
  unfold applyTx, JS.gt, JS.ge.
  destruct (String.eqb (type tx) "CONTRIBUTION").
  - destruct (PrimFloat.leb (amount tx) (unusedRoom l)) eqn:G; simpl.
    + split; [exact He|].
      destruct (sub_ge_or_nan _ _ Hpos G) as [P|N];
        [left; now apply plus_nonneg | now right].
    + split; [|now left].
      destruct Hu as [Hu|Nu].
      * pose proof (sub_spill _ _ Hu Hpos G) as P.
        destruct He as [He|Ne]; [left; now apply add_plus|].
        right. now apply notnan_add_l.
      * right. apply notnan_add_r. now apply notnan_sub_r.
  - destruct (String.eqb (type tx) "WITHDRAWAL").
    + destruct (PrimFloat.ltb 0 (excess l)) eqn:G0;
        [destruct (PrimFloat.leb (amount tx) (excess l)) eqn:G|]; simpl;
        split; auto.
      * destruct (sub_ge_or_nan _ _ Hpos G); auto.
      * left. exact plus_zero.
    + now split.
Qed.

(** ** The effect of one transaction, in the words of the specification *)

Lemma applyTx_contribution (tx : Tx) (l : Ledger) :
  type tx = "CONTRIBUTION"%string ->
  contributionEffect (amount tx) l (applyTx tx l).
Proof.
  intros Ht. unfold contributionEffect, applyTx. rewrite Ht. simpl.
  destruct (JS.ge (unusedRoom l) (amount tx)); simpl; repeat split.
Qed.

(** [Math.min(e, a)] for a positive [a] and an excess that is never below
    [+0]: NaN when the excess is NaN, else the smaller of the two. *)
Lemma Math_min_excess (e a : float) :
  plus e \/ notnan e = false -> PrimFloat.ltb 0 a = true ->
  JS.Math_min [e; a]
  = if notnan e then (if PrimFloat.ltb a e then a else e) else nan.
Proof.
  intros He Ha. unfold JS.Math_min. cbn [fold_left].
  pose proof (proj1 (ltb_iff _ _) Ha) as (_ & Na & Hva). rewrite fval_zero in Hva.
  assert (H1 : JS.min_step infinity e = if notnan e then e else nan).
  { unfold JS.min_step.
    change (PrimFloat.is_nan infinity) with false. cbv iota.
    rewrite is_nan_notnan.
    destruct (notnan e) eqn:N; simpl; [|reflexivity].
    change (JS.is_pos_zero infinity) with false. rewrite andb_false_r.
    destruct (PrimFloat.ltb e infinity) eqn:L; [reflexivity|].
    apply ltb_false_iff in L; auto. rewrite fval_infinity in L.
    symmetry. now apply fval_top. }
  rewrite H1. destruct (notnan e) eqn:N; [|reflexivity].
  unfold JS.min_step. rewrite !is_nan_notnan, N, Na. simpl.
  assert (Z : PrimFloat.is_zero a = false).
  { unfold PrimFloat.is_zero. destruct (PrimFloat.eqb a zero) eqn:E; [|reflexivity].
    apply eqb_iff in E as (_ & _ & E). change (fval zero) with 0 in E. lia. }
  unfold JS.is_neg_zero. rewrite Z. reflexivity.
Qed.

Lemma applyTx_withdrawal (tx : Tx) (l : Ledger) :
  type tx = "WITHDRAWAL"%string -> positiveAmount tx -> ledgerSane l ->
  withdrawalEffect (amount tx) l (applyTx tx l).
Proof.
  intros Ht Hpos [He _]. unfold positiveAmount, JS.gt in Hpos.
  pose proof (proj1 (ltb_iff _ _) Hpos) as (_ & Na & Hva). rewrite fval_zero in Hva.
  unfold withdrawalEffect. rewrite (Math_min_excess _ _ He Hpos).
  unfold applyTx, JS.gt, JS.ge. rewrite Ht. simpl.
  destruct (notnan (excess l)) eqn:N.
  - destruct He as [P|]; [|congruence].
    destruct (PrimFloat.ltb 0 (excess l)) eqn:G0.
    + destruct (PrimFloat.leb (amount tx) (excess l)) eqn:G; simpl.
      * repeat split.
        destruct (PrimFloat.ltb (amount tx) (excess l)) eqn:L; [reflexivity|].
        apply leb_iff in G as (_ & _ & G). apply ltb_false_iff in L; auto.
        now rewrite (fval_inj_pos (amount tx) (excess l)) by (auto; lia).
      * repeat split.
        apply leb_false_iff in G; auto.
        assert (L : PrimFloat.ltb (amount tx) (excess l) = false)
          by (apply ltb_false_iff; auto; lia).
        rewrite L. symmetry. apply sub_self; [exact P|].
        apply ltb_iff. rewrite fval_infinity. repeat split; auto.
        pose proof (fval_le_top (amount tx)). lia.
    + simpl. repeat split.
      apply ltb_false_iff in G0; auto using notnan_zero. rewrite fval_zero in G0.
      assert (E0 : excess l = 0%float)
        by (apply plus_fval_zero; auto; pose proof (plus_fval _ P); lia).
      rewrite E0.
      assert (L : PrimFloat.ltb (amount tx) 0 = false)
        by (apply ltb_false_iff; auto using notnan_zero; rewrite fval_zero; lia).
      rewrite L. reflexivity.
  - rewrite (nan_eq _ N). simpl. repeat split.
Qed.

End LedgerFacts.

(** * Properties of the ledger that every step of a run keeps *)

Lemma lookup_In {A : Type} (l : list A) (i : nat) (x : A) :
  l !! i = Some x -> In x l.
Proof.
  intros H. apply list_elem_of_In. eapply list_elem_of_lookup_2, H.
Qed.

Section LedgerInvariant.

Variable sortedTxs : list Tx.
Variable P : Ledger -> Prop.
Hypothesis P_step : forall tx l, In tx sortedTxs -> P l -> P (applyTx tx l).

Lemma ledger_inv_txLoop (fuel : nat) (d : string) (st : LoopState) :
  P (ledger st) -> P (ledger (txLoop fuel sortedTxs d st)).
Proof.
  apply (txLoop_ind sortedTxs d (fun s => P (ledger s))).
  intros st' tx H Hn. apply nextTx_Some in Hn as [Hlk _].
  simpl. apply P_step; [eapply lookup_In, Hlk | exact H].
Qed.

Lemma ledger_inv_dayBody (c : UTCDate) (st : LoopState) :
  P (ledger st) -> P (ledger (dayBody sortedTxs c st)).
Proof. intros H. unfold dayBody; simpl. now apply ledger_inv_txLoop. Qed.

Lemma ledger_inv_dailyLoop (endDate : option UTCDate) (n : nat) (st : LoopState) :
  P (ledger st) -> P (ledger (dailyLoop n sortedTxs endDate st)).
Proof.
  apply (dailyLoop_ind sortedTxs endDate (fun s => P (ledger s))).
  intros st' c H _. now apply ledger_inv_dayBody.
Qed.

End LedgerInvariant.

Lemma Forall_sortTxs (Q : Tx -> Prop) (txs : list Tx) :
  List.Forall Q txs -> List.Forall Q (sortTxs txs).
Proof.
  intros H. eapply Permutation_Forall; [|exact H].
  symmetry. apply sortTxs_perm.
Qed.

Section OkRun.

Import FloatOrder FloatFacts.

Variable sortedTxs : list Tx.
Hypothesis amounts_ok : List.Forall finitePositiveAmount sortedTxs.

(** The figures stay at or above zero, and the room at or below [u0]. *)
Lemma okBelow_step (u0 : float) (tx : Tx) (l : Ledger) :
  In tx sortedTxs ->
  ledgerOk l /\ JS.le (unusedRoom l) u0 = true ->
  ledgerOk (applyTx tx l) /\ JS.le (unusedRoom (applyTx tx l)) u0 = true.
Proof.
  intros Hin [Hok Hle].
  pose proof (proj1 (List.Forall_forall _ _) amounts_ok tx Hin) as Ha.
  destruct (applyTx_ok tx l Ha Hok) as [Hok' Hle'].
  split; [exact Hok'|]. unfold JS.le in *. eapply leb_trans; eassumption.
Qed.

Lemma ledgerOk_room_refl (l : Ledger) :
  ledgerOk l -> JS.le (unusedRoom l) (unusedRoom l) = true.
Proof.
  intros [_ H]. unfold JS.ge, JS.le in *. apply leb_refl.
  now apply leb_iff in H.
Qed.

Lemma dayBody_ok (c : UTCDate) (st : LoopState) :
  ledgerOk (ledger st) ->
  ledgerOk (ledger (dayBody sortedTxs c st)) /\
  JS.le (unusedRoom (ledger (dayBody sortedTxs c st)))
        (unusedRoom (ledger st)) = true.
Proof.
  intros H.
  apply (ledger_inv_dayBody sortedTxs
           (fun l => ledgerOk l /\ JS.le (unusedRoom l) (unusedRoom (ledger st)) = true)
           (okBelow_step (unusedRoom (ledger st)))).
  split; [exact H | now apply ledgerOk_room_refl].
Qed.

Lemma dailyLoop_ok (endDate : option UTCDate) (n : nat) (st : LoopState) :
  ledgerOk (ledger st) -> ledgerOk (ledger (dailyLoop n sortedTxs endDate st)).
Proof.
  apply (ledger_inv_dailyLoop sortedTxs ledgerOk).
  intros tx l Hin Hok.
  pose proof (proj1 (List.Forall_forall _ _) amounts_ok tx Hin) as Ha.
  now destruct (applyTx_ok tx l Ha Hok).
Qed.

(** From one day to the next the room never grows. *)
Lemma dailyLoop_room_mono (endDate : option UTCDate) (n : nat) (st : LoopState) :
  ledgerOk (ledger st) ->
  JS.le (unusedRoom (ledger (dailyLoop (S n) sortedTxs endDate st)))
        (unusedRoom (ledger (dailyLoop n sortedTxs endDate st))) = true.
Proof.
  intros H. pose proof (dailyLoop_ok endDate n st H) as Hn.
  rewrite dailyLoop_snoc.
  destruct (nextSimDay endDate _) as [c|].
  - now apply dayBody_ok.
  - now apply ledgerOk_room_refl.
Qed.

End OkRun.

Section SaneRun.

Variable sortedTxs : list Tx.
Hypothesis amounts_pos : List.Forall positiveAmount sortedTxs.

Lemma sane_step (tx : Tx) (l : Ledger) :
  In tx sortedTxs -> ledgerSane l -> ledgerSane (applyTx tx l).
Proof.
  intros Hin. apply applyTx_sane.
  exact (proj1 (List.Forall_forall _ _) amounts_pos tx Hin).
Qed.

Lemma txLoop_sane (fuel : nat) (d : string) (st : LoopState) :
  ledgerSane (ledger st) -> ledgerSane (ledger (txLoop fuel sortedTxs d st)).
Proof. apply (ledger_inv_txLoop sortedTxs ledgerSane sane_step). Qed.

Lemma dailyLoop_sane (endDate : option UTCDate) (n : nat) (st : LoopState) :
  ledgerSane (ledger st) ->
  ledgerSane (ledger (dailyLoop n sortedTxs endDate st)).
Proof. apply (ledger_inv_dailyLoop sortedTxs ledgerSane sane_step). Qed.

End SaneRun.

(** * Monthly aggregation *)

Lemma finalizeFrom_spec (acc : Finalize) (idx : nat) (maxes : list float) :
  finPenalty (finalizeFrom acc idx maxes)
  = fold_left PrimFloat.add (map (fun m => (m * 0.01)%float) maxes) (finPenalty acc)
  /\ finAffected (finalizeFrom acc idx maxes)
     = (finAffected acc + length (List.filter (fun m => JS.gt m 0) maxes))%nat
  /\ finDetails (finalizeFrom acc idx maxes)
     = finDetails acc ++ imap (fun i m => monthlyRecord (idx + i) m) maxes.
Proof.
  revert acc idx; induction maxes as [|m maxes IH]; intros acc idx; simpl.
  - repeat split; [lia | now rewrite app_nil_r].
  - destruct (IH (finalizeStep acc idx m) (S idx)) as (H1 & H2 & H3).
    repeat split.
    + rewrite H1. reflexivity.
    + rewrite H2. simpl. destruct (JS.gt m 0); simpl; lia.
    + rewrite H3. simpl. rewrite <- app_assoc. simpl.
      rewrite Nat.add_0_r. do 2 f_equal.
      apply imap_ext. intros i x _. simpl. f_equal. lia.
Qed.

Lemma finalize_spec (maxes : list float) :
  finPenalty (finalize maxes)
  = fold_left PrimFloat.add (map penalty (finDetails (finalize maxes))) 0%float
  /\ finAffected (finalize maxes)
     = length (List.filter (fun r => JS.gt (maxExcess r) 0) (finDetails (finalize maxes)))
  /\ finDetails (finalize maxes) = imap monthlyRecord maxes
  /\ map maxExcess (finDetails (finalize maxes)) = maxes.
Proof.
  unfold finalize.
  destruct (finalizeFrom_spec (mkFin 0 0 []) 0 maxes) as (H1 & H2 & H3).
  simpl in H1, H2, H3.
  assert (Hd : finDetails (finalizeFrom (mkFin 0 0 []) 0 maxes)
               = imap monthlyRecord maxes) by exact H3.
  assert (Hm : forall k l, map maxExcess (imap (fun i m => monthlyRecord (k + i) m) l) = l).
  { intros k l; revert k; induction l as [|x l IH]; intros k; simpl; [reflexivity|].
    f_equal. rewrite <- (IH (S k)) at 2. f_equal.
    apply imap_ext. intros i y _. simpl. f_equal. lia. }
  assert (Hp : forall k l, map penalty (imap (fun i m => monthlyRecord (k + i) m) l)
                           = map (fun m => (m * 0.01)%float) l).
  { intros k l; revert k; induction l as [|x l IH]; intros k; simpl; [reflexivity|].
    f_equal. rewrite <- (IH (S k)). f_equal.
    apply imap_ext. intros i y _. simpl. f_equal. lia. }
  assert (Hf : forall k l,
             length (List.filter (fun r => JS.gt (maxExcess r) 0)
                       (imap (fun i m => monthlyRecord (k + i) m) l))
             = length (List.filter (fun m => JS.gt m 0) l)).
  { intros k l; revert k; induction l as [|x l IH]; intros k; [reflexivity|].
    rewrite imap_cons.
    replace (imap ((fun i m => monthlyRecord (k + i) m) ∘ S) l)
      with (imap (fun i m => monthlyRecord (S k + i) m) l)
      by (apply imap_ext; intros i y _; simpl; f_equal; lia).
    cbn [List.filter monthlyRecord maxExcess].
    destruct (JS.gt x 0); cbn [length]; now rewrite IH. }
  assert (E : imap monthlyRecord maxes
              = imap (fun i m => monthlyRecord (0 + i) m) maxes) by reflexivity.
  rewrite Hd. split; [|split; [|split]].
  - rewrite E, Hp. exact H1.
  - rewrite E, Hf. exact H2.
  - reflexivity.
  - rewrite E. apply Hm.
Qed.

(** ** The daily trace and the monthly maxima *)

Lemma highWater_snoc (es : list float) (e : float) :
  highWater (es ++ [e])
  = if JS.gt e (highWater es) then e else highWater es.
Proof. unfold highWater. now rewrite fold_left_app. Qed.

Lemma monthExcesses_snoc (i m : nat) (e : float) (trace : list (nat * float)) :
  monthExcesses i (trace ++ [(m, e)])
  = monthExcesses i trace ++ (if Nat.eqb m i then [e] else []).
Proof.
  unfold monthExcesses. rewrite List.filter_app, map_app. simpl.
  now destruct (Nat.eqb m i).
Qed.

Lemma dayTrace_S (n : nat) (year : Z) (startRoom : float) (sortedTxs : list Tx) :
  dayTrace (S n) year startRoom sortedTxs
  = dayTrace n year startRoom sortedTxs ++
    match simulatedDay n year startRoom sortedTxs with
    | Some c => [(utcMonth c,
                  excess (ledger (stateAfterDays (S n) year startRoom sortedTxs)))]
    | None => []
    end.
Proof.
  unfold dayTrace. rewrite seq_S, omap_app. simpl.
  now destruct (simulatedDay n year startRoom sortedTxs).
Qed.

Lemma stateAfterDays_S (n : nat) (year : Z) (startRoom : float)
    (sortedTxs : list Tx) :
  stateAfterDays (S n) year startRoom sortedTxs
  = match simulatedDay n year startRoom sortedTxs with
    | Some c => dayBody sortedTxs c (stateAfterDays n year startRoom sortedTxs)
    | None => stateAfterDays n year startRoom sortedTxs
    end.
Proof. unfold stateAfterDays, simulatedDay. apply dailyLoop_snoc. Qed.

Lemma trackMax_lookup (m i : nat) (e h : float) (maxes : list float) :
  maxes !! i = Some h ->
  trackMax m e maxes !! i
  = Some (if Nat.eqb m i then (if JS.gt e h then e else h) else h).
Proof.
  intros Hi. unfold trackMax.
  destruct (Nat.eqb_spec m i) as [->|Hne].
  - rewrite Hi. destruct (JS.gt e h); [|exact Hi].
    apply list_lookup_insert_eq. now apply lookup_lt_Some in Hi.
  - destruct (maxes !! m) as [hm|]; [|exact Hi].
    destruct (JS.gt e hm); [|exact Hi].
    now rewrite list_lookup_insert_ne.
Qed.

Lemma trackMax_length (m : nat) (e : float) (maxes : list float) :
  length (trackMax m e maxes) = length maxes.
Proof.
  unfold trackMax. destruct (maxes !! m) as [h|]; [|reflexivity].
  destruct (JS.gt e h); [apply length_insert | reflexivity].
Qed.

(** After [n] rounds, the chart data is the trace so far and each monthly
    maximum is the high-water mark of the days of its month so far. *)
Lemma trace_invariant (n : nat) (year : Z) (startRoom : float)
    (sortedTxs : list Tx) :
  let st := stateAfterDays n year startRoom sortedTxs in
  let trace := dayTrace n year startRoom sortedTxs in
  vizDataExcess st = map snd trace /\
  length (monthlyMaxExcess st) = 12%nat /\
  forall i, (i < 12)%nat ->
            monthlyMaxExcess st !! i = Some (highWater (monthExcesses i trace)).
Proof.
  induction n as [|n IH]; cbn zeta.
  - unfold stateAfterDays, dayTrace; simpl. repeat split.
    intros i Hi. unfold monthExcesses, highWater; simpl.
    now apply (lookup_replicate_2 12 0%float).
  - cbn zeta in IH. destruct IH as (Hv & Hl & Hm).
    rewrite dayTrace_S.
    pose proof (stateAfterDays_S n year startRoom sortedTxs) as HS.
    destruct (simulatedDay n year startRoom sortedTxs) as [c|].
    + rewrite HS.
      set (st := stateAfterDays n year startRoom sortedTxs) in *.
      destruct (txLoop_frame sortedTxs (length sortedTxs) (formatDate c) st)
        as (F1 & _ & F3 & _).
      unfold dayBody; simpl. rewrite F1, F3. repeat split.
      * rewrite map_app, Hv. reflexivity.
      * now rewrite trackMax_length.
      * intros i Hi. rewrite (trackMax_lookup _ _ _ _ _ (Hm i Hi)).
        rewrite monthExcesses_snoc.
        destruct (Nat.eqb (utcMonth c) i).
        -- now rewrite highWater_snoc.
        -- now rewrite app_nil_r.
    + rewrite HS, app_nil_r. now repeat split.
Qed.

Section HighWater.

Import FloatOrder FloatFacts.

Lemma highWater_from (es : list float) (acc : float) :
  notnan acc = true ->
  let h := fold_left (fun a e => if JS.gt e a then e else a) es acc in
  notnan h = true /\ fval acc <= fval h /\ (h = acc \/ In h es) /\
  List.Forall (fun e => JS.gt e h = false) es.
Proof.
  revert acc; induction es as [|e es IH]; intros acc N; cbn zeta; simpl.
  - split; [exact N | split; [lia | split; [now left | constructor]]].
  - set (acc' := if JS.gt e acc then e else acc).
    assert (N' : notnan acc' = true /\ fval acc <= fval acc' /\
                 (acc' = acc \/ acc' = e) /\ JS.gt e acc' = false).
    { unfold acc', JS.gt. destruct (PrimFloat.ltb acc e) eqn:L.
      - apply ltb_iff in L as (_ & Ne & L).
        split; [exact Ne | split; [lia | split; [now right|]]].
        apply ltb_false_iff; auto; lia.
      - split; [exact N | split; [lia | split; [now left | exact L]]]. }
    destruct N' as (N' & Hle & Hin & Hgt).
    destruct (IH acc' N') as (Nh & Hle' & Hin' & Hall). cbn zeta in *.
    set (h := fold_left _ es acc') in *.
    split; [exact Nh | split; [lia | split]].
    + destruct Hin' as [->|?]; [|now auto]. destruct Hin as [->| ->]; auto.
    + constructor; [|exact Hall]. unfold JS.gt in *.
      destruct (notnan e) eqn:Ne; [|now apply ltb_nan_r].
      apply ltb_false_iff; auto. apply ltb_false_iff in Hgt; auto. lia.
Qed.

(** A high-water mark is 0 or one of the values, no value is above it, and
    it is itself at or above zero. *)
Lemma highWater_spec (es : list float) :
  (highWater es = 0%float \/ In (highWater es) es) /\
  List.Forall (fun e => JS.gt e (highWater es) = false) es /\
  JS.ge (highWater es) 0 = true.
Proof.
  destruct (highWater_from es 0%float notnan_zero) as (N & Hle & Hin & Hall).
  cbn zeta in *. fold (highWater es) in *.
  split; [exact Hin | split; [exact Hall|]].
  unfold JS.ge. apply leb_iff. rewrite fval_zero. now repeat split.
Qed.

Lemma max_step_spec (h x : float) :
  notnan h = true -> notnan x = true ->
  notnan (JS.max_step h x) = true /\
  (JS.max_step h x = h \/ JS.max_step h x = x) /\
  fval h <= fval (JS.max_step h x) /\ fval x <= fval (JS.max_step h x).
Proof.
  intros Nh Nx. unfold JS.max_step. rewrite !is_nan_notnan, Nh, Nx. simpl.
  destruct (JS.is_pos_zero x && JS.is_neg_zero h) eqn:Z.
  - apply andb_true_iff in Z as [Zx Zh].
    unfold JS.is_pos_zero, JS.is_neg_zero, PrimFloat.is_zero in *.
    apply andb_true_iff in Zx as [Zx _], Zh as [Zh _].
    apply eqb_iff in Zx as (_ & _ & Zx), Zh as (_ & _ & Zh).
    split; [exact Nx | split; [now right | lia]].
  - destruct (PrimFloat.ltb h x) eqn:L.
    + apply ltb_iff in L as (_ & _ & L).
      split; [exact Nx | split; [now right | lia]].
    + apply ltb_false_iff in L; auto.
      split; [exact Nh | split; [now left | lia]].
Qed.

Lemma Math_max_from (l : list float) (h0 : float) :
  notnan h0 = true -> List.Forall (fun m => notnan m = true) l ->
  let r := fold_left JS.max_step l h0 in
  notnan r = true /\ fval h0 <= fval r /\ (r = h0 \/ In r l) /\
  List.Forall (fun m => fval m <= fval r) l.
Proof.
  revert h0; induction l as [|x l IH]; intros h0 N0 Hall; cbn zeta; simpl.
  - split; [exact N0 | split; [lia | split; [now left | constructor]]].
  - apply Forall_cons in Hall as [Nx Hall].
    destruct (max_step_spec h0 x N0 Nx) as (N1 & Hin1 & Hh & Hx).
    destruct (IH _ N1 Hall) as (Nr & Hle & Hin & Hfor). cbn zeta in *.
    set (r := fold_left JS.max_step l (JS.max_step h0 x)) in *.
    split; [exact Nr | split; [lia | split]].
    + destruct Hin as [->|?]; [|now auto]. destruct Hin1 as [->| ->]; auto.
    + constructor; [lia | exact Hfor].
Qed.

(** [Math.max] over values at or above zero, at least one of them: one of
    the values, with none of them above it. *)
Lemma Math_max_spec (l : list float) :
  l <> [] -> List.Forall (fun m => JS.ge m 0 = true) l ->
  In (JS.Math_max l) l /\
  List.Forall (fun m => JS.gt m (JS.Math_max l) = false) l.
Proof.
  intros Hne Hall.
  assert (Hnn : List.Forall (fun m => notnan m = true) l).
  { eapply List.Forall_impl; [|exact Hall]. intros m H. unfold JS.ge in H.
    now apply leb_iff in H. }
  destruct (Math_max_from l neg_infinity eq_refl Hnn) as (Nr & _ & Hin & Hfor).
  cbn zeta in *. fold (JS.Math_max l) in *.
  split.
  - destruct Hin as [E|?]; [|assumption]. exfalso.
    destruct l as [|x l]; [congruence|].
    apply Forall_cons in Hall as [Hx _], Hfor as [Hx' _].
    unfold JS.ge in Hx. apply leb_iff in Hx as (_ & _ & Hx).
    rewrite fval_zero in Hx. rewrite E in Hx'.
    change (fval neg_infinity) with (- 2 ^ 2100) in Hx'.
    pose proof (pow2_pos 2100 ltac:(lia)). lia.
  - rewrite List.Forall_forall in Hfor, Hnn. apply List.Forall_forall.
    intros m Hm. unfold JS.gt. apply ltb_false_iff; auto.
Qed.

End HighWater.

(** ** The fields of the result, read off the final state *)

Lemma simulate_trace (year : Z) (startRoom : float) (sortedTxs : list Tx) :
  vizDataExcess (simulate year startRoom sortedTxs)
  = map snd (dayTrace 366 year startRoom sortedTxs) /\
  length (monthlyMaxExcess (simulate year startRoom sortedTxs)) = 12%nat /\
  forall i, (i < 12)%nat ->
    monthlyMaxExcess (simulate year startRoom sortedTxs) !! i
    = Some (highWater (monthExcesses i (dayTrace 366 year startRoom sortedTxs))).
Proof. exact (trace_invariant 366 year startRoom sortedTxs). Qed.

Lemma resultOf_aggregates (year : Z) (startRoom : float) (sortedTxs : list Tx) :
  totalPenalty (resultOf year startRoom sortedTxs)
  = finPenalty (finalize (monthlyMaxExcess (simulate year startRoom sortedTxs))) /\
  peakExcess (resultOf year startRoom sortedTxs)
  = JS.Math_max (monthlyMaxExcess (simulate year startRoom sortedTxs)) /\
  affectedMonths (resultOf year startRoom sortedTxs)
  = finAffected (finalize (monthlyMaxExcess (simulate year startRoom sortedTxs))) /\
  monthlyDetails (resultOf year startRoom sortedTxs)
  = finDetails (finalize (monthlyMaxExcess (simulate year startRoom sortedTxs))) /\
  data (vizData (resultOf year startRoom sortedTxs))
  = vizDataExcess (simulate year startRoom sortedTxs).
Proof. repeat split. Qed.

Lemma resultOf_projection (year : Z) (startRoom : float) (sortedTxs : list Tx) :
  let tc := totalContributions (ledger (simulate year startRoom sortedTxs)) in
  let tw := totalWithdrawals (ledger (simulate year startRoom sortedTxs)) in
  let limit := JS.or_default (ANNUAL_LIMITS !! (year + 1)) 7000 in
  resTotalContributions (resultOf year startRoom sortedTxs) = tc /\
  resTotalWithdrawals (resultOf year startRoom sortedTxs) = tw /\
  currentExcess (resultOf year startRoom sortedTxs)
  = excess (ledger (simulate year startRoom sortedTxs)) /\
  unusedRoomEndOfYear (resultOf year startRoom sortedTxs)
  = (startRoom - tc)%float /\
  nextAnnualLimit (resultOf year startRoom sortedTxs) = limit /\
  nextYearLimit (resultOf year startRoom sortedTxs)
  = (startRoom - tc + tw + limit)%float /\
  remainingRoom (resultOf year startRoom sortedTxs)
  = JS.Math_max [0%float; (startRoom - tc)%float].
Proof. repeat split. Qed.

(** * CSV import *)

(** What the amount gate lets through is above zero. *)
Lemma amount_gate_positive (a : float) :
  JS.isNaN a || JS.le a 0 = false -> JS.gt a 0 = true.
Proof.
  unfold JS.isNaN, JS.le, JS.gt. intros H.
  apply orb_false_iff in H as [Hn Hle].
  rewrite FloatFacts.is_nan_notnan in Hn. apply negb_false_iff in Hn.
  apply FloatFacts.ltb_iff.
  split; [exact FloatFacts.notnan_zero|]. split; [exact Hn|].
  now apply (FloatFacts.leb_false_iff a 0 Hn FloatFacts.notnan_zero).
Qed.

Section CsvFacts.

Variable dateParse : string -> option string.
Variable newId : nat -> float.

Lemma processLine_positive (i : nat) (rawLine : string) (st : CsvState) :
  List.Forall positiveAmount (transactions st) ->
  List.Forall positiveAmount (transactions (processLine dateParse newId i rawLine st)).
Proof.
  intros Hst. unfold processLine. cbv zeta.
  destruct (String.eqb _ _); [exact Hst|].
  destruct (map _ _) as [|dateRaw [|typeRaw [|amountRaw rest]]]; try exact Hst.
  destruct (JS.isNaN _ || JS.le _ 0) eqn:Hgate; [exact Hst|].
  assert (Hpush : forall d ty inst,
    List.Forall positiveAmount
      (transactions st ++
       [mkTx (newId i) d ty
          (JS.parseFloat (JS.removeChar "," amountRaw)) inst])).
  { intros d ty inst. apply List.Forall_app. split; [exact Hst|].
    constructor; [|constructor].
    unfold positiveAmount. cbn [amount]. now apply amount_gate_positive. }
  destruct (isoRegexTest dateRaw); [apply Hpush|].
  destruct (dateParse dateRaw); [apply Hpush | exact Hst].
Qed.

Lemma csvLoop_positive (lines : list string) (i : nat) (st : CsvState) :
  List.Forall positiveAmount (transactions st) ->
  List.Forall positiveAmount (transactions (csvLoop dateParse newId i lines st)).
Proof.
  revert i st. induction lines as [|l lines IH]; intros i st Hst.
  - exact Hst.
  - cbn [csvLoop]. apply IH. now apply processLine_positive.
Qed.

Lemma processCsvData_positive (text : string) (ledger0 : list Tx) :
  List.Forall positiveAmount ledger0 ->
  List.Forall positiveAmount
    (ledgerAfter (processCsvData dateParse newId text ledger0)).
Proof.
  intros H0. unfold processCsvData. cbv zeta. cbn [ledgerAfter].
  now apply csvLoop_positive.
Qed.

End CsvFacts.

(** C8: the header test reads the whole first line, not its date column: a
    file without a header whose first record has "date" only in the name of
    its institution loses that record, with no message; alone in the file,
    the record leaves nothing to import. *)
Theorem C8_header_test_reads_whole_line
    (dateParse : string -> option string) (newId : nat -> float) :
  (forall first rest,
     headerIndex (first :: rest)
     = if JS.includes (JS.toLowerCase first) "date" then 1%nat else 0%nat) /\
  dateColumn creditUnionLine = "2024-01-15"%string /\
  JS.includes (JS.toLowerCase (dateColumn creditUnionLine)) "date" = false /\
  headerIndex (JS.splitOn "010" creditUnionCsv) = 1%nat /\
  processCsvData dateParse newId creditUnionCsv []
  = mkOutcome [mkTx (newId 1%nat) "2024-02-01" "CONTRIBUTION" 100 "RBC"]
      1 [] None /\
  processCsvData dateParse newId creditUnionLine []
  = mkOutcome [] 0 []
      (Some "No valid transactions found in CSV. Check format."%string).
Proof.
  split; [reflexivity|]. repeat split; vm_compute; reflexivity.
Qed.

(** C9: the amount gate turns away what is not a number and what is zero or
    below, with a message that carries the line's number, and goes on with
    the rest of the file; so every admitted amount is above zero.  It lets
    an infinite amount through: "Infinity" and "1e309" are admitted. *)
Theorem C9_gate_admits_infinite_amounts
    (dateParse : string -> option string) (newId : nat -> float) :
  (forall text ledger0,
     List.Forall positiveAmount ledger0 ->
     List.Forall positiveAmount
       (ledgerAfter (processCsvData dateParse newId text ledger0))) /\
  JS.parseFloat (JS.removeChar "," "Infinity") = infinity /\
  JS.parseFloat (JS.removeChar "," "1e309") = infinity /\
  processCsvData dateParse newId amountsCsv []
  = mkOutcome
      [mkTx (newId 2%nat) "2024-01-16" "CONTRIBUTION" infinity "RBC";
       mkTx (newId 3%nat) "2024-01-17" "WITHDRAWAL" infinity "RBC";
       mkTx (newId 5%nat) "2024-01-19" "CONTRIBUTION" 7371.84 "RBC"]
      3
      ["Line 2: Invalid amount: abc"%string;
       "Line 5: Invalid amount: -5"%string]
      (Some ("Imported 3 items. Skipped 2 errors. Details: "
             ++ "Line 2: Invalid amount: abc; Line 5: Invalid amount: -5")%string).
Proof.
  split; [apply processCsvData_positive|].
  repeat split; vm_compute; reflexivity.
Qed.

(** * The engine against its specification *)

(** C3: before any transaction is applied, a negative starting room gives
    excess = |startingRoom| and unusedRoom = 0, and any other starting room
    gives excess = 0 and unusedRoom = startingRoom; with startingRoom = -500
    and an empty ledger the initial excess is 500 and unusedRoom is 0. *)
Theorem C3_initial_state (year : Z) (startRoom : float) (txs : list Tx) :
  let st0 := stateAfterDays 0 year startRoom (sortTxs txs) in
  txIndex st0 = 0%nat /\
  (if JS.lt startRoom 0
   then excess (ledger st0) = JS.Math_abs startRoom /\
        unusedRoom (ledger st0) = 0%float
   else excess (ledger st0) = 0%float /\
        unusedRoom (ledger st0) = startRoom) /\
  totalContributions (ledger st0) = 0%float /\
  totalWithdrawals (ledger st0) = 0%float /\
  ledger (stateAfterDays 0 year (-500)%float (sortTxs [])) = mkLedger 500 0 0 0.
Proof.
  cbn zeta. unfold stateAfterDays; simpl. unfold initLedger.
  destruct (JS.lt startRoom 0); simpl; repeat split.
Qed.

Lemma ANNUAL_LIMITS_lookup (k : Z) :
  ANNUAL_LIMITS !! k
  = if k =? 2023 then Some 6500%float
    else if (k =? 2024) || (k =? 2025) || (k =? 2026) then Some 7000%float
    else None.
Proof.
  unfold ANNUAL_LIMITS.
  destruct (Z.eqb_spec k 2023) as [->|N1]; [reflexivity|].
  rewrite lookup_insert_ne by congruence.
  destruct (Z.eqb_spec k 2024) as [->|N2]; [reflexivity|].
  rewrite lookup_insert_ne by congruence.
  destruct (Z.eqb_spec k 2025) as [->|N3]; [reflexivity|].
  rewrite lookup_insert_ne by congruence.
  destruct (Z.eqb_spec k 2026) as [->|N4]; [reflexivity|].
  now rewrite lookup_singleton_ne by congruence.
Qed.

Lemma Math_max_zero (x : float) :
  JS.Math_max [0%float; x]
  = if JS.isNaN x then nan else if JS.gt x 0 then x else 0%float.
Proof.
  unfold JS.Math_max, JS.isNaN, JS.gt. cbn [fold_left].
  change (JS.max_step neg_infinity 0) with 0%float.
  unfold JS.max_step. change (PrimFloat.is_nan 0) with false. cbv iota.
  destruct (PrimFloat.is_nan x); [reflexivity|].
  change (JS.is_neg_zero 0) with false. now rewrite andb_false_r.
Qed.

(** C5: unusedRoomEndOfYear = startingRoom - totalContributions;
    nextYearLimit = unusedRoomEndOfYear + totalWithdrawals + nextAnnualLimit,
    the limit being the table entry for year + 1, or 7000 when the table has
    none; remainingRoom = max(0, startingRoom - totalContributions), a figure
    no withdrawal moves. *)
Theorem C5_projection (year : Z) (startRoom : float) (txs : list Tx) :
  let r := calculatePenalty year startRoom txs in
  unusedRoomEndOfYear r = (startRoom - resTotalContributions r)%float /\
  nextYearLimit r
  = (unusedRoomEndOfYear r + resTotalWithdrawals r + nextAnnualLimit r)%float /\
  nextAnnualLimit r = default 7000%float (ANNUAL_LIMITS !! (year + 1)) /\
  nextAnnualLimit r = (if year + 1 =? 2023 then 6500%float else 7000%float) /\
  remainingRoom r
  = JS.Math_max [0%float; (startRoom - resTotalContributions r)%float] /\
  remainingRoom r
  = (let room := (startRoom - resTotalContributions r)%float in
     if JS.isNaN room then nan else if JS.gt room 0 then room else 0%float) /\
  (forall i d a inst l,
      totalContributions (applyTx (mkTx i d "WITHDRAWAL" a inst) l)
      = totalContributions l /\
      unusedRoom (applyTx (mkTx i d "WITHDRAWAL" a inst) l) = unusedRoom l).
Proof.
  cbn zeta. unfold calculatePenalty, resultOf; simpl.
  rewrite ANNUAL_LIMITS_lookup, Math_max_zero.
  repeat split.
  - destruct (year + 1 =? 2023); [reflexivity|].
    now destruct ((year + 1 =? 2024) || (year + 1 =? 2025) || (year + 1 =? 2026)).
  - destruct (year + 1 =? 2023); [reflexivity|].
    now destruct ((year + 1 =? 2024) || (year + 1 =? 2025) || (year + 1 =? 2026)).
  - unfold applyTx; simpl.
    destruct (JS.gt (excess l) 0); [destruct (JS.ge (excess l) a)|]; reflexivity.
  - unfold applyTx; simpl.
    destruct (JS.gt (excess l) 0); [destruct (JS.ge (excess l) a)|]; reflexivity.
Qed.

Lemma MONTHS_lookup (i : nat) :
  (i < 12)%nat -> MONTHS !! i = Some (default EmptyString (MONTHS !! i)).
Proof.
  intros H. do 12 (destruct i as [|i]; [reflexivity|]). lia.
Qed.

(** C2: each of the 12 monthly records has penalty = maxExcess * 0.01 and
    isAffected = (maxExcess > 0); totalPenalty is the sum of the 12 monthly
    penalties; peakExcess is the maximum of the 12 monthly maxExcess values,
    each of them the high-water mark of the excess over the days of its
    month, read after the transactions of the day are applied; and
    affectedMonths counts the months with maxExcess > 0. *)
Theorem C2_monthly_aggregation (year : Z) (startRoom : float) (txs : list Tx) :
  let r := calculatePenalty year startRoom txs in
  let trace := dayTrace 366 year startRoom (sortTxs txs) in
  length (monthlyDetails r) = 12%nat /\
  (forall i, (i < 12)%nat ->
     exists rec,
       monthlyDetails r !! i = Some rec /\
       MONTHS !! i = Some (monthLabel rec) /\
       maxExcess rec = highWater (monthExcesses i trace) /\
       penalty rec = (maxExcess rec * 0.01)%float /\
       isAffected rec = JS.gt (maxExcess rec) 0) /\
  totalPenalty r
  = fold_left PrimFloat.add (map penalty (monthlyDetails r)) 0%float /\
  peakExcess r = JS.Math_max (map maxExcess (monthlyDetails r)) /\
  In (peakExcess r) (map maxExcess (monthlyDetails r)) /\
  List.Forall (fun rec => JS.gt (maxExcess rec) (peakExcess r) = false)
    (monthlyDetails r) /\
  affectedMonths r
  = length (List.filter (fun rec => JS.gt (maxExcess rec) 0) (monthlyDetails r)) /\
  data (vizData r) = map snd trace /\
  (forall i,
     (highWater (monthExcesses i trace) = 0%float \/
      In (highWater (monthExcesses i trace)) (monthExcesses i trace)) /\
     List.Forall (fun e => JS.gt e (highWater (monthExcesses i trace)) = false)
       (monthExcesses i trace)).
Proof.
  cbv zeta. unfold calculatePenalty.
  destruct (resultOf_aggregates year startRoom (sortTxs txs))
    as (-> & -> & -> & -> & ->).
  destruct (simulate_trace year startRoom (sortTxs txs)) as (Hv & Hl & Hm).
  revert Hv Hl Hm.
  generalize (dayTrace 366 year startRoom (sortTxs txs)).
  generalize (simulate year startRoom (sortTxs txs)).
  intros st trace Hv Hl Hm.
  destruct (finalize_spec (monthlyMaxExcess st)) as (Fp & Fa & Fd & Fm).
  assert (Hge : List.Forall (fun m => JS.ge m 0 = true) (monthlyMaxExcess st)).
  { apply List.Forall_forall. intros m Hin.
    apply list_elem_of_In, list_elem_of_lookup in Hin as [i Hi].
    pose proof (lookup_lt_Some _ _ _ Hi) as Hlt. rewrite Hl in Hlt.
    rewrite (Hm i Hlt) in Hi. injection Hi as <-.
    apply highWater_spec. }
  assert (Hne : monthlyMaxExcess st <> []).
  { intros E. rewrite E in Hl. discriminate. }
  destruct (Math_max_spec _ Hne Hge) as [Hin Hall].
  split; [|split; [|split; [|split; [|split; [|split; [|split; [|split]]]]]]].
  - rewrite Fd, length_imap. exact Hl.
  - intros i Hi. exists (monthlyRecord i (highWater (monthExcesses i trace))).
    split; [|split; [|split; [|split]]]; try reflexivity.
    + rewrite Fd, list_lookup_imap, (Hm i Hi). reflexivity.
    + cbn [monthLabel monthlyRecord]. now apply MONTHS_lookup.
  - exact Fp.
  - now rewrite Fm.
  - now rewrite Fm.
  - apply List.Forall_forall. intros rec Hrec.
    rewrite List.Forall_forall in Hall. apply Hall.
    rewrite <- Fm. now apply in_map.
  - exact Fa.
  - exact Hv.
  - intros i. destruct (highWater_spec (monthExcesses i trace)) as (H1 & H2 & _).
    now split.
Qed.

Lemma stateAfterDays_prefixInv (n : nat) (year : Z) (startRoom : float)
    (sortedTxs : list Tx) :
  prefixInv sortedTxs (initLedger startRoom)
    (stateAfterDays n year startRoom sortedTxs).
Proof.
  unfold stateAfterDays. apply prefixInv_dailyLoop, initState_prefixInv.
Qed.

Lemma onDate_app (d : string) (l1 l2 : list Tx) :
  onDate d (l1 ++ l2) = onDate d l1 ++ onDate d l2.
Proof. unfold onDate. apply List.filter_app. Qed.

Lemma stateAfterDays_appliedInYear (n : nat) (year : Z) (startRoom : float)
    (sortedTxs : list Tx) :
  appliedInYear sortedTxs (simYear year)
    (stateAfterDays n year startRoom sortedTxs).
Proof.
  unfold stateAfterDays.
  destruct (Date_UTC year 11 31) as [e|] eqn:He.
  - apply Date_UTC_Some in He as ->.
    apply appliedInYear_dailyLoop; [apply initState_cursorOk|].
    unfold appliedInYear; simpl. constructor.
  - rewrite dailyLoop_invalid_end. unfold appliedInYear; simpl. constructor.
Qed.

Lemma stateAfterDays_blocked (n : nat) (year : Z) (startRoom : float)
    (pre post : list Tx) (tx : Tx) :
  String.ltb (date tx) (jan1 year) = true ->
  stateAfterDays n year startRoom (pre ++ tx :: post)
  = stateAfterDays n year startRoom pre /\
  (txIndex (stateAfterDays n year startRoom pre) <= length pre)%nat.
Proof.
  intros Hlt. split.
  - unfold stateAfterDays.
    destruct (Date_UTC year 11 31) as [e|] eqn:He.
    + apply Date_UTC_Some in He as ->.
      apply (dailyLoop_blocked pre post tx (simYear year)).
      * intros c Hc. eapply StringOrder.ltb_leb_neq; [exact Hlt|].
        apply (formatDate_bounds _ _ Hc).
      * apply initState_cursorOk.
      * simpl. lia.
    + now rewrite !dailyLoop_invalid_end.
  - apply (stateAfterDays_prefixInv n year startRoom pre).
Qed.

(** C10: a transaction whose date string lies outside January 1 through
    December 31 of the simulated year is never applied and moves none of
    the four figures; and when the sorted ledger holds a transaction dated
    strictly before January 1, the pointer never passes it, so the result is
    the result for the ledger cut just before that transaction. *)
Theorem C10_out_of_year (year : Z) (startRoom : float) (txs : list Tx) :
  (forall n,
     let st := stateAfterDays n year startRoom (sortTxs txs) in
     ledger st
     = applyAll (take (txIndex st) (sortTxs txs)) (initLedger startRoom) /\
     List.Forall
       (fun t => (exists c, inYear (simYear year) c /\ date t = formatDate c) /\
                 String.leb (jan1 year) (date t) = true /\
                 String.leb (date t) (dec31 year) = true)
       (take (txIndex st) (sortTxs txs))) /\
  (forall pre tx post,
     sortTxs txs = pre ++ tx :: post ->
     String.ltb (date tx) (jan1 year) = true ->
     calculatePenalty year startRoom txs = calculatePenalty year startRoom pre /\
     forall n,
       stateAfterDays n year startRoom (sortTxs txs)
       = stateAfterDays n year startRoom pre /\
       (txIndex (stateAfterDays n year startRoom (sortTxs txs)) <= length pre)%nat).
Proof.
  split.
  - intros n. cbv zeta. split.
    + apply (stateAfterDays_prefixInv n year startRoom (sortTxs txs)).
    + pose proof (stateAfterDays_appliedInYear n year startRoom (sortTxs txs)) as H.
      unfold appliedInYear in H. eapply List.Forall_impl; [|exact H].
      intros t (c & Hc & Hd). split; [now exists c|].
      rewrite Hd. apply (formatDate_bounds _ _ Hc).
  - intros pre tx post Hs Hlt.
    assert (Hpre : sortTxs pre = pre).
    { apply sortTxs_id. apply (sorted_app_l pre (tx :: post)).
      rewrite <- Hs. apply sortTxs_sorted. }
    split.
    + unfold calculatePenalty, resultOf, simulate. rewrite Hpre, Hs.
      now rewrite (proj1 (stateAfterDays_blocked 366 year startRoom pre post tx Hlt)).
    + intros n. rewrite Hs.
      destruct (stateAfterDays_blocked n year startRoom pre post tx Hlt) as [E Hle].
      rewrite E. now split.
Qed.

(** A contribution inside the year, after a withdrawal dated the day before
    the year starts: the withdrawal sorts first and blocks the pointer. *)
Lemma C10_witness :
  calculatePenalty 2024 1000
    [contribution "2024-03-01" 500; withdrawal "2023-12-31" 10]
  = calculatePenalty 2024 1000 [].
Proof.
  exact (proj1 (proj2 (C10_out_of_year 2024 1000
                         [contribution "2024-03-01" 500; withdrawal "2023-12-31" 10])
                 [] (withdrawal "2023-12-31" 10) [contribution "2024-03-01" 500]
                 eq_refl eq_refl)).
Defined.

(** C1: for every day of the simulated year and every transaction applied
    on that day, a CONTRIBUTION of [a] raises cumulative contributions by
    [a] and either lowers unusedRoom by [a] (when unusedRoom >= a, excess
    unchanged) or raises excess by [a - unusedRoom] and sets unusedRoom to 0;
    a WITHDRAWAL of [a] raises cumulative withdrawals by [a], lowers excess
    by [min(excess, a)], drops the remainder and leaves unusedRoom alone.
    Amounts are strictly positive, as the data model has them. *)
Theorem C1_transaction_effects (year : Z) (startRoom : float) (txs : list Tx)
    (n j : nat) (c : UTCDate) (tx : Tx) :
  List.Forall positiveAmount txs ->
  simulatedDay n year startRoom (sortTxs txs) = Some c ->
  nextTx (sortTxs txs) (formatDate c)
    (txLoop j (sortTxs txs) (formatDate c)
       (stateAfterDays n year startRoom (sortTxs txs))) = Some tx ->
  let before :=
    txLoop j (sortTxs txs) (formatDate c)
      (stateAfterDays n year startRoom (sortTxs txs)) in
  let after :=
    txLoop (S j) (sortTxs txs) (formatDate c)
      (stateAfterDays n year startRoom (sortTxs txs)) in
  sortTxs txs !! txIndex before = Some tx /\
  date tx = formatDate c /\
  txIndex after = S (txIndex before) /\
  (type tx = "CONTRIBUTION"%string ->
   contributionEffect (amount tx) (ledger before) (ledger after)) /\
  (type tx = "WITHDRAWAL"%string ->
   withdrawalEffect (amount tx) (ledger before) (ledger after)).
Proof.
  intros Hpos Hday Hnext. cbv zeta.
  pose proof (Forall_sortTxs _ _ Hpos) as Hpos'.
  assert (Hsane : ledgerSane
            (ledger (txLoop j (sortTxs txs) (formatDate c)
                       (stateAfterDays n year startRoom (sortTxs txs))))).
  { apply txLoop_sane; [exact Hpos'|].
    unfold stateAfterDays. apply dailyLoop_sane; [exact Hpos'|].
    apply initLedger_sane. }
  rewrite txLoop_snoc, Hnext.
  revert Hnext Hsane.
  generalize (txLoop j (sortTxs txs) (formatDate c)
                (stateAfterDays n year startRoom (sortTxs txs))).
  intros before Hnext Hsane.
  destruct (nextTx_Some _ _ _ _ Hnext) as [Hlk Hd].
  split; [exact Hlk|]. split; [exact Hd|]. split; [reflexivity|].
  cbn [ledger txStep]. split.
  - apply applyTx_contribution.
  - intros Ht. apply applyTx_withdrawal; [exact Ht | | exact Hsane].
    exact (proj1 (List.Forall_forall _ _) Hpos' tx (lookup_In _ _ _ Hlk)).
Qed.

Lemma scenarioA_positive : List.Forall positiveAmount scenarioA.
Proof. repeat constructor. Defined.

(** Scenario A, second day: withdrawing 2,000 from an excess of 5,000. *)
Lemma C1_witness :
  withdrawalEffect 2000 (mkLedger 5000 0 0 15000) (mkLedger 3000 0 2000 15000).
Proof.
  exact (proj2 (proj2 (proj2 (proj2
           (C1_transaction_effects 2024 10000 scenarioA 1 0
              (mkDate 2024 0 2) (withdrawal "2024-01-02" 2000)
              scenarioA_positive eq_refl eq_refl))))
           eq_refl).
Defined.

(** C6, with the amounts finite and the starting room a number: unusedRoom
    and excess are at or above zero after every simulated day, and
    unusedRoom never grows from one day to the next. *)
Theorem C6_nonneg_and_monotone (year : Z) (startRoom : float) (txs : list Tx)
    (n : nat) :
  List.Forall finitePositiveAmount txs ->
  JS.isNaN startRoom = false ->
  let l k := ledger (stateAfterDays k year startRoom (sortTxs txs)) in
  JS.ge (unusedRoom (l n)) 0 = true /\
  JS.ge (excess (l n)) 0 = true /\
  JS.le (unusedRoom (l (S n))) (unusedRoom (l n)) = true.
Proof.
  intros Hfin Hnan. cbv zeta.
  pose proof (Forall_sortTxs _ _ Hfin) as Hfin'.
  pose proof (initLedger_ok startRoom Hnan) as H0.
  unfold stateAfterDays.
  pose proof (dailyLoop_ok _ Hfin' (Date_UTC year 11 31) n
                (initState startRoom (Date_UTC year 0 1)) H0) as [He Hu].
  split; [exact Hu|]. split.
  - unfold JS.ge. now apply FloatFacts.plus_nonneg.
  - now apply dailyLoop_room_mono.
Qed.

Lemma scenarioA_finite : List.Forall finitePositiveAmount scenarioA.
Proof. repeat constructor. Defined.

(** Scenario A after its second day, and on to the third. *)
Lemma C6_witness :
  let l k := ledger (stateAfterDays k 2024 10000 (sortTxs scenarioA)) in
  JS.ge (unusedRoom (l 2%nat)) 0 = true /\
  JS.ge (excess (l 2%nat)) 0 = true /\
  JS.le (unusedRoom (l 3%nat)) (unusedRoom (l 2%nat)) = true.
Proof.
  exact (C6_nonneg_and_monotone 2024 10000 scenarioA 2 scenarioA_finite eq_refl).
Defined.

(** With all amounts strictly positive but infinite, the excess is NaN after
    the second day, and so not at or above zero. *)
Lemma C6_counterexample :
  List.Forall positiveAmount infiniteLedger /\
  JS.ge (excess (ledger (stateAfterDays 2 2024 0 (sortTxs infiniteLedger)))) 0
  = false.
Proof. split; [repeat constructor | vm_compute; reflexivity]. Qed.

(** ** The caller's array *)

Section StoreFacts.

Variable objs : gmap nat Tx.

Lemma derefAll_insertBy (r : nat) (t : Tx) (refs : list nat) (ts : list Tx) :
  objs !! r = Some t ->
  derefAll objs refs = Some ts ->
  derefAll objs
    (insertBy (fun a b => compareDates (dateOf objs a) (dateOf objs b)) r refs)
  = Some (insertBy compareTx t ts).
Proof.
  intros Hr. revert ts.
  induction refs as [|r' refs IH]; intros ts Hd.
  - injection Hd as <-. cbn. now rewrite Hr.
  - cbn in Hd.
    destruct (objs !! r') as [t'|] eqn:Hr'; [|discriminate].
    destruct (derefAll objs refs) as [ts'|] eqn:Hrest; [|discriminate].
    injection Hd as <-.
    cbn [insertBy]. unfold dateOf at 1 2, compareTx at 1.
    rewrite Hr, Hr'.
    destruct (compareDates (date t) (date t') <=? 0).
    + cbn. now rewrite Hr, Hr', Hrest.
    + cbn. rewrite Hr'. now rewrite (IH ts' eq_refl).
Qed.

Lemma derefAll_sortBy (refs : list nat) (ts : list Tx) :
  derefAll objs refs = Some ts ->
  derefAll objs
    (sortBy (fun a b => compareDates (dateOf objs a) (dateOf objs b)) refs)
  = Some (sortTxs ts).
Proof.
  revert ts. induction refs as [|r refs IH]; intros ts Hd.
  - injection Hd as <-. reflexivity.
  - cbn in Hd.
    destruct (objs !! r) as [t|] eqn:Hr; [|discriminate].
    destruct (derefAll objs refs) as [ts'|] eqn:Hrest; [|discriminate].
    injection Hd as <-.
    cbn [sortBy fold_right]. unfold sortTxs. cbn [sortBy fold_right].
    apply derefAll_insertBy; [exact Hr|]. now apply IH.
Qed.

End StoreFacts.

Lemma calculatePenaltyOn_spec (s : Store) (year : Z) (startRoom : float)
    (txs : nat) (refs : list nat) (elems : list Tx) :
  arrays s !! txs = Some refs ->
  derefAll (objects s) refs = Some elems ->
  exists s',
    calculatePenaltyOn s year startRoom txs
    = Some (calculatePenalty year startRoom elems, s') /\
    objects s' = objects s /\
    (forall l, is_Some (arrays s !! l) -> arrays s' !! l = arrays s !! l).
Proof.
  intros Harr Hder. unfold calculatePenaltyOn. rewrite Harr. cbv zeta.
  cbn [arrays objects]. rewrite !lookup_insert_eq. cbn [arrays objects].
  rewrite lookup_insert_eq.
  rewrite (derefAll_sortBy (objects s) refs elems Hder).
  eexists. split; [reflexivity|]. cbn [arrays objects]. split; [reflexivity|].
  intros l Hl. rewrite insert_insert_eq.
  apply lookup_insert_ne. intros Heq.
  apply (is_fresh (dom (arrays s))). rewrite Heq. now apply elem_of_dom.
Qed.

(** C7: the result of calculatePenalty is a function of the year, the
    starting room and the elements of the ledger array alone; the call
    leaves every transaction object and every array the caller holds as it
    was (so the ledger array keeps its length, its order and its elements'
    fields), and a second call with the same arguments returns the same
    result. *)
Theorem C7_pure_and_non_mutating (s : Store) (year : Z) (startRoom : float)
    (txs : nat) (refs : list nat) (elems : list Tx) :
  arrays s !! txs = Some refs ->
  derefAll (objects s) refs = Some elems ->
  exists s1 s2,
    calculatePenaltyOn s year startRoom txs
    = Some (calculatePenalty year startRoom elems, s1) /\
    objects s1 = objects s /\
    (forall l, is_Some (arrays s !! l) -> arrays s1 !! l = arrays s !! l) /\
    arrays s1 !! txs = Some refs /\
    derefAll (objects s1) refs = Some elems /\
    calculatePenaltyOn s1 year startRoom txs
    = Some (calculatePenalty year startRoom elems, s2) /\
    arrays s2 !! txs = Some refs /\
    derefAll (objects s2) refs = Some elems.
Proof.
  intros Harr Hder.
  destruct (calculatePenaltyOn_spec s year startRoom txs refs elems Harr Hder)
    as (s1 & Hcall1 & Hobj1 & Hkeep1).
  assert (Harr1 : arrays s1 !! txs = Some refs).
  { rewrite Hkeep1; [exact Harr|]. rewrite Harr. now eexists. }
  assert (Hder1 : derefAll (objects s1) refs = Some elems).
  { now rewrite Hobj1. }
  destruct (calculatePenaltyOn_spec s1 year startRoom txs refs elems Harr1 Hder1)
    as (s2 & Hcall2 & Hobj2 & Hkeep2).
  exists s1, s2.
  split; [exact Hcall1|]. split; [exact Hobj1|]. split; [exact Hkeep1|].
  split; [exact Harr1|]. split; [exact Hder1|]. split; [exact Hcall2|].
  split.
  - rewrite Hkeep2; [exact Harr1|]. rewrite Harr1. now eexists.
  - now rewrite Hobj2.
Qed.

(** The sample store: the array at 0 still lists its two objects in the
    order the caller put them, after two calls with equal results. *)
Lemma C7_witness :
  exists s1 s2,
    calculatePenaltyOn sampleStore 2024 1000 0
    = Some (calculatePenalty 2024 1000
              [contribution "2024-03-01" 500; withdrawal "2024-01-02" 10], s1) /\
    objects s1 = objects sampleStore /\
    (forall l, is_Some (arrays sampleStore !! l) ->
               arrays s1 !! l = arrays sampleStore !! l) /\
    arrays s1 !! 0%nat = Some [0%nat; 1%nat] /\
    derefAll (objects s1) [0%nat; 1%nat]
    = Some [contribution "2024-03-01" 500; withdrawal "2024-01-02" 10] /\
    calculatePenaltyOn s1 2024 1000 0
    = Some (calculatePenalty 2024 1000
              [contribution "2024-03-01" 500; withdrawal "2024-01-02" 10], s2) /\
    arrays s2 !! 0%nat = Some [0%nat; 1%nat] /\
    derefAll (objects s2) [0%nat; 1%nat]
    = Some [contribution "2024-03-01" 500; withdrawal "2024-01-02" 10].
Proof.
  exact (C7_pure_and_non_mutating sampleStore 2024 1000 0 [0%nat; 1%nat]
           [contribution "2024-03-01" 500; withdrawal "2024-01-02" 10]
           eq_refl eq_refl).
Defined.

(** * Date strings and the calendar *)

(** Strings of one length compare before what follows them. *)
Lemma compare_app_same_length (p q a b : string) :
  String.length p = String.length q ->
  String.compare (p ++ a) (q ++ b)
  = match String.compare p q with
    | Eq => String.compare a b
    | c => c
    end.
Proof.
  revert q. induction p as [|x p IH]; intros [|y q] Hlen; try discriminate.
  - reflexivity.
  - injection Hlen as Hlen. simpl.
    destruct (Ascii.compare x y); [now apply IH | reflexivity | reflexivity].
Qed.

Lemma pad2_table :
  forallb (fun a =>
    Nat.eqb (String.length (JS.pad2 a)) 2 &&
    forallb (fun b =>
      comparison_eqb (String.compare (JS.pad2 a) (JS.pad2 b)) (Nat.compare a b))
      (seq 0 100)) (seq 0 100) = true.
Proof. vm_compute. reflexivity. Qed.

Lemma comparison_eqb_eq (a b : comparison) : comparison_eqb a b = true -> a = b.
Proof. now destruct a, b. Qed.

Lemma pad2_length (a : nat) : (a < 100)%nat -> String.length (JS.pad2 a) = 2%nat.
Proof.
  intros Ha. pose proof pad2_table as T.
  rewrite forallb_forall in T.
  specialize (T a). rewrite in_seq in T. specialize (T ltac:(lia)).
  apply andb_prop in T as [T _]. now apply Nat.eqb_eq.
Qed.

Lemma pad2_compare (a b : nat) :
  (a < 100)%nat -> (b < 100)%nat ->
  String.compare (JS.pad2 a) (JS.pad2 b) = Nat.compare a b.
Proof.
  intros Ha Hb. pose proof pad2_table as T.
  rewrite forallb_forall in T.
  specialize (T a). rewrite in_seq in T. specialize (T ltac:(lia)).
  apply andb_prop in T as [_ T].
  rewrite forallb_forall in T.
  specialize (T b). rewrite in_seq in T. specialize (T ltac:(lia)).
  now apply comparison_eqb_eq.
Qed.

(** Within a year, the date strings compare as month and day do. *)
Lemma formatDate_compare (yr : Z) (a b : UTCDate) :
  inYear yr a -> inYear yr b ->
  String.compare (formatDate a) (formatDate b) = compareMonthDay a b.
Proof.
  destruct a as [ya ma da], b as [yb mb db].
  intros (Ha & Hma & Hda) (Hb & Hmb & Hdb). cbn in *. subst ya yb.
  pose proof (daysInMonth_le_31 yr ma). pose proof (daysInMonth_le_31 yr mb).
  unfold formatDate, compareMonthDay. cbn [utcFullYear utcMonth utcDate].
  rewrite StringOrder.compare_app.
  rewrite (StringOrder.compare_app "-").
  rewrite compare_app_same_length
    by (rewrite !pad2_length by lia; reflexivity).
  rewrite pad2_compare by lia.
  change (S ma ?= S mb)%nat with (ma ?= mb)%nat.
  destruct (ma ?= mb)%nat; try reflexivity.
  rewrite (StringOrder.compare_app "-").
  apply pad2_compare; lia.
Qed.

Lemma daysBeforeMonth_mono (y : Z) (m m' : nat) :
  (m < m')%nat ->
  (daysBeforeMonth y m + daysInMonth y m <= daysBeforeMonth y m')%nat.
Proof.
  induction m' as [|m' IH]; intros H; [lia|].
  cbn [daysBeforeMonth].
  destruct (Nat.eq_dec m m') as [->|N]; [lia|].
  specialize (IH ltac:(lia)). lia.
Qed.

(** Within a year, the rank of a day compares as month and day do. *)
Lemma dayOfYear_compare (yr : Z) (a b : UTCDate) :
  inYear yr a -> inYear yr b ->
  Nat.compare (dayOfYear a) (dayOfYear b) = compareMonthDay a b.
Proof.
  destruct a as [ya ma da], b as [yb mb db].
  intros (Ha & Hma & Hda) (Hb & Hmb & Hdb). cbn in *. subst ya yb.
  unfold dayOfYear, compareMonthDay. cbn [utcFullYear utcMonth utcDate].
  destruct (Nat.compare_spec ma mb) as [->|L|G].
  - destruct (Nat.compare_spec da db) as [->|L|G].
    + apply Nat.compare_refl.
    + apply Nat.compare_lt_iff. lia.
    + apply Nat.compare_gt_iff. lia.
  - apply Nat.compare_lt_iff.
    pose proof (daysBeforeMonth_mono yr ma mb L). lia.
  - apply Nat.compare_gt_iff.
    pose proof (daysBeforeMonth_mono yr mb ma G). lia.
Qed.

Lemma formatDate_dayOfYear (yr : Z) (a b : UTCDate) :
  inYear yr a -> inYear yr b ->
  String.compare (formatDate a) (formatDate b)
  = Nat.compare (dayOfYear a) (dayOfYear b).
Proof.
  intros Ha Hb.
  now rewrite (formatDate_compare yr), (dayOfYear_compare yr).
Qed.

(** A day of a year is known by its rank. *)
Lemma dayOfYear_inj (yr : Z) (a b : UTCDate) :
  inYear yr a -> inYear yr b -> dayOfYear a = dayOfYear b -> a = b.
Proof.
  intros Ha Hb E.
  pose proof (dayOfYear_compare yr a b Ha Hb) as C.
  rewrite E, Nat.compare_refl in C.
  destruct a as [ya ma da], b as [yb mb db].
  destruct Ha as (Ha & _), Hb as (Hb & _). cbn in *. subst ya yb.
  unfold compareMonthDay in C. cbn in C.
  destruct (Nat.compare_spec ma mb) as [->|L|G]; try discriminate.
  symmetry in C. apply Nat.compare_eq_iff in C. now subst.
Qed.

Lemma formatDate_inj (yr : Z) (a b : UTCDate) :
  inYear yr a -> inYear yr b -> formatDate a = formatDate b -> a = b.
Proof.
  intros Ha Hb E. apply (dayOfYear_inj yr a b Ha Hb).
  apply Nat.compare_eq_iff. rewrite <- (formatDate_dayOfYear yr a b Ha Hb).
  rewrite E. apply StringOrder.compare_refl.
Qed.

(** * Calendar days and day numbers *)

Lemma dayFromYear_step (y : Z) :
  dayFromYear (y + 1) = dayFromYear y + Z.of_nat (daysInYear y).
Proof.
  unfold dayFromYear, daysInYear, isLeap.
  replace (y + 1 - 1970) with (y - 1969) by lia.
  replace (y + 1 - 1969) with (y - 1968) by lia.
  replace (y + 1 - 1901) with (y - 1900) by lia.
  replace (y + 1 - 1601) with (y - 1600) by lia.
  destruct (Z.eqb_spec (y mod 4) 0) as [H4|H4];
    destruct (Z.eqb_spec (y mod 100) 0) as [H100|H100];
    destruct (Z.eqb_spec (y mod 400) 0) as [H400|H400];
    cbn [negb andb orb Z.of_nat Pos.of_succ_nat];
    Z.div_mod_to_equations; lia.
Qed.

Lemma dayFromYear_mono (y y' : Z) :
  y <= y' -> dayFromYear y <= dayFromYear y'.
Proof.
  unfold dayFromYear. intros H. Z.div_mod_to_equations. lia.
Qed.

Lemma dayNumber_dayOfYear (c : UTCDate) :
  dayNumber c = dayFromYear (utcFullYear c) + Z.of_nat (dayOfYear c) - 1.
Proof. unfold dayNumber, dayOfYear. lia. Qed.

Lemma dayNumber_nextDay (c : UTCDate) :
  inYear (utcFullYear c) c ->
  dayNumber (nextDay c) = dayNumber c + 1 /\
  inYear (utcFullYear (nextDay c)) (nextDay c).
Proof.
  intros Hin. rewrite !dayNumber_dayOfYear.
  destruct (nextDay_inYear _ c Hin) as [[Hin' Hk]|[E Hk]].
  - destruct Hin' as (Hy & Hrest). split.
    + rewrite Hy, Hk. lia.
    + rewrite Hy. split; [exact Hy | exact Hrest].
  - rewrite E. cbn [utcFullYear]. split.
    + rewrite dayFromYear_step, Hk. unfold dayOfYear. cbn. lia.
    + unfold inYear. cbn. repeat split; lia.
Qed.

Lemma dateCivilLeb_dayNumber (a b : UTCDate) :
  inYear (utcFullYear a) a -> inYear (utcFullYear b) b ->
  dateCivilLeb a b = (dayNumber a <=? dayNumber b).
Proof.
  intros Ha Hb.
  pose proof (dayOfYear_bound _ a Ha) as Ba.
  pose proof (dayOfYear_bound _ b Hb) as Bb.
  rewrite !dayNumber_dayOfYear. unfold dateCivilLeb.
  destruct (Z.ltb_spec (utcFullYear a) (utcFullYear b)) as [L|L].
  - symmetry. apply Z.leb_le.
    pose proof (dayFromYear_step (utcFullYear a)) as S.
    pose proof (dayFromYear_mono (utcFullYear a + 1) (utcFullYear b)
                  ltac:(lia)) as M.
    lia.
  - destruct (Z.ltb_spec (utcFullYear b) (utcFullYear a)) as [G|G].
    + symmetry. apply Z.leb_gt.
      pose proof (dayFromYear_step (utcFullYear b)) as S.
      pose proof (dayFromYear_mono (utcFullYear b + 1) (utcFullYear a)
                    ltac:(lia)) as M.
      lia.
    + assert (E : utcFullYear a = utcFullYear b) by lia.
      rewrite E in Ha |- *.
      pose proof (dayOfYear_compare _ a b Ha Hb) as C.
      unfold compareMonthDay in C.
      destruct (Nat.ltb_spec (utcMonth a) (utcMonth b)) as [Lm|Lm].
      * apply Nat.compare_lt_iff in Lm. rewrite Lm in C.
        apply Nat.compare_lt_iff in C. symmetry. apply Z.leb_le. lia.
      * destruct (Nat.ltb_spec (utcMonth b) (utcMonth a)) as [Gm|Gm].
        -- apply Nat.compare_gt_iff in Gm. rewrite Gm in C.
           apply Nat.compare_gt_iff in C. symmetry. apply Z.leb_gt. lia.
        -- assert (Em : utcMonth a = utcMonth b) by lia.
           clear C. unfold dayOfYear. rewrite E, Em.
           destruct (Nat.leb_spec (utcDate a) (utcDate b)) as [Ld|Ld];
             symmetry; [apply Z.leb_le | apply Z.leb_gt]; lia.
Qed.

(** X18: on calendar days, the step of the cursor lands on the calendar
    day whose day number from the epoch is one more, across the ends of
    months and of years, leap years included, and the guard of the daily
    loop compares two days as their day numbers compare. *)
Theorem cursor_follows_day_numbers (a b : UTCDate) :
  inYear (utcFullYear a) a -> inYear (utcFullYear b) b ->
  dayNumber (nextDay a) = dayNumber a + 1 /\
  inYear (utcFullYear (nextDay a)) (nextDay a) /\
  dateCivilLeb a b = (dayNumber a <=? dayNumber b).
Proof.
  intros Ha Hb. destruct (dayNumber_nextDay a Ha) as [H1 H2].
  split; [exact H1|]. split; [exact H2|]. now apply dateCivilLeb_dayNumber.
Qed.

Lemma inYear_2023_12_31 : inYear 2023 (mkDate 2023 11 31).
Proof. unfold inYear. cbn. repeat split; lia. Defined.

Lemma inYear_2024_02_29 : inYear 2024 (mkDate 2024 1 29).
Proof. unfold inYear. vm_compute. repeat split; lia. Defined.

(** The last day of 2023 against February 29, 2024. *)
Lemma cursor_follows_day_numbers_witness :
  dayNumber (nextDay (mkDate 2023 11 31)) = dayNumber (mkDate 2023 11 31) + 1 /\
  inYear 2024 (nextDay (mkDate 2023 11 31)) /\
  dateCivilLeb (mkDate 2023 11 31) (mkDate 2024 1 29)
  = (dayNumber (mkDate 2023 11 31) <=? dayNumber (mkDate 2024 1 29)).
Proof.
  exact (cursor_follows_day_numbers (mkDate 2023 11 31) (mkDate 2024 1 29)
           inYear_2023_12_31 inYear_2024_02_29).
Defined.

(** * The walk through the year *)

(** ** The days of a year, listed *)

Lemma daysUpTo_spec (y : Z) (m : nat) :
  (m <= 12)%nat ->
  let l := flat_map (fun m => map (mkDate y m) (seq 1 (daysInMonth y m)))
             (seq 0 m) in
  length l = daysBeforeMonth y m /\
  forall k c, l !! k = Some c -> inYear y c /\ dayOfYear c = S k.
Proof.
  cbv zeta. induction m as [|m IH]; intros Hm.
  - split; [reflexivity|]. intros k c H. discriminate.
  - destruct (IH ltac:(lia)) as [Hlen Hlk]. clear IH.
    rewrite seq_S, flat_map_app. cbn [flat_map Nat.add].
    rewrite app_nil_r. split.
    + rewrite length_app, Hlen, length_map, length_seq. reflexivity.
    + intros k c H. apply lookup_app_Some in H as [H|[Hge H]].
      * now apply Hlk.
      * rewrite Hlen in Hge, H.
        change (map (mkDate y m) (seq 1 (daysInMonth y m)))
          with (mkDate y m <$> seq 1 (daysInMonth y m)) in H.
        rewrite list_lookup_fmap in H.
        destruct (seq 1 (daysInMonth y m) !! (k - daysBeforeMonth y m)%nat)
          as [d|] eqn:Hd; [|discriminate].
        injection H as <-. apply lookup_seq in Hd as [-> Hlt].
        unfold inYear, dayOfYear. cbn [utcFullYear utcMonth utcDate].
        repeat split; lia.
Qed.

Lemma daysOfYear_length (y : Z) : length (daysOfYear y) = daysInYear y.
Proof.
  unfold daysOfYear. rewrite (proj1 (daysUpTo_spec y 12 ltac:(lia))).
  unfold daysInYear. cbn. destruct (isLeap y); reflexivity.
Qed.

Lemma daysOfYear_lookup (y : Z) (k : nat) (c : UTCDate) :
  daysOfYear y !! k = Some c <-> inYear y c /\ dayOfYear c = S k.
Proof.
  split.
  - apply (proj2 (daysUpTo_spec y 12 ltac:(lia))).
  - intros [Hin Hk].
    pose proof (dayOfYear_bound y c Hin) as Hb.
    destruct (daysOfYear y !! k) as [c'|] eqn:E.
    + destruct (proj2 (daysUpTo_spec y 12 ltac:(lia)) k c' E) as [Hin' Hk'].
      f_equal. apply (dayOfYear_inj y); congruence.
    + apply lookup_ge_None in E. rewrite daysOfYear_length in E. lia.
Qed.

Lemma isDayOfYear_true (y : Z) (s : string) :
  isDayOfYear y s = true <-> exists c, inYear y c /\ s = formatDate c.
Proof.
  unfold isDayOfYear. rewrite existsb_exists. split.
  - intros (c & Hin & Heq). apply String.eqb_eq in Heq.
    apply list_elem_of_In, list_elem_of_lookup in Hin as [k Hk].
    apply daysOfYear_lookup in Hk as [Hc _]. now exists c.
  - intros (c & Hin & ->). exists c. split; [|apply String.eqb_refl].
    pose proof (dayOfYear_bound y c Hin) as Hb.
    apply list_elem_of_In, list_elem_of_lookup.
    exists (pred (dayOfYear c)). apply daysOfYear_lookup. split; [exact Hin|lia].
Qed.

(** ** The chart labels *)

Section Labels.

Variable sortedTxs : list Tx.
Variable yr : Z.

Lemma walked_dayBody (st : LoopState) (c : UTCDate) :
  walked yr st ->
  nextSimDay (Some (mkDate yr 11 31)) st = Some c ->
  walked yr (dayBody sortedTxs c st).
Proof.
  intros (k & Hd & He & Hc) Hnext.
  apply nextSimDay_Some in Hnext as [Hit Hle]. rewrite Hit in Hc.
  destruct Hc as [[Hin Hk]|[-> _]].
  2:{ cbn in Hle. now rewrite dateCivilLeb_nextYear in Hle. }
  assert (Hlk : daysOfYear yr !! k = Some c) by now apply daysOfYear_lookup.
  exists (S k). unfold dayBody. cbn [vizDataDates vizDataExcess iterDate].
  destruct (txLoop_frame sortedTxs (length sortedTxs) (formatDate c) st)
    as (_ & -> & -> & _).
  split; [|split].
  - rewrite (take_S_r _ _ _ Hlk), map_app, Hd. reflexivity.
  - rewrite length_app, He. cbn. lia.
  - destruct (nextDay_inYear yr c Hin) as [[Hin' Hk']|[-> Hk']].
    + left. split; [exact Hin'|lia].
    + right. split; [reflexivity|lia].
Qed.

Lemma walked_dailyLoop (n : nat) (st : LoopState) :
  walked yr st -> walked yr (dailyLoop n sortedTxs (Some (mkDate yr 11 31)) st).
Proof.
  apply (dailyLoop_ind sortedTxs (Some (mkDate yr 11 31)) (walked yr)).
  intros st' c. apply walked_dayBody.
Qed.

(** When the loop has stopped, the whole year has been walked. *)
Lemma walked_done (st : LoopState) :
  walked yr st ->
  nextSimDay (Some (mkDate yr 11 31)) st = None ->
  vizDataDates st = map formatDate (daysOfYear yr) /\
  length (vizDataExcess st) = daysInYear yr /\
  iterDate st = Some (mkDate (yr + 1) 0 1).
Proof.
  intros (k & Hd & He & Hc) Hnone. unfold nextSimDay in Hnone.
  destruct (iterDate st) as [c|]; [|contradiction].
  destruct Hc as [[Hin Hk]|[-> ->]].
  - cbn in Hnone. now rewrite (dateCivilLeb_inYear yr c Hin) in Hnone.
  - rewrite Hd, <- daysOfYear_length, firstn_all. now rewrite daysOfYear_length.
Qed.

End Labels.

Lemma validYear_true (year : Z) :
  validYear year = true ->
  Date_UTC year 0 1 = Some (mkDate (simYear year) 0 1) /\
  Date_UTC year 11 31 = Some (mkDate (simYear year) 11 31).
Proof.
  unfold validYear.
  destruct (Date_UTC year 0 1) as [a|] eqn:Ha; [|discriminate].
  destruct (Date_UTC year 11 31) as [b|] eqn:Hb; [|discriminate].
  apply Date_UTC_Some in Ha as ->. apply Date_UTC_Some in Hb as ->. now split.
Qed.

(** Outside the range of [Date], the daily loop does not run. *)
Lemma validYear_false (year : Z) (startRoom : float) (sortedTxs : list Tx)
    (n : nat) :
  validYear year = false ->
  stateAfterDays n year startRoom sortedTxs
  = initState startRoom (Date_UTC year 0 1).
Proof.
  unfold validYear, stateAfterDays. intros H.
  destruct (Date_UTC year 11 31) as [b|] eqn:Hb.
  - destruct (Date_UTC year 0 1) as [a|] eqn:Ha; [discriminate|].
    destruct n; reflexivity.
  - apply dailyLoop_invalid_end.
Qed.

Lemma initState_walked (year : Z) (startRoom : float) :
  validYear year = true ->
  walked (simYear year) (initState startRoom (Date_UTC year 0 1)).
Proof.
  intros H. destruct (validYear_true year H) as [-> _].
  exists 0%nat. cbn. repeat split. left. unfold inYear, dayOfYear. cbn.
  repeat split; lia.
Qed.

Lemma simulate_walked (year : Z) (startRoom : float) (sortedTxs : list Tx) :
  validYear year = true ->
  vizDataDates (simulate year startRoom sortedTxs)
  = map formatDate (daysOfYear (simYear year)) /\
  length (vizDataExcess (simulate year startRoom sortedTxs))
  = daysInYear (simYear year) /\
  iterDate (simulate year startRoom sortedTxs)
  = Some (mkDate (simYear year + 1) 0 1).
Proof.
  intros H.
  pose proof (proj1 (simulate_fuel_enough year startRoom sortedTxs 0)) as Hend.
  pose proof (initState_walked year startRoom H) as Hw.
  revert Hend. unfold simulate, stateAfterDays.
  destruct (validYear_true year H) as [Ha Hb]. rewrite Hb.
  intros Hend. apply (walked_done (simYear year)); [|exact Hend].
  now apply walked_dailyLoop.
Qed.

(** ** The entries the pointer reaches *)

Lemma sorted_lookup_le (l : list Tx) (i j : nat) (x y : Tx) :
  StronglySorted dateLe l ->
  l !! i = Some x -> l !! j = Some y -> (i <= j)%nat ->
  String.leb (date x) (date y) = true.
Proof.
  intros Hs. revert i j. induction Hs as [|a l Hs IH Hall]; intros i j Hi Hj Hij.
  - discriminate.
  - destruct i as [|i].
    + injection Hi as <-. destruct j as [|j].
      * injection Hj as <-. apply StringOrder.string_leb_refl.
      * cbn in Hj. rewrite List.Forall_forall in Hall.
        apply Hall. eapply lookup_In. exact Hj.
    + destruct j as [|j]; [lia|]. cbn in Hi, Hj. apply (IH i j); auto. lia.
Qed.

Lemma txIndex_txLoop_ge (l : list Tx) (fuel : nat) (d : string) (st : LoopState) :
  (txIndex st <= txIndex (txLoop fuel l d st))%nat.
Proof.
  revert st. induction fuel as [|fuel IH]; intros st; [cbn; lia|].
  cbn [txLoop]. destruct (nextTx l d st) as [tx|]; [|lia].
  specialize (IH (txStep tx st)). cbn in IH. lia.
Qed.

Lemma txIndex_txLoop_bound (l : list Tx) (fuel : nat) (d : string) (st : LoopState) :
  (txIndex st <= length l)%nat ->
  (txIndex (txLoop fuel l d st) <= length l)%nat.
Proof.
  apply (txLoop_ind l d (fun s => (txIndex s <= length l)%nat)).
  intros s tx Hs Hn. apply nextTx_Some in Hn as [Hlk _].
  apply lookup_lt_Some in Hlk. cbn. lia.
Qed.

Section Reach.

Variable l : list Tx.
Variable yr : Z.
Hypothesis l_sorted : StronglySorted dateLe l.
Hypothesis l_days : List.Forall (fun tx => isDayOfYear yr (date tx) = true) l.

Lemma l_day (i : nat) (tx : Tx) :
  l !! i = Some tx -> exists d, inYear yr d /\ date tx = formatDate d.
Proof.
  intros Hlk. apply isDayOfYear_true.
  rewrite List.Forall_forall in l_days. apply l_days.
  eapply lookup_In. exact Hlk.
Qed.

Lemma caughtUp_dayBody (st : LoopState) (c : UTCDate) :
  caughtUp yr l st ->
  nextSimDay (Some (mkDate yr 11 31)) st = Some c ->
  caughtUp yr l (dayBody l c st).
Proof.
  intros [Hidx Hc] Hnext.
  apply nextSimDay_Some in Hnext as [Hit Hle]. rewrite Hit in Hc.
  destruct Hc as [[Hin Hrest]|[-> _]].
  2:{ cbn in Hle. now rewrite dateCivilLeb_nextYear in Hle. }
  pose proof (proj1 (txLoop_fuel_enough l 0 (formatDate c) st)) as Hexit.
  pose proof (txIndex_txLoop_ge l (length l) (formatDate c) st) as Hge.
  pose proof (txIndex_txLoop_bound l (length l) (formatDate c) st Hidx) as Hbd.
  unfold dayBody, caughtUp. cbn [txIndex iterDate].
  revert Hexit Hge Hbd.
  generalize (txLoop (length l) l (formatDate c) st). intros st1 Hexit Hge Hbd.
  split; [exact Hbd|].
  (* every entry from the pointer on is dated after [c] *)
  assert (Hafter : forall i tx, l !! i = Some tx -> (txIndex st1 <= i)%nat ->
            exists d, inYear yr d /\ date tx = formatDate d /\
                      (dayOfYear c < dayOfYear d)%nat).
  { intros i tx Hlk Hi.
    destruct (l !! txIndex st1) as [tx0|] eqn:Hp.
    2:{ apply lookup_ge_None in Hp. apply lookup_lt_Some in Hlk. lia. }
    destruct (l_day i tx Hlk) as (d & Hd & Edate).
    exists d. split; [exact Hd|]. split; [exact Edate|].
    assert (H0 : String.leb (formatDate c) (date tx0) = true).
    { apply (Hrest (txIndex st1)); [exact Hp|lia]. }
    assert (N0 : date tx0 <> formatDate c).
    { unfold nextTx in Hexit. rewrite Hp in Hexit.
      destruct (String.eqb (date tx0) (formatDate c)) eqn:E; [discriminate|].
      now apply String.eqb_neq. }
    pose proof (sorted_lookup_le l _ _ _ _ l_sorted Hp Hlk Hi) as H1.
    assert (Hlt : String.compare (formatDate c) (date tx) = Lt).
    { unfold String.leb in H0, H1.
      destruct (String.compare (formatDate c) (date tx0)) eqn:C0;
        try discriminate.
      - apply String.compare_eq_iff in C0. congruence.
      - destruct (String.compare (date tx0) (date tx)) eqn:C1;
          try discriminate.
        + apply String.compare_eq_iff in C1. now rewrite <- C1.
        + now apply (StringOrder.compare_lt_trans _ (date tx0)). }
    rewrite Edate, (formatDate_dayOfYear yr c d Hin Hd) in Hlt.
    now apply Nat.compare_lt_iff. }
  destruct (nextDay_inYear yr c Hin) as [[Hin' Hk']|[-> Hk']].
  - left. split; [exact Hin'|]. intros i tx Hlk Hi.
    destruct (Hafter i tx Hlk Hi) as (d & Hd & -> & Hlt).
    unfold String.leb.
    rewrite (formatDate_dayOfYear yr _ d Hin' Hd), Hk'.
    destruct (Nat.compare_spec (S (dayOfYear c)) (dayOfYear d)); try reflexivity.
    lia.
  - right. split; [reflexivity|].
    destruct (l !! txIndex st1) as [tx0|] eqn:Hp.
    + destruct (Hafter _ tx0 Hp (Nat.le_refl _)) as (d & Hd & _ & Hlt).
      pose proof (dayOfYear_bound yr d Hd). lia.
    + apply lookup_ge_None in Hp. lia.
Qed.

Lemma caughtUp_dailyLoop (n : nat) (st : LoopState) :
  caughtUp yr l st -> caughtUp yr l (dailyLoop n l (Some (mkDate yr 11 31)) st).
Proof.
  apply (dailyLoop_ind l (Some (mkDate yr 11 31)) (caughtUp yr l)).
  intros st' c. apply caughtUp_dayBody.
Qed.

Lemma caughtUp_init (startRoom : float) :
  caughtUp yr l (initState startRoom (Some (mkDate yr 0 1))).
Proof.
  split; [cbn; lia|]. cbn [iterDate initState]. left.
  split; [unfold inYear; cbn; repeat split; lia|].
  intros i tx Hlk _. destruct (l_day i tx Hlk) as (d & Hd & ->).
  apply formatDate_bounds, Hd.
Qed.

End Reach.

Lemma takeWhile_split {A : Type} (f : A -> bool) (l : list A) :
  List.Forall (fun x => f x = true) (takeWhile f l) /\
  (l = takeWhile f l \/
   exists b post, l = takeWhile f l ++ b :: post /\ f b = false).
Proof.
  induction l as [|x l [IHa IHb]]; cbn.
  - split; [constructor | now left].
  - destruct (f x) eqn:E.
    + split; [now constructor|].
      destruct IHb as [IHb|(b & post & IHb & Hb)].
      * left. f_equal. exact IHb.
      * right. exists b, post. split; [|exact Hb].
        change (x :: l = x :: (takeWhile f l ++ b :: post)).
        f_equal. exact IHb.
    + split; [constructor|]. right. now exists x, l.
Qed.

Lemma takeWhile_all {A : Type} (f : A -> bool) (l : list A) :
  List.Forall (fun x => f x = true) l -> takeWhile f l = l.
Proof.
  induction 1 as [|x l Hx _ IH]; cbn; [reflexivity|]. now rewrite Hx, IH.
Qed.

(** A sorted ledger of entries all dated within the year is applied whole. *)
Lemma simulate_complete (year : Z) (startRoom : float) (l : list Tx) :
  validYear year = true ->
  StronglySorted dateLe l ->
  List.Forall (fun tx => isDayOfYear (simYear year) (date tx) = true) l ->
  txIndex (simulate year startRoom l) = length l /\
  ledger (simulate year startRoom l) = applyAll l (initLedger startRoom).
Proof.
  intros Hv Hs Hd.
  destruct (simulate_walked year startRoom l Hv) as (_ & _ & Hit).
  pose proof (caughtUp_init l (simYear year) Hd startRoom) as H0.
  pose proof (caughtUp_dailyLoop l (simYear year) Hs Hd 366 _ H0) as [_ Hc].
  pose proof (prefixInv_dailyLoop l (initLedger startRoom)
                (Some (mkDate (simYear year) 11 31)) 366 _
                (initState_prefixInv l startRoom
                   (Some (mkDate (simYear year) 0 1)))) as [_ Hp].
  revert Hit Hc Hp. unfold simulate, stateAfterDays.
  destruct (validYear_true year Hv) as [-> ->].
  generalize (dailyLoop 366 l (Some (mkDate (simYear year) 11 31))
                (initState startRoom (Some (mkDate (simYear year) 0 1)))).
  intros st Hit Hc Hp. rewrite Hit in Hc.
  assert (Hidx : txIndex st = length l).
  { destruct Hc as [[(Hy & _) _]|[_ Hc]]; [cbn in Hy; lia | exact Hc]. }
  split; [exact Hidx|]. rewrite Hp, Hidx, firstn_all. reflexivity.
Qed.

(** The daily loop applies the sorted ledger up to its first entry that is
    not dated on a day of the year. *)
Lemma simulate_reached (year : Z) (startRoom : float) (sorted : list Tx) :
  validYear year = true ->
  StronglySorted dateLe sorted ->
  txIndex (simulate year startRoom sorted)
  = length (reachedTxs (simYear year) sorted) /\
  ledger (simulate year startRoom sorted)
  = applyAll (reachedTxs (simYear year) sorted) (initLedger startRoom).
Proof.
  intros Hv Hs. unfold reachedTxs.
  destruct (takeWhile_split
              (fun tx => isDayOfYear (simYear year) (date tx)) sorted)
    as [Hall [Heq|(b & post & Heq & Hb)]].
  - rewrite <- Heq in Hall |- *.
    apply simulate_complete; [exact Hv | exact Hs | exact Hall].
  - revert Hall Heq.
    generalize (takeWhile (fun tx => isDayOfYear (simYear year) (date tx)) sorted).
    intros pre Hall Heq. subst sorted.
    assert (E : simulate year startRoom (pre ++ b :: post)
                = simulate year startRoom pre).
    { unfold simulate, stateAfterDays.
      destruct (validYear_true year Hv) as [Ha Hb']. rewrite Hb'.
      apply (dailyLoop_blocked pre post b (simYear year)).
      - intros c Hc E.
        assert (isDayOfYear (simYear year) (date b) = true)
          by (apply isDayOfYear_true; now exists c).
        congruence.
      - apply initState_cursorOk.
      - cbn. lia. }
    rewrite E. apply simulate_complete; [exact Hv | | exact Hall].
    now apply sorted_app_l in Hs.
Qed.

(** X1: the chart holds one point for each calendar day of the simulated
    year, January 1 to December 31 in order (365 of them, 366 in a leap
    year), and none at all when the year is outside the range of Date. *)
Theorem chart_covers_the_year (year : Z) (startRoom : float) (txs : list Tx) :
  let r := calculatePenalty year startRoom txs in
  labels (vizData r)
  = (if validYear year then map formatDate (daysOfYear (simYear year)) else []) /\
  length (data (vizData r)) = length (labels (vizData r)) /\
  length (daysOfYear (simYear year))
  = (if isLeap (simYear year) then 366 else 365)%nat.
Proof.
  cbv zeta. unfold calculatePenalty.
  change (labels (vizData (resultOf year startRoom (sortTxs txs))))
    with (vizDataDates (simulate year startRoom (sortTxs txs))).
  change (data (vizData (resultOf year startRoom (sortTxs txs))))
    with (vizDataExcess (simulate year startRoom (sortTxs txs))).
  split; [|split].
  - destruct (validYear year) eqn:Hv.
    + apply simulate_walked, Hv.
    + unfold simulate. now rewrite validYear_false.
  - destruct (validYear year) eqn:Hv.
    + destruct (simulate_walked year startRoom (sortTxs txs) Hv) as (-> & -> & _).
      now rewrite length_map, daysOfYear_length.
    + unfold simulate. now rewrite validYear_false.
  - apply daysOfYear_length.
Qed.

(** X2: the totals and the closing excess of the result are those of the
    entries of the sorted ledger up to the first one that is not dated on a
    day of the simulated year, applied in that order to the opening
    figures; a ledger dated wholly within the year is applied in full. *)
Theorem engine_applies_reached_prefix (year : Z) (startRoom : float)
    (txs : list Tx) :
  let r := calculatePenalty year startRoom txs in
  let l := applyAll (appliedTxs year txs) (initLedger startRoom) in
  resTotalContributions r = totalContributions l /\
  resTotalWithdrawals r = totalWithdrawals l /\
  currentExcess r = excess l /\
  (validYear year = true ->
   forallb (fun tx => isDayOfYear (simYear year) (date tx)) txs = true ->
   appliedTxs year txs = sortTxs txs).
Proof.
  cbv zeta. unfold calculatePenalty.
  destruct (resultOf_projection year startRoom (sortTxs txs))
    as (-> & -> & -> & _).
  assert (E : ledger (simulate year startRoom (sortTxs txs))
              = applyAll (appliedTxs year txs) (initLedger startRoom)).
  { unfold appliedTxs. destruct (validYear year) eqn:Hv.
    - apply simulate_reached; [exact Hv | apply sortTxs_sorted].
    - unfold simulate. now rewrite validYear_false. }
  rewrite E. repeat split.
  intros Hv Hall. unfold appliedTxs, reachedTxs. rewrite Hv.
  apply takeWhile_all.
  apply (Forall_sortTxs (fun tx => isDayOfYear (simYear year) (date tx) = true)).
  rewrite forallb_forall in Hall. now apply List.Forall_forall.
Qed.

(** * More on signs and order of binary64 numbers *)

Module FloatSigns.

Import FloatOrder FloatFacts.

(** A number above one whose sign bit is clear has its own sign bit clear. *)
Lemma above_plus (a e : float) : plus a -> PrimFloat.ltb a e = true -> plus e.
Proof.
  intros Ha Hlt. apply ltb_iff in Hlt as (_ & Ne & Hlt).
  pose proof (plus_fval a Ha) as H0.
  assert (Hpos : PrimFloat.ltb 0 e = true).
  { apply ltb_iff. rewrite fval_zero. repeat split; auto using notnan_zero. lia. }
  unfold plus.
  destruct (pos_inv e Hpos) as [(m & x & -> & _)| ->]; reflexivity.
Qed.

(** The penalty rate keeps the sign bit clear. *)
Lemma mul_rate_plus (x : float) : plus x -> plus (x * 0.01).
Proof.
  intros Hx. unfold plus. rewrite mul_spec.
  destruct (plus_inv x Hx) as [Ex|[(m & e & Ex)|Ex]]; rewrite Ex.
  - reflexivity.
  - unfold SFfin.
    change (Prim2SF 0.01) with (S754_finite false 5764607523034235 (-59)).
    cbn [SF64mul SFmul xorb].
    apply binary_round_aux_signed. lia.
  - reflexivity.
Qed.

Lemma sum_plus (xs : list float) (acc : float) :
  plus acc -> List.Forall plus xs -> plus (fold_left PrimFloat.add xs acc).
Proof.
  intros Hacc Hxs. revert acc Hacc.
  induction Hxs as [|x xs Hx _ IH]; intros acc Hacc; [exact Hacc|].
  cbn [fold_left]. apply IH. now apply add_plus.
Qed.

(** Not above, between numbers: at or below. *)
Lemma not_gt_le (e h : float) :
  notnan e = true -> notnan h = true ->
  JS.gt e h = false -> fval e <= fval h.
Proof.
  intros Ne Nh H. unfold JS.gt in H. now apply (ltb_false_iff h e Nh Ne).
Qed.

Lemma gt_false_trans (e h p : float) :
  notnan h = true -> notnan p = true ->
  JS.gt e h = false -> JS.gt h p = false -> JS.gt e p = false.
Proof.
  intros Nh Np H1 H2. unfold JS.gt.
  destruct (notnan e) eqn:Ne; [|now apply ltb_nan_r].
  apply (ltb_false_iff p e Np Ne).
  pose proof (not_gt_le e h Ne Nh H1). pose proof (not_gt_le h p Nh Np H2). lia.
Qed.

(** The high-water mark has its sign bit clear. *)
Lemma highWater_plus (es : list float) : plus (highWater es).
Proof.
  unfold highWater. generalize plus_zero. generalize 0%float.
  induction es as [|e es IH]; intros acc Hacc; [exact Hacc|].
  cbn [fold_left]. apply IH.
  destruct (JS.gt e acc) eqn:G; [|exact Hacc].
  now apply (above_plus acc).
Qed.

Lemma plus_not_gt_zero (x : float) : plus x -> JS.gt x 0 = false -> x = 0%float.
Proof.
  intros Hx H. apply plus_fval_zero; [exact Hx|].
  pose proof (plus_fval x Hx).
  pose proof (not_gt_le x 0 (plus_notnan x Hx) notnan_zero H) as L.
  rewrite fval_zero in L. lia.
Qed.

End FloatSigns.

(** * The figures of the result *)

Section Figures.

Import FloatOrder FloatFacts FloatSigns.

(** The twelve monthly maxima have their sign bit clear. *)
Lemma simulate_maxes_plus (year : Z) (startRoom : float) (sortedTxs : list Tx) :
  length (monthlyMaxExcess (simulate year startRoom sortedTxs)) = 12%nat /\
  List.Forall plus (monthlyMaxExcess (simulate year startRoom sortedTxs)).
Proof.
  destruct (simulate_trace year startRoom sortedTxs) as (_ & Hl & Hm).
  split; [exact Hl|].
  apply List.Forall_forall. intros m Hin.
  apply list_elem_of_In, list_elem_of_lookup in Hin as [i Hi].
  pose proof (lookup_lt_Some _ _ _ Hi) as Hlt. rewrite Hl in Hlt.
  rewrite (Hm i Hlt) in Hi. injection Hi as <-. apply highWater_plus.
Qed.

Lemma Forall_plus_ge (l : list float) :
  List.Forall plus l -> List.Forall (fun m => JS.ge m 0 = true) l.
Proof.
  apply List.Forall_impl. intros m Hm. unfold JS.ge. now apply plus_nonneg.
Qed.

Lemma Math_max_plus (l : list float) :
  l <> [] -> List.Forall plus l ->
  plus (JS.Math_max l) /\ In (JS.Math_max l) l /\
  List.Forall (fun m => JS.gt m (JS.Math_max l) = false) l.
Proof.
  intros Hne Hall.
  destruct (Math_max_spec l Hne (Forall_plus_ge l Hall)) as [Hin Hle].
  split; [|now split].
  rewrite List.Forall_forall in Hall. now apply Hall.
Qed.

Lemma finalize_plus (maxes : list float) :
  List.Forall plus maxes ->
  plus (finPenalty (finalize maxes)) /\
  List.Forall (fun r => plus (maxExcess r) /\ plus (penalty r))
    (finDetails (finalize maxes)) /\
  (finAffected (finalize maxes) <= length maxes)%nat.
Proof.
  intros Hall.
  pose proof (finalizeFrom_spec (mkFin 0 0 []) 0 maxes) as (Fp & Fa & Fd).
  fold (finalize maxes) in Fp, Fa, Fd. cbn [finPenalty finAffected finDetails] in *.
  split; [|split].
  - rewrite Fp. apply sum_plus; [apply plus_zero|].
    apply List.Forall_forall. intros p Hp. apply in_map_iff in Hp as (m & <- & Hm).
    apply mul_rate_plus. rewrite List.Forall_forall in Hall. now apply Hall.
  - rewrite Fd. cbn [app]. apply List.Forall_forall. intros r Hr.
    apply list_elem_of_In, list_elem_of_lookup in Hr as [i Hi].
    rewrite list_lookup_imap in Hi.
    destruct (maxes !! i) as [m|] eqn:Hm; [|discriminate].
    injection Hi as <-. cbn [maxExcess penalty monthlyRecord].
    assert (plus m).
    { rewrite List.Forall_forall in Hall. apply Hall.
      eapply lookup_In. exact Hm. }
    split; [assumption | now apply mul_rate_plus].
  - rewrite Fa. cbn. apply filter_length_le.
Qed.

End Figures.

(** X3: whatever the inputs, the total penalty, the peak excess and the
    maximum and penalty of every month are numbers at or above zero, never
    NaN, and at most twelve months are affected. *)
Theorem result_figures_nonnegative (year : Z) (startRoom : float)
    (txs : list Tx) :
  let r := calculatePenalty year startRoom txs in
  JS.ge (totalPenalty r) 0 = true /\
  JS.ge (peakExcess r) 0 = true /\
  List.Forall (fun m => JS.ge (maxExcess m) 0 = true /\
                        JS.ge (penalty m) 0 = true)
    (monthlyDetails r) /\
  (affectedMonths r <= 12)%nat.
Proof.
  cbv zeta. unfold calculatePenalty.
  destruct (resultOf_aggregates year startRoom (sortTxs txs))
    as (-> & -> & -> & -> & _).
  destruct (simulate_maxes_plus year startRoom (sortTxs txs)) as [Hl Hall].
  revert Hl Hall.
  generalize (monthlyMaxExcess (simulate year startRoom (sortTxs txs))).
  intros maxes Hl Hall.
  destruct (finalize_plus maxes Hall) as (Hp & Hd & Ha).
  assert (Hne : maxes <> []) by (intros E; rewrite E in Hl; discriminate).
  destruct (Math_max_plus maxes Hne Hall) as (Hpk & _).
  unfold JS.ge. split; [|split; [|split]].
  - now apply FloatFacts.plus_nonneg.
  - now apply FloatFacts.plus_nonneg.
  - revert Hd. apply List.Forall_impl. intros r [H1 H2].
    split; now apply FloatFacts.plus_nonneg.
  - lia.
Qed.

Section Peak.

Import FloatOrder FloatFacts FloatSigns.

Lemma zero_maxes_penalty (maxes : list float) (acc : float) :
  List.Forall (fun m => m = 0%float) maxes ->
  fold_left PrimFloat.add (map (fun m => (m * 0.01)%float) maxes) acc
  = fold_left PrimFloat.add (map (fun _ => 0%float) maxes) acc.
Proof.
  intros H. revert acc. induction H as [|m l -> _ IH]; intros acc; [reflexivity|].
  cbn [map fold_left]. rewrite IH. reflexivity.
Qed.

Lemma add_zeros (n : list float) :
  fold_left PrimFloat.add (map (fun _ => 0%float) n) 0%float = 0%float.
Proof. induction n as [|x n IH]; [reflexivity|]. cbn [map fold_left]. exact IH. Qed.

Lemma maxes_affected (maxes : list float) :
  maxes <> [] -> List.Forall plus maxes ->
  (JS.gt (JS.Math_max maxes) 0 = true <->
   (0 < length (List.filter (fun m => JS.gt m 0) maxes))%nat) /\
  (length (List.filter (fun m => JS.gt m 0) maxes) = 0%nat ->
   List.Forall (fun m => m = 0%float) maxes).
Proof.
  intros Hne Hall.
  destruct (Math_max_plus maxes Hne Hall) as (Hpk & Hin & Hle).
  split; [split|].
  - intros Hgt.
    assert (In (JS.Math_max maxes) (List.filter (fun m => JS.gt m 0) maxes))
      by (apply List.filter_In; now split).
    destruct (List.filter _ maxes); [contradiction | cbn; lia].
  - intros Hpos.
    destruct (List.filter (fun m => JS.gt m 0) maxes) as [|m rest] eqn:E;
      [cbn in Hpos; lia|].
    assert (Hm : In m (List.filter (fun m => JS.gt m 0) maxes))
      by (rewrite E; now left).
    apply List.filter_In in Hm as [Hm Hgt].
    rewrite List.Forall_forall in Hle, Hall.
    specialize (Hle m Hm). specialize (Hall m Hm).
    unfold JS.gt in *. apply ltb_iff in Hgt as (_ & Nm & Hgt).
    apply ltb_iff. split; [exact notnan_zero|].
    split; [now apply plus_notnan|].
    pose proof (not_gt_le m _ Nm (plus_notnan _ Hpk) Hle). lia.
  - intros H0. apply List.Forall_forall. intros m Hm.
    rewrite List.Forall_forall in Hall.
    apply plus_not_gt_zero; [now apply Hall|].
    destruct (JS.gt m 0) eqn:G; [|reflexivity].
    assert (In m (List.filter (fun m => JS.gt m 0) maxes))
      by (apply List.filter_In; now split).
    destruct (List.filter _ maxes); [contradiction | discriminate].
Qed.

End Peak.

(** X4: the peak excess is above zero exactly when some month is affected;
    when no month is affected, the peak excess and the total penalty are
    both zero. *)
Theorem peak_positive_iff_affected (year : Z) (startRoom : float)
    (txs : list Tx) :
  let r := calculatePenalty year startRoom txs in
  (JS.gt (peakExcess r) 0 = true <-> (0 < affectedMonths r)%nat) /\
  (affectedMonths r = 0%nat ->
   peakExcess r = 0%float /\ totalPenalty r = 0%float).
Proof.
  cbv zeta. unfold calculatePenalty.
  destruct (resultOf_aggregates year startRoom (sortTxs txs))
    as (-> & -> & -> & _).
  destruct (simulate_maxes_plus year startRoom (sortTxs txs)) as [Hl Hall].
  revert Hl Hall.
  generalize (monthlyMaxExcess (simulate year startRoom (sortTxs txs))).
  intros maxes Hl Hall.
  assert (Hne : maxes <> []) by (intros E; rewrite E in Hl; discriminate).
  pose proof (finalizeFrom_spec (mkFin 0 0 []) 0 maxes) as (Fp & Fa & _).
  fold (finalize maxes) in Fp, Fa. cbn [finPenalty finAffected] in Fp, Fa.
  rewrite Fp, Fa. cbn [Nat.add].
  destruct (maxes_affected maxes Hne Hall) as [Hiff Hzero].
  split; [exact Hiff|].
  intros H0. specialize (Hzero H0). split.
  - destruct (Math_max_plus maxes Hne Hall) as (_ & Hin & _).
    rewrite List.Forall_forall in Hzero. now apply Hzero.
  - rewrite (zero_maxes_penalty maxes 0 Hzero). apply add_zeros.
Qed.

(** ** The peak and the daily series *)

Lemma simulatedDay_inYear (n : nat) (year : Z) (startRoom : float)
    (sortedTxs : list Tx) (c : UTCDate) :
  simulatedDay n year startRoom sortedTxs = Some c -> inYear (simYear year) c.
Proof.
  unfold simulatedDay, stateAfterDays.
  destruct (Date_UTC year 11 31) as [e|] eqn:He.
  - apply Date_UTC_Some in He as ->.
    apply nextSimDay_inYear, dailyLoop_cursorOk, initState_cursorOk.
  - unfold nextSimDay. destruct (iterDate _); [|discriminate].
    cbn. discriminate.
Qed.

Lemma dayTrace_months (n : nat) (year : Z) (startRoom : float)
    (sortedTxs : list Tx) (m : nat) (e : float) :
  In (m, e) (dayTrace n year startRoom sortedTxs) -> (m < 12)%nat.
Proof.
  unfold dayTrace. intros Hin.
  apply list_elem_of_In, list_elem_of_omap in Hin as (k & _ & Hk).
  destruct (simulatedDay k year startRoom sortedTxs) as [c|] eqn:Hc;
    [|discriminate].
  injection Hk as <- _.
  apply simulatedDay_inYear in Hc as (_ & Hm & _). lia.
Qed.

Lemma monthExcesses_In (m : nat) (e : float) (trace : list (nat * float)) :
  In (m, e) trace -> In e (monthExcesses m trace).
Proof.
  intros Hin. unfold monthExcesses.
  apply in_map_iff. exists (m, e). split; [reflexivity|].
  apply List.filter_In. split; [exact Hin|]. cbn. apply Nat.eqb_refl.
Qed.

Lemma lastSync_dailyLoop (sortedTxs : list Tx) (endDate : option UTCDate)
    (n : nat) (st : LoopState) :
  lastSync st -> lastSync (dailyLoop n sortedTxs endDate st).
Proof.
  apply (dailyLoop_ind sortedTxs endDate lastSync).
  intros s c _ _. right. unfold dayBody. cbn [vizDataExcess ledger].
  apply last_snoc.
Qed.

(** X5: no daily value of the chart is above the peak excess, and the last
    daily value is the closing excess of the result. *)
Theorem peak_bounds_daily_series (year : Z) (startRoom : float)
    (txs : list Tx) :
  let r := calculatePenalty year startRoom txs in
  List.Forall (fun e => JS.gt e (peakExcess r) = false) (data (vizData r)) /\
  last (data (vizData r))
  = (if validYear year then Some (currentExcess r) else None).
Proof.
  cbv zeta. unfold calculatePenalty.
  destruct (resultOf_aggregates year startRoom (sortTxs txs))
    as (_ & -> & _ & _ & ->).
  destruct (resultOf_projection year startRoom (sortTxs txs))
    as (_ & _ & -> & _).
  split.
  - destruct (simulate_trace year startRoom (sortTxs txs)) as (-> & Hl & Hm).
    destruct (simulate_maxes_plus year startRoom (sortTxs txs)) as [_ Hall].
    pose proof (dayTrace_months 366 year startRoom (sortTxs txs)) as Hmon.
    revert Hl Hm Hall Hmon.
    generalize (dayTrace 366 year startRoom (sortTxs txs)).
    generalize (monthlyMaxExcess (simulate year startRoom (sortTxs txs))).
    intros maxes trace Hl Hm Hall Hmon.
    assert (Hne : maxes <> []) by (intros E; rewrite E in Hl; discriminate).
    destruct (Math_max_plus maxes Hne Hall) as (Hpk & _ & Hle).
    apply List.Forall_forall. intros e He.
    apply in_map_iff in He as ([m e'] & <- & Hin). cbn [snd].
    pose proof (Hmon m e' Hin) as Hlt.
    pose proof (Hm m Hlt) as Hlk.
    destruct (highWater_spec (monthExcesses m trace)) as (_ & Hhw & _).
    rewrite List.Forall_forall in Hhw, Hle.
    apply (FloatSigns.gt_false_trans e' (highWater (monthExcesses m trace))).
    + apply FloatFacts.plus_notnan, FloatSigns.highWater_plus.
    + now apply FloatFacts.plus_notnan.
    + apply Hhw. now apply monthExcesses_In.
    + apply Hle. eapply lookup_In. exact Hlk.
  - destruct (validYear year) eqn:Hv.
    + destruct (simulate_walked year startRoom (sortTxs txs) Hv) as (_ & Hlen & _).
      assert (Hs : lastSync (simulate year startRoom (sortTxs txs))).
      { unfold simulate, stateAfterDays. apply lastSync_dailyLoop. now left. }
      revert Hlen Hs.
      generalize (simulate year startRoom (sortTxs txs)). intros st Hlen [E|E].
      * rewrite E in Hlen. cbn in Hlen. unfold daysInYear in Hlen.
        destruct (isLeap _); discriminate.
      * exact E.
    + unfold simulate. now rewrite validYear_false.
Qed.

(** ** A ledger without contributions *)

Section Quiet.

Variable sortedTxs : list Tx.
Variable startRoom : float.
Hypothesis no_contribution :
  List.Forall (fun tx => type tx <> "CONTRIBUTION"%string) sortedTxs.

Lemma quiet_txStep (d : string) (st : LoopState) (tx : Tx) :
  quiet startRoom st -> nextTx sortedTxs d st = Some tx ->
  quiet startRoom (txStep tx st).
Proof.
  intros (He & Hu & Hc & Hm & Hv) Hn.
  apply nextTx_Some in Hn as [Hlk _].
  assert (Hty : String.eqb (type tx) "CONTRIBUTION" = false).
  { apply String.eqb_neq. rewrite List.Forall_forall in no_contribution.
    apply no_contribution. eapply lookup_In. exact Hlk. }
  unfold quiet, txStep, applyTx.
  cbn [ledger monthlyMaxExcess vizDataExcess]. rewrite Hty, He.
  change (JS.gt 0 0) with false.
  destruct (String.eqb (type tx) "WITHDRAWAL");
    cbn [excess unusedRoom totalContributions]; auto.
Qed.

Lemma quiet_dayBody (c : UTCDate) (st : LoopState) :
  quiet startRoom st -> quiet startRoom (dayBody sortedTxs c st).
Proof.
  intros Hq.
  assert (Hq1 : quiet startRoom
                  (txLoop (length sortedTxs) sortedTxs (formatDate c) st)).
  { revert Hq. apply (txLoop_ind sortedTxs (formatDate c) (quiet startRoom)).
    intros s tx. apply quiet_txStep. }
  unfold dayBody. cbv zeta.
  revert Hq1. generalize (txLoop (length sortedTxs) sortedTxs (formatDate c) st).
  intros st1 (He & Hu & Hc & Hm & Hv).
  unfold quiet. cbn [ledger monthlyMaxExcess vizDataExcess].
  repeat split; auto.
  - unfold trackMax. rewrite Hm, He.
    destruct (replicate 12 0%float !! utcMonth c) as [m|] eqn:E; [|reflexivity].
    apply lookup_replicate in E as [-> _]. reflexivity.
  - apply List.Forall_app. split; [exact Hv|]. now constructor.
Qed.

Lemma quiet_dailyLoop (endDate : option UTCDate) (n : nat) (st : LoopState) :
  quiet startRoom st -> quiet startRoom (dailyLoop n sortedTxs endDate st).
Proof.
  apply (dailyLoop_ind sortedTxs endDate (quiet startRoom)).
  intros s c Hq _. now apply quiet_dayBody.
Qed.

End Quiet.

Lemma initState_quiet (startRoom : float) (d : option UTCDate) :
  JS.lt startRoom 0 = false -> quiet startRoom (initState startRoom d).
Proof.
  intros H. unfold quiet, initState, initLedger. rewrite H. cbn.
  repeat split. constructor.
Qed.

(** X6: from a starting room that is not negative, a ledger without any
    contribution (withdrawals, or entries of an unknown type) leaves no
    excess on any day: no penalty, no affected month, and the contributions
    total stays 0. *)
Theorem no_contribution_no_penalty (year : Z) (startRoom : float)
    (txs : list Tx) :
  List.Forall (fun tx => type tx <> "CONTRIBUTION"%string) txs ->
  JS.lt startRoom 0 = false ->
  let r := calculatePenalty year startRoom txs in
  totalPenalty r = 0%float /\ peakExcess r = 0%float /\
  affectedMonths r = 0%nat /\ currentExcess r = 0%float /\
  resTotalContributions r = 0%float /\
  List.Forall (fun e => e = 0%float) (data (vizData r)).
Proof.
  intros Hty Hs. cbv zeta. unfold calculatePenalty.
  destruct (resultOf_aggregates year startRoom (sortTxs txs))
    as (-> & -> & -> & _ & ->).
  destruct (resultOf_projection year startRoom (sortTxs txs))
    as (-> & _ & -> & _).
  assert (Hq : quiet startRoom (simulate year startRoom (sortTxs txs))).
  { unfold simulate, stateAfterDays. apply quiet_dailyLoop.
    - now apply Forall_sortTxs.
    - now apply initState_quiet. }
  revert Hq. generalize (simulate year startRoom (sortTxs txs)).
  intros st (He & Hu & Hc & Hm & Hv). rewrite Hm.
  repeat split; try assumption; vm_compute; reflexivity.
Qed.

Lemma withdrawalsOnly_types :
  List.Forall (fun tx => type tx <> "CONTRIBUTION"%string) withdrawalsOnly.
Proof. repeat constructor; discriminate. Defined.

(** Two withdrawals against a room of 1,000. *)
Lemma no_contribution_no_penalty_witness :
  let r := calculatePenalty 2024 1000 withdrawalsOnly in
  totalPenalty r = 0%float /\ peakExcess r = 0%float /\
  affectedMonths r = 0%nat /\ currentExcess r = 0%float /\
  resTotalContributions r = 0%float /\
  List.Forall (fun e => e = 0%float) (data (vizData r)).
Proof.
  exact (no_contribution_no_penalty 2024 1000 withdrawalsOnly
           withdrawalsOnly_types eq_refl).
Defined.

(** ** What the result depends on *)

Section SameEntries.

Variables l l' : list Tx.
Hypothesis same : Forall2 sameEntry l l'.

Lemma applyTx_same (a b : Tx) (g : Ledger) :
  sameEntry a b -> applyTx a g = applyTx b g.
Proof. intros (_ & Ht & Ha). unfold applyTx. now rewrite Ht, Ha. Qed.

Lemma nextTx_same (d : string) (st : LoopState) :
  match nextTx l d st, nextTx l' d st with
  | Some a, Some b => sameEntry a b
  | None, None => True
  | _, _ => False
  end.
Proof.
  unfold nextTx.
  destruct (l !! txIndex st) as [a|] eqn:Ha.
  - destruct (Forall2_lookup_l _ _ _ _ _ same Ha) as (b & -> & Hab).
    destruct Hab as (Hd & Hrest). rewrite <- Hd.
    destruct (String.eqb (date a) d); [|exact I]. now split.
  - destruct (l' !! txIndex st) as [b|] eqn:Hb; [|exact I].
    destruct (Forall2_lookup_r _ _ _ _ _ same Hb) as (a & Ha' & _). congruence.
Qed.

Lemma txLoop_same (fuel : nat) (d : string) (st : LoopState) :
  txLoop fuel l d st = txLoop fuel l' d st.
Proof.
  revert st. induction fuel as [|fuel IH]; intros st; [reflexivity|].
  cbn [txLoop]. pose proof (nextTx_same d st) as H.
  destruct (nextTx l d st) as [a|], (nextTx l' d st) as [b|];
    try contradiction; [|reflexivity].
  unfold txStep. rewrite (applyTx_same a b _ H). apply IH.
Qed.

Lemma dayBody_same (c : UTCDate) (st : LoopState) :
  dayBody l c st = dayBody l' c st.
Proof.
  unfold dayBody. rewrite (Forall2_length _ _ _ same).
  now rewrite txLoop_same.
Qed.

Lemma dailyLoop_same (endDate : option UTCDate) (n : nat) (st : LoopState) :
  dailyLoop n l endDate st = dailyLoop n l' endDate st.
Proof.
  revert st. induction n as [|n IH]; intros st; [reflexivity|].
  cbn [dailyLoop]. destruct (nextSimDay endDate st); [|reflexivity].
  rewrite dayBody_same. apply IH.
Qed.

End SameEntries.

Lemma insertBy_same (a a' : Tx) (l l' : list Tx) :
  sameEntry a a' -> Forall2 sameEntry l l' ->
  Forall2 sameEntry (insertBy compareTx a l) (insertBy compareTx a' l').
Proof.
  intros Ha. induction 1 as [|b b' l l' Hb Hl IH]; cbn [insertBy].
  - constructor; [exact Ha | constructor].
  - assert (E : compareTx a b = compareTx a' b').
    { unfold compareTx. destruct Ha as (-> & _), Hb as (-> & _). reflexivity. }
    rewrite E. destruct (compareTx a' b' <=? 0).
    + constructor; [exact Ha|]. now constructor.
    + now constructor.
Qed.

Lemma sortTxs_same (l l' : list Tx) :
  Forall2 sameEntry l l' -> Forall2 sameEntry (sortTxs l) (sortTxs l').
Proof.
  induction 1 as [|a a' l l' Ha Hl IH]; [constructor|].
  unfold sortTxs, sortBy. cbn [fold_right]. now apply insertBy_same.
Qed.

Lemma resultOf_simulate (year : Z) (startRoom : float) (l l' : list Tx) :
  simulate year startRoom l = simulate year startRoom l' ->
  resultOf year startRoom l = resultOf year startRoom l'.
Proof. intros E. unfold resultOf. now rewrite E. Qed.

(** X7: the result depends on the date, the type and the amount of each
    entry only: two ledgers that agree on these, entry by entry, whatever
    their ids and institutions, give the same result. *)
Theorem result_ignores_id_and_institution (year : Z) (startRoom : float)
    (txs txs' : list Tx) :
  Forall2 sameEntry txs txs' ->
  calculatePenalty year startRoom txs = calculatePenalty year startRoom txs'.
Proof.
  intros H. unfold calculatePenalty. apply resultOf_simulate.
  unfold simulate, stateAfterDays. apply dailyLoop_same.
  now apply sortTxs_same.
Qed.

Lemma scenarioA_relabelled_same : Forall2 sameEntry scenarioA scenarioA_relabelled.
Proof. repeat constructor. Defined.

Lemma result_ignores_id_and_institution_witness :
  calculatePenalty 2024 10000 scenarioA
  = calculatePenalty 2024 10000 scenarioA_relabelled.
Proof.
  exact (result_ignores_id_and_institution 2024 10000 scenarioA
           scenarioA_relabelled scenarioA_relabelled_same).
Defined.

(** ** Entries of different dates may come in any order *)

Lemma string_leb_antisym (a b : string) :
  String.leb a b = true -> String.leb b a = true -> a = b.
Proof.
  unfold String.leb. pose proof (String.compare_antisym a b) as A.
  destruct (String.compare a b) eqn:E1; try discriminate.
  - intros _ _. now apply String.compare_eq_iff.
  - destruct (String.compare b a) eqn:E2; discriminate.
Qed.

Lemma onDate_In (d : string) (x : Tx) (l : list Tx) :
  In x (onDate d l) <-> In x l /\ date x = d.
Proof.
  unfold onDate. rewrite List.filter_In. now rewrite String.eqb_eq.
Qed.

Lemma onDate_cons (d : string) (x : Tx) (l : list Tx) :
  onDate d (x :: l) = if String.eqb (date x) d then x :: onDate d l else onDate d l.
Proof. reflexivity. Qed.

(** A sorted ledger is known by its entries of each date. *)
Lemma sorted_onDate_eq (l l' : list Tx) :
  StronglySorted dateLe l -> StronglySorted dateLe l' ->
  (forall d, onDate d l = onDate d l') -> l = l'.
Proof.
  intros Hs. revert l'.
  induction Hs as [|x l Hs IH Hx]; intros l' Hs' Heq.
  - destruct l' as [|y l']; [reflexivity|].
    specialize (Heq (date y)). rewrite onDate_cons, String.eqb_refl in Heq.
    discriminate.
  - destruct l' as [|y l'].
    { specialize (Heq (date x)). rewrite onDate_cons, String.eqb_refl in Heq.
      discriminate. }
    inversion Hs' as [|y' l'' Hs'' Hy]; subst.
    rewrite List.Forall_forall in Hx, Hy.
    assert (Hxy : String.leb (date x) (date y) = true).
    { assert (Hin : In y (onDate (date y) (x :: l))).
      { rewrite Heq, onDate_cons, String.eqb_refl. now left. }
      apply onDate_In in Hin as [[->|Hin] _].
      - apply StringOrder.string_leb_refl.
      - now apply Hx. }
    assert (Hyx : String.leb (date y) (date x) = true).
    { assert (Hin : In x (onDate (date x) (y :: l'))).
      { rewrite <- Heq, onDate_cons, String.eqb_refl. now left. }
      apply onDate_In in Hin as [[->|Hin] _].
      - apply StringOrder.string_leb_refl.
      - now apply Hy. }
    pose proof (string_leb_antisym _ _ Hxy Hyx) as Ed.
    assert (Exy : x = y).
    { pose proof (Heq (date x)) as H.
      rewrite !onDate_cons, <- Ed, String.eqb_refl in H. now injection H. }
    subst y. f_equal. apply IH; [exact Hs''|].
    intros d. specialize (Heq d). rewrite !onDate_cons in Heq.
    destruct (String.eqb (date x) d); [now injection Heq | exact Heq].
Qed.

(** X8: the result depends only on which entries each date has and on
    their order within the date: two ledgers that list the same entries
    for every date give the same result, so entries of different dates
    may be entered in any order. *)
Theorem result_depends_on_daily_groups (year : Z) (startRoom : float)
    (txs txs' : list Tx) :
  (forall d, onDate d txs = onDate d txs') ->
  calculatePenalty year startRoom txs = calculatePenalty year startRoom txs'.
Proof.
  intros H. unfold calculatePenalty. f_equal.
  apply sorted_onDate_eq; try apply sortTxs_sorted.
  intros d. now rewrite !sortTxs_stable.
Qed.

Lemma scenarioA_reversed_groups (d : string) :
  onDate d scenarioA = onDate d scenarioA_reversed.
Proof.
  unfold onDate, scenarioA, scenarioA_reversed, contribution, withdrawal.
  cbn [List.filter date].
  destruct (String.eqb "2024-01-01" d) eqn:E1;
    destruct (String.eqb "2024-01-02" d) eqn:E2;
    destruct (String.eqb "2024-01-03" d) eqn:E3; try reflexivity;
    repeat match goal with
           | H : String.eqb _ _ = true |- _ => apply String.eqb_eq in H
           end; congruence.
Defined.

Lemma result_depends_on_daily_groups_witness :
  calculatePenalty 2024 10000 scenarioA
  = calculatePenalty 2024 10000 scenarioA_reversed.
Proof.
  exact (result_depends_on_daily_groups 2024 10000 scenarioA
           scenarioA_reversed scenarioA_reversed_groups).
Defined.

(** * No look-ahead *)

(** ** The cursor, round by round *)

Lemma cursorAfter_inYear (yr : Z) (n : nat) :
  (n < daysInYear yr)%nat ->
  daysOfYear yr !! n = Some (cursorAfter yr n) /\
  inYear yr (cursorAfter yr n) /\ dayOfYear (cursorAfter yr n) = S n.
Proof.
  intros Hn. unfold cursorAfter.
  destruct (daysOfYear yr !! n) as [c|] eqn:E.
  - cbn. split; [reflexivity|]. now apply daysOfYear_lookup.
  - apply lookup_ge_None in E. rewrite daysOfYear_length in E. lia.
Qed.

Lemma cursorAfter_end (yr : Z) :
  cursorAfter yr (daysInYear yr) = mkDate (yr + 1) 0 1.
Proof.
  unfold cursorAfter. rewrite (proj2 (lookup_ge_None _ _)); [reflexivity|].
  rewrite daysOfYear_length. lia.
Qed.

Lemma nextDay_cursorAfter (yr : Z) (n : nat) :
  (n < daysInYear yr)%nat ->
  nextDay (cursorAfter yr n) = cursorAfter yr (S n).
Proof.
  intros Hn. destruct (cursorAfter_inYear yr n Hn) as (_ & Hin & Hk).
  destruct (nextDay_inYear yr _ Hin) as [[Hin' Hk']|[E Hk']].
  - assert (Hlk : daysOfYear yr !! S n = Some (nextDay (cursorAfter yr n)))
      by (apply daysOfYear_lookup; split; [exact Hin'|lia]).
    unfold cursorAfter at 2. now rewrite Hlk.
  - rewrite E. replace (S n) with (daysInYear yr) by lia.
    symmetry. apply cursorAfter_end.
Qed.

Section Rounds.

Variable year : Z.
Variable startRoom : float.
Variable l : list Tx.
Hypothesis year_valid : validYear year = true.

(** After [n] rounds the cursor stands on day [n + 1] of the year, and the
    chart holds [n] values. *)
Lemma stateAfterDays_cursor (n : nat) :
  (n <= daysInYear (simYear year))%nat ->
  iterDate (stateAfterDays n year startRoom l)
  = Some (cursorAfter (simYear year) n) /\
  length (vizDataExcess (stateAfterDays n year startRoom l)) = n.
Proof.
  destruct (validYear_true year year_valid) as [Ha Hb].
  induction n as [|n IH]; intros Hn.
  - unfold stateAfterDays. cbn [dailyLoop]. rewrite Ha.
    split; reflexivity.
  - destruct (IH ltac:(lia)) as [Hit Hlen]. clear IH.
    assert (Hlt : (n < daysInYear (simYear year))%nat) by lia.
    destruct (cursorAfter_inYear (simYear year) n Hlt) as (_ & Hin & _).
    rewrite stateAfterDays_S. unfold simulatedDay, nextSimDay.
    rewrite Hit, Hb. cbn [dateLeb].
    rewrite (dateCivilLeb_inYear _ _ Hin).
    unfold dayBody. cbn [iterDate vizDataExcess].
    destruct (txLoop_frame l (length l)
                (formatDate (cursorAfter (simYear year) n))
                (stateAfterDays n year startRoom l)) as (_ & _ & -> & _).
    split.
    + f_equal. now apply nextDay_cursorAfter.
    + rewrite length_app, Hlen. cbn. lia.
Qed.

Lemma simulatedDay_cursor (n : nat) :
  (n < daysInYear (simYear year))%nat ->
  simulatedDay n year startRoom l = Some (cursorAfter (simYear year) n).
Proof.
  intros Hn. destruct (validYear_true year year_valid) as [_ Hb].
  destruct (stateAfterDays_cursor n ltac:(lia)) as [Hit _].
  destruct (cursorAfter_inYear (simYear year) n Hn) as (_ & Hin & _).
  unfold simulatedDay, nextSimDay. rewrite Hit, Hb. cbn [dateLeb].
  now rewrite (dateCivilLeb_inYear _ _ Hin).
Qed.

End Rounds.

(** The chart only grows. *)
Lemma dailyLoop_chart_grows (l : list Tx) (endDate : option UTCDate) (n : nat)
    (st : LoopState) :
  exists rest,
    vizDataExcess (dailyLoop n l endDate st) = vizDataExcess st ++ rest.
Proof.
  revert st. induction n as [|n IH]; intros st.
  - exists []. cbn. now rewrite app_nil_r.
  - cbn [dailyLoop]. destruct (nextSimDay endDate st) as [c|].
    + destruct (IH (dayBody l c st)) as (rest & ->).
      unfold dayBody. cbn [vizDataExcess].
      destruct (txLoop_frame l (length l) (formatDate c) st) as (_ & _ & -> & _).
      eexists. now rewrite <- app_assoc.
    + exists []. now rewrite app_nil_r.
Qed.

Lemma simulate_chart_prefix (year : Z) (startRoom : float) (l : list Tx)
    (n : nat) :
  validYear year = true -> (n <= daysInYear (simYear year))%nat ->
  take n (vizDataExcess (simulate year startRoom l))
  = vizDataExcess (stateAfterDays n year startRoom l).
Proof.
  intros Hv Hn.
  destruct (stateAfterDays_cursor year startRoom l Hv n Hn) as [_ Hlen].
  assert (H366 : (n <= 366)%nat)
    by (revert Hn; unfold daysInYear; destruct (isLeap _); lia).
  unfold simulate. replace 366%nat with (n + (366 - n))%nat by lia.
  unfold stateAfterDays at 1. rewrite dailyLoop_add.
  fold (stateAfterDays n year startRoom l).
  destruct (dailyLoop_chart_grows l (Date_UTC year 11 31) (366 - n)
              (stateAfterDays n year startRoom l)) as (rest & ->).
  rewrite <- Hlen at 1. apply take_app_length.
Qed.

(** ** Entries dated later *)

Lemma sorted_app (a b : list Tx) :
  StronglySorted dateLe a -> StronglySorted dateLe b ->
  (forall x y, In x a -> In y b -> dateLe x y) ->
  StronglySorted dateLe (a ++ b).
Proof.
  intros Ha Hb Hab. induction Ha as [|x a Ha IH Hx]; [exact Hb|].
  cbn [app]. constructor.
  - apply IH. intros u v Hu Hv. apply Hab; [now right | exact Hv].
  - apply List.Forall_app. split; [exact Hx|].
    apply List.Forall_forall. intros y Hy. apply Hab; [now left | exact Hy].
Qed.

Lemma onDate_upTo (d D : string) (l : list Tx) :
  onDate d (upTo D l) = if String.leb d D then onDate d l else [].
Proof.
  unfold onDate, upTo. induction l as [|t l IH]; [now destruct (String.leb d D)|].
  cbn [List.filter].
  destruct (String.eqb (date t) d) eqn:E.
  - apply String.eqb_eq in E. rewrite E.
    destruct (String.leb d D) eqn:L.
    + cbn [List.filter]. rewrite E, String.eqb_refl. now rewrite IH.
    + exact IH.
  - destruct (String.leb (date t) D); [cbn [List.filter]; rewrite E|]; exact IH.
Qed.

Lemma onDate_laterThan (d D : string) (l : list Tx) :
  onDate d (laterThan D l) = if String.leb d D then [] else onDate d l.
Proof.
  unfold onDate, laterThan. induction l as [|t l IH];
    [now destruct (String.leb d D)|].
  cbn [List.filter].
  destruct (String.eqb (date t) d) eqn:E.
  - apply String.eqb_eq in E. rewrite E.
    destruct (String.leb d D) eqn:L; cbn [negb].
    + exact IH.
    + cbn [List.filter]. rewrite E, String.eqb_refl. now rewrite IH.
  - destruct (negb (String.leb (date t) D)); [cbn [List.filter]; rewrite E|];
      exact IH.
Qed.

(** The sorted ledger is the sorted entries up to a date, then the sorted
    entries after it. *)
Lemma sortTxs_split (D : string) (l : list Tx) :
  sortTxs l = sortTxs (upTo D l) ++ sortTxs (laterThan D l).
Proof.
  apply sorted_onDate_eq.
  - apply sortTxs_sorted.
  - apply sorted_app; try apply sortTxs_sorted.
    intros x y Hx Hy.
    assert (Px : String.leb (date x) D = true).
    { assert (F : List.Forall (fun t => String.leb (date t) D = true)
                    (sortTxs (upTo D l))).
      { apply Forall_sortTxs, List.Forall_forall. intros t Ht.
        now apply List.filter_In in Ht as [_ Ht]. }
      rewrite List.Forall_forall in F. now apply F. }
    assert (Py : String.leb (date y) D = false).
    { assert (F : List.Forall (fun t => String.leb (date t) D = false)
                    (sortTxs (laterThan D l))).
      { apply Forall_sortTxs, List.Forall_forall. intros t Ht.
        apply List.filter_In in Ht as [_ Ht]. now apply negb_true_iff. }
      rewrite List.Forall_forall in F. now apply F. }
    unfold dateLe. apply (StringOrder.string_leb_trans _ D); [exact Px|].
    unfold String.leb in *. rewrite String.compare_antisym.
    destruct (String.compare (date y) D); cbn; congruence.
  - intros d. unfold onDate at 2. rewrite List.filter_app.
    fold (onDate d (sortTxs (upTo D l))).
    fold (onDate d (sortTxs (laterThan D l))).
    rewrite !sortTxs_stable, onDate_upTo, onDate_laterThan.
    destruct (String.leb d D); [now rewrite app_nil_r | reflexivity].
Qed.

(** Up to the round of a day, the entries dated after that day are not
    looked at. *)
Lemma stateAfterDays_upTo (year : Z) (startRoom : float) (txs : list Tx)
    (k n : nat) :
  validYear year = true ->
  (k < daysInYear (simYear year))%nat -> (n <= S k)%nat ->
  stateAfterDays n year startRoom (sortTxs txs)
  = stateAfterDays n year startRoom
      (sortTxs (upTo (formatDate (cursorAfter (simYear year) k)) txs)).
Proof.
  intros Hv Hk Hn.
  rewrite (sortTxs_split (formatDate (cursorAfter (simYear year) k)) txs).
  set (D := formatDate (cursorAfter (simYear year) k)).
  assert (Hlater : List.Forall (fun t => String.leb (date t) D = false)
                     (sortTxs (laterThan D txs))).
  { apply Forall_sortTxs. apply List.Forall_forall. intros t Ht.
    apply List.filter_In in Ht as [_ Ht]. now apply negb_true_iff. }
  revert Hlater. generalize (sortTxs (laterThan D txs)).
  generalize (sortTxs (upTo D txs)). intros A B HB.
  destruct B as [|b B]; [now rewrite app_nil_r|].
  apply List.Forall_cons_iff in HB as [Hb _].
  induction n as [|n IH]; [reflexivity|].
  rewrite !stateAfterDays_S.
  assert (Hlt : (n < daysInYear (simYear year))%nat) by lia.
  rewrite !(simulatedDay_cursor year startRoom _ Hv n Hlt).
  rewrite IH by lia.
  apply dayBody_blocked.
  - pose proof (prefixInv_dailyLoop A (initLedger startRoom)
                  (Date_UTC year 11 31) n _
                  (initState_prefixInv A startRoom (Date_UTC year 0 1)))
      as [Hidx _].
    exact Hidx.
  - intros E.
    destruct (cursorAfter_inYear (simYear year) n Hlt) as (_ & Hin & Hr).
    destruct (cursorAfter_inYear (simYear year) k Hk) as (_ & Hin' & Hr').
    pose proof (formatDate_dayOfYear (simYear year) _ _ Hin Hin') as C.
    rewrite Hr, Hr' in C. fold D in C. rewrite <- E in C.
    unfold String.leb in Hb. rewrite C in Hb.
    destruct (Nat.compare_spec (S n) (S k)); try discriminate. lia.
Qed.

(** X19: the chart up to a day of the year does not depend on the entries
    dated after that day: two ledgers with the same entries dated on or
    before the day, in the same order, give the same daily values up to
    and including that day. *)
Theorem no_look_ahead (year : Z) (startRoom : float) (txs txs' : list Tx)
    (k : nat) (c : UTCDate) :
  validYear year = true ->
  daysOfYear (simYear year) !! k = Some c ->
  upTo (formatDate c) txs = upTo (formatDate c) txs' ->
  take (S k) (data (vizData (calculatePenalty year startRoom txs)))
  = take (S k) (data (vizData (calculatePenalty year startRoom txs'))).
Proof.
  intros Hv Hc Heq.
  assert (Hk : (k < daysInYear (simYear year))%nat).
  { apply lookup_lt_Some in Hc. now rewrite daysOfYear_length in Hc. }
  assert (Ec : cursorAfter (simYear year) k = c)
    by (unfold cursorAfter; now rewrite Hc).
  unfold calculatePenalty.
  change (data (vizData (resultOf year startRoom (sortTxs txs))))
    with (vizDataExcess (simulate year startRoom (sortTxs txs))).
  change (data (vizData (resultOf year startRoom (sortTxs txs'))))
    with (vizDataExcess (simulate year startRoom (sortTxs txs'))).
  rewrite !simulate_chart_prefix by (auto; lia).
  rewrite (stateAfterDays_upTo year startRoom txs k (S k) Hv Hk (Nat.le_refl _)).
  rewrite (stateAfterDays_upTo year startRoom txs' k (S k) Hv Hk (Nat.le_refl _)).
  now rewrite Ec, Heq.
Qed.

(** Scenario A and its first two days: January 2 reads the same. *)
Lemma no_look_ahead_witness :
  take 2 (data (vizData (calculatePenalty 2024 10000 scenarioA)))
  = take 2 (data (vizData (calculatePenalty 2024 10000 scenarioA_two_days))).
Proof.
  exact (no_look_ahead 2024 10000 scenarioA scenarioA_two_days 1
           (mkDate 2024 0 2) eq_refl eq_refl eq_refl).
Defined.

(** ** The chart value of a day *)

Lemma chart_lookup (year : Z) (startRoom : float) (l : list Tx) (k : nat) :
  validYear year = true -> (k < daysInYear (simYear year))%nat ->
  vizDataExcess (simulate year startRoom l) !! k
  = Some (excess (ledger (stateAfterDays (S k) year startRoom l))).
Proof.
  intros Hv Hk.
  pose proof (simulate_chart_prefix year startRoom l (S k) Hv ltac:(lia)) as Hp.
  destruct (stateAfterDays_cursor year startRoom l Hv k ltac:(lia)) as [_ Hlen].
  assert (E : vizDataExcess (stateAfterDays (S k) year startRoom l)
              = vizDataExcess (stateAfterDays k year startRoom l)
                ++ [excess (ledger (stateAfterDays (S k) year startRoom l))]).
  { rewrite stateAfterDays_S, (simulatedDay_cursor year startRoom l Hv k Hk).
    unfold dayBody. cbn [vizDataExcess ledger].
    destruct (txLoop_frame l (length l)
                (formatDate (cursorAfter (simYear year) k))
                (stateAfterDays k year startRoom l)) as (_ & _ & -> & _).
    reflexivity. }
  rewrite <- (lookup_take_lt _ (S k) k) by lia. rewrite Hp, E.
  rewrite lookup_app_r by lia. now rewrite Hlen, Nat.sub_diag.
Qed.

(** A sorted ledger with nothing dated after day [k + 1] of the year has
    had all it will ever have applied once that day's round is over. *)
Lemma rounds_complete (year : Z) (startRoom : float) (A : list Tx) (k : nat) :
  validYear year = true -> (k < daysInYear (simYear year))%nat ->
  StronglySorted dateLe A ->
  List.Forall (fun t => String.leb (date t)
                          (formatDate (cursorAfter (simYear year) k)) = true) A ->
  ledger (stateAfterDays (S k) year startRoom A)
  = applyAll (reachedTxs (simYear year) A) (initLedger startRoom).
Proof.
  intros Hv Hk Hs Hle. unfold reachedTxs.
  destruct (takeWhile_split
              (fun tx => isDayOfYear (simYear year) (date tx)) A)
    as [Hall Hsplit].
  revert Hall Hsplit.
  generalize (takeWhile (fun tx => isDayOfYear (simYear year) (date tx)) A).
  intros pre Hall Hsplit.
  assert (Hpre : stateAfterDays (S k) year startRoom A
                 = stateAfterDays (S k) year startRoom pre /\
                 StronglySorted dateLe pre /\
                 List.Forall (fun t => String.leb (date t)
                    (formatDate (cursorAfter (simYear year) k)) = true) pre).
  { destruct Hsplit as [E|(b & post & E & Hb)].
    - rewrite <- E. auto.
    - subst A. split; [|split].
      + unfold stateAfterDays.
        destruct (validYear_true year Hv) as [Ha Hb']. rewrite Hb'.
        apply (dailyLoop_blocked pre post b (simYear year)).
        * intros c Hc E.
          assert (isDayOfYear (simYear year) (date b) = true)
            by (apply isDayOfYear_true; now exists c).
          congruence.
        * apply initState_cursorOk.
        * cbn. lia.
      + now apply sorted_app_l in Hs.
      + now apply List.Forall_app in Hle as [Hle _]. }
  destruct Hpre as (-> & Hs' & Hle'). clear Hsplit Hs Hle.
  destruct (stateAfterDays_cursor year startRoom pre Hv (S k) ltac:(lia))
    as [Hit _].
  pose proof (caughtUp_init pre (simYear year) Hall startRoom) as H0.
  pose proof (caughtUp_dailyLoop pre (simYear year) Hs' Hall (S k) _ H0)
    as [Hidx Hc].
  pose proof (prefixInv_dailyLoop pre (initLedger startRoom)
                (Some (mkDate (simYear year) 11 31)) (S k) _
                (initState_prefixInv pre startRoom
                   (Some (mkDate (simYear year) 0 1)))) as [_ Hp].
  revert Hit Hidx Hc Hp. unfold stateAfterDays.
  destruct (validYear_true year Hv) as [-> ->].
  generalize (dailyLoop (S k) pre (Some (mkDate (simYear year) 11 31))
                (initState startRoom (Some (mkDate (simYear year) 0 1)))).
  intros st Hit Hidx Hc Hp. rewrite Hit in Hc.
  assert (Hfull : txIndex st = length pre).
  { destruct Hc as [[Hin Hrest]|[_ Hc]]; [|exact Hc].
    destruct (pre !! txIndex st) as [tx|] eqn:Hlk.
    2:{ apply lookup_ge_None in Hlk. lia. }
    exfalso.
    pose proof (Hrest _ tx Hlk (Nat.le_refl _)) as H1.
    assert (H2 : String.leb (date tx)
                   (formatDate (cursorAfter (simYear year) k)) = true).
    { rewrite List.Forall_forall in Hle'. apply Hle'.
      eapply lookup_In. exact Hlk. }
    pose proof (StringOrder.string_leb_trans _ _ _ H1 H2) as H3.
    destruct (cursorAfter_inYear (simYear year) k Hk) as (_ & Hink & Hrk).
    assert (HSk : (S k < daysInYear (simYear year))%nat).
    { destruct (Nat.lt_ge_cases (S k) (daysInYear (simYear year))) as [L|G];
        [exact L|].
      assert (S k = daysInYear (simYear year)) by lia.
      rewrite H, cursorAfter_end in Hin.
      destruct Hin as (Hy & _). cbn in Hy. lia. }
    destruct (cursorAfter_inYear (simYear year) (S k) HSk) as (_ & Hin' & Hr').
    unfold String.leb in H3.
    rewrite (formatDate_dayOfYear (simYear year) _ _ Hin' Hink), Hr', Hrk in H3.
    destruct (Nat.compare_spec (S (S k)) (S k)); try discriminate; lia. }
  rewrite Hp, Hfull, firstn_all. reflexivity.
Qed.

(** X20: the chart value of a day is the excess that stands after the
    entries dated on or before that day, sorted by date, have been applied
    to the opening figures, as far as the first of them that is not dated
    on a day of the year. *)
Theorem chart_value_of_a_day (year : Z) (startRoom : float) (txs : list Tx)
    (k : nat) (c : UTCDate) :
  validYear year = true ->
  daysOfYear (simYear year) !! k = Some c ->
  data (vizData (calculatePenalty year startRoom txs)) !! k
  = Some (excess
            (applyAll
               (reachedTxs (simYear year) (sortTxs (upTo (formatDate c) txs)))
               (initLedger startRoom))).
Proof.
  intros Hv Hc.
  assert (Hk : (k < daysInYear (simYear year))%nat).
  { apply lookup_lt_Some in Hc. now rewrite daysOfYear_length in Hc. }
  assert (Ec : cursorAfter (simYear year) k = c)
    by (unfold cursorAfter; now rewrite Hc).
  unfold calculatePenalty.
  change (data (vizData (resultOf year startRoom (sortTxs txs))))
    with (vizDataExcess (simulate year startRoom (sortTxs txs))).
  rewrite (chart_lookup year startRoom _ k Hv Hk).
  rewrite (stateAfterDays_upTo year startRoom txs k (S k) Hv Hk (Nat.le_refl _)).
  rewrite Ec. f_equal. f_equal.
  apply (rounds_complete year startRoom _ k Hv Hk).
  - apply sortTxs_sorted.
  - rewrite Ec. apply Forall_sortTxs, List.Forall_forall. intros t Ht.
    now apply List.filter_In in Ht as [_ Ht].
Qed.

(** Scenario A on January 2: 15,000 against a room of 10,000, less 2,000. *)
Lemma chart_value_of_a_day_witness :
  data (vizData (calculatePenalty 2024 10000 scenarioA)) !! 1%nat
  = Some (excess
            (applyAll
               (reachedTxs (simYear 2024)
                  (sortTxs (upTo (formatDate (mkDate 2024 0 2)) scenarioA)))
               (initLedger 10000))).
Proof.
  exact (chart_value_of_a_day 2024 10000 scenarioA 1 (mkDate 2024 0 2)
           eq_refl eq_refl).
Defined.

(** * The order of application *)

Lemma appliedTxs_prefix (year : Z) (txs : list Tx) :
  exists rest, sortTxs txs = appliedTxs year txs ++ rest.
Proof.
  unfold appliedTxs. destruct (validYear year); [|now exists (sortTxs txs)].
  unfold reachedTxs.
  destruct (takeWhile_split
              (fun tx => isDayOfYear (simYear year) (date tx)) (sortTxs txs))
    as [_ [E|(b & post & E & _)]].
  - exists []. now rewrite app_nil_r.
  - now exists (b :: post).
Qed.

Lemma simulate_appliedTxs (year : Z) (startRoom : float) (txs : list Tx) :
  ledger (simulate year startRoom (sortTxs txs))
  = applyAll (appliedTxs year txs) (initLedger startRoom).
Proof.
  unfold appliedTxs. destruct (validYear year) eqn:Hv.
  - apply simulate_reached; [exact Hv | apply sortTxs_sorted].
  - unfold simulate. now rewrite validYear_false.
Qed.

(** C4: calculatePenalty applies the entries in ascending order of their
    date strings, compared lexically, entries of one date in the order the
    input list has them.  The sorted arrangement is a permutation of the
    input, ascending, with the entries of each date in input order, and it
    is the only such arrangement; the totals and the closing excess of the
    result are those of its applied prefix, applied first to last; the
    chart value of each day is the excess after the entries dated up to
    that day, in that order; so two inputs with the same entries for every
    date give the same result.  Round by round, the pointer splits the
    sorted arrangement into what is applied and what is not.  A
    contribution and a withdrawal of one day apply in ledger order, and a
    later-dated entry listed first is applied last. *)
Theorem C4_application_order (year : Z) (startRoom : float) (txs : list Tx) :
  let r := calculatePenalty year startRoom txs in
  let sorted := sortTxs txs in
  let applied := appliedTxs year txs in
  Permutation sorted txs /\
  StronglySorted dateLe sorted /\
  (forall d, onDate d sorted = onDate d txs) /\
  (forall l, StronglySorted dateLe l ->
             (forall d, onDate d l = onDate d txs) -> l = sorted) /\
  (exists rest, sorted = applied ++ rest) /\
  resTotalContributions r
  = totalContributions (applyAll applied (initLedger startRoom)) /\
  resTotalWithdrawals r
  = totalWithdrawals (applyAll applied (initLedger startRoom)) /\
  currentExcess r = excess (applyAll applied (initLedger startRoom)) /\
  (forall k c,
     validYear year = true -> daysOfYear (simYear year) !! k = Some c ->
     data (vizData r) !! k
     = Some (excess
               (applyAll
                  (reachedTxs (simYear year)
                     (sortTxs (upTo (formatDate c) txs)))
                  (initLedger startRoom)))) /\
  (forall txs',
     (forall d, onDate d txs' = onDate d txs) ->
     calculatePenalty year startRoom txs' = r) /\
  calculatePenalty year startRoom sorted = r /\
  (forall n,
     let st := stateAfterDays n year startRoom sorted in
     (txIndex st <= length sorted)%nat /\
     ledger st = applyAll (take (txIndex st) sorted) (initLedger startRoom) /\
     forall d, exists later,
       onDate d txs = onDate d (take (txIndex st) sorted) ++ later) /\
  currentExcess
    (calculatePenalty 2024 0
       [contribution "2024-03-01" 100; withdrawal "2024-03-01" 100]) = 0%float /\
  currentExcess
    (calculatePenalty 2024 0
       [withdrawal "2024-03-01" 100; contribution "2024-03-01" 100]) = 100%float /\
  resTotalContributions
    (calculatePenalty 2024 0
       [contribution "2024-03-01" 100; contribution "2024-01-01" 50]) = 150%float /\
  data (vizData
          (calculatePenalty 2024 0
             [contribution "2024-03-01" 100; contribution "2024-01-01" 50]))
    !! 0%nat = Some 50%float.
Proof.
  cbv zeta.
  split; [apply sortTxs_perm|].
  split; [apply sortTxs_sorted|].
  split; [intros d; apply sortTxs_stable|].
  split.
  { intros l Hl Hd. apply sorted_onDate_eq; [exact Hl | apply sortTxs_sorted|].
    intros d. now rewrite sortTxs_stable. }
  split; [apply appliedTxs_prefix|].
  assert (Hsort : forall txs',
            (forall d, onDate d txs' = onDate d txs) ->
            sortTxs txs' = sortTxs txs).
  { intros txs' H. apply sorted_onDate_eq; try apply sortTxs_sorted.
    intros d. now rewrite !sortTxs_stable. }
  unfold calculatePenalty.
  destruct (resultOf_projection year startRoom (sortTxs txs))
    as (-> & -> & -> & _).
  rewrite (simulate_appliedTxs year startRoom txs).
  split; [reflexivity|]. split; [reflexivity|]. split; [reflexivity|].
  split.
  { intros k c Hv Hc.
    assert (Hk : (k < daysInYear (simYear year))%nat).
    { apply lookup_lt_Some in Hc. now rewrite daysOfYear_length in Hc. }
    assert (Ec : cursorAfter (simYear year) k = c)
      by (unfold cursorAfter; now rewrite Hc).
    change (data (vizData (resultOf year startRoom (sortTxs txs))))
      with (vizDataExcess (simulate year startRoom (sortTxs txs))).
    rewrite (chart_lookup year startRoom _ k Hv Hk).
    rewrite (stateAfterDays_upTo year startRoom txs k (S k) Hv Hk
               (Nat.le_refl _)).
    rewrite Ec. f_equal. f_equal.
    apply (rounds_complete year startRoom _ k Hv Hk).
    - apply sortTxs_sorted.
    - rewrite Ec. apply Forall_sortTxs, List.Forall_forall. intros t Ht.
      now apply List.filter_In in Ht as [_ Ht]. }
  split; [intros txs' H; now rewrite (Hsort txs' H)|].
  split.
  { rewrite (Hsort (sortTxs txs)); [reflexivity|].
    intros d. apply sortTxs_stable. }
  split; [|repeat split; vm_compute; reflexivity].
  intros n.
  destruct (stateAfterDays_prefixInv n year startRoom (sortTxs txs)) as [Hle Hl].
  split; [exact Hle|]. split; [exact Hl|].
  intros d.
  exists (onDate d (drop (txIndex (stateAfterDays n year startRoom (sortTxs txs)))
                      (sortTxs txs))).
  now rewrite <- onDate_app, take_drop, sortTxs_stable.
Qed.

(** * The import, line by line *)

Section ImportFacts.

Variable dateParse : string -> option string.
Variable newId : nat -> float.

(** What one line does: nothing when it is blank, else one entry more or
    one message more. *)
Lemma processLine_cases (i : nat) (rawLine : string) (st : CsvState) :
  (isBlank rawLine = true /\ processLine dateParse newId i rawLine st = st) \/
  (isBlank rawLine = false /\
   exists tx, importedShape dateParse tx /\ id tx = newId i /\
     processLine dateParse newId i rawLine st
     = mkCsv (transactions st ++ [tx]) (S (addedCount st)) (errors st)) \/
  (isBlank rawLine = false /\
   exists msg, messageOfLine i msg /\
     processLine dateParse newId i rawLine st
     = mkCsv (transactions st) (addedCount st) (errors st ++ [msg])).
Proof.
  unfold processLine, isBlank. cbv zeta.
  destruct (String.eqb (JS.trim rawLine) EmptyString) eqn:Hb; [now left|].
  right.
  destruct (map _ _) as [|dateRaw [|typeRaw [|amountRaw rest]]].
  1-3: right; split; [reflexivity|]; eexists; split;
       [exists "format"%string; reflexivity | reflexivity].
  destruct (JS.isNaN _ || JS.le _ 0) eqn:Hgate.
  { right. split; [reflexivity|]. eexists. split; [|reflexivity].
    exists ("amount: " ++ amountRaw)%string. reflexivity. }
  assert (Hpush : forall d,
    (isoRegexTest d = true \/ exists raw, dateParse raw = Some d) ->
    exists tx, importedShape dateParse tx /\ id tx = newId i /\
      mkCsv (transactions st ++
               [mkTx (newId i) d
                  (if JS.includes (JS.toLowerCase typeRaw) "withdraw"
                   then "WITHDRAWAL"%string else "CONTRIBUTION"%string)
                  (JS.parseFloat (JS.removeChar "," amountRaw))
                  match rest with
                  | [] => "Imported"%string
                  | inst :: _ =>
                      if String.eqb inst EmptyString
                      then "Imported"%string else inst
                  end])
        (S (addedCount st)) (errors st)
      = mkCsv (transactions st ++ [tx]) (S (addedCount st)) (errors st)).
  { intros d Hd. eexists. split; [|split; [|reflexivity]]; [|reflexivity].
    unfold importedShape. cbn [type institution amount date].
    split; [|split; [|split]].
    - destruct (JS.includes _ _); [now right | now left].
    - destruct rest as [|inst rest']; [discriminate|].
      destruct (String.eqb inst EmptyString) eqn:E; [discriminate|].
      now apply String.eqb_neq.
    - now apply amount_gate_positive.
    - exact Hd. }
  destruct (isoRegexTest dateRaw) eqn:Hiso.
  - left. split; [reflexivity|]. apply Hpush. now left.
  - destruct (dateParse dateRaw) as [d|] eqn:Hp.
    + left. split; [reflexivity|]. apply Hpush. right. now exists dateRaw.
    + right. split; [reflexivity|]. eexists. split; [|reflexivity].
      exists ("date: " ++ dateRaw)%string. reflexivity.
Qed.

(** The loop from index [i] over [lines]: the entries and the messages it
    adds, one for each line that is not blank. *)
Lemma csvLoop_spec (lines : list string) (i : nat) (st : CsvState) :
  exists new errs,
    csvLoop dateParse newId i lines st
    = mkCsv (transactions st ++ new) (addedCount st + length new)
        (errors st ++ errs) /\
    List.Forall (fun tx => importedShape dateParse tx /\
                   exists k raw, lines !! k = Some raw /\ isBlank raw = false /\
                                 id tx = newId (i + k)) new /\
    List.Forall (fun msg => exists k raw,
                   lines !! k = Some raw /\ isBlank raw = false /\
                   messageOfLine (i + k) msg) errs /\
    (length new + length errs
     = length (List.filter (fun l => negb (isBlank l)) lines))%nat.
Proof.
  revert i st. induction lines as [|l lines IH]; intros i st.
  - exists [], []. cbn. rewrite !app_nil_r, Nat.add_0_r.
    destruct st. repeat split; constructor.
  - cbn [csvLoop List.filter length].
    assert (Hshift : forall (P : nat -> Prop),
              (exists k raw, lines !! k = Some raw /\ isBlank raw = false /\
                             P (S i + k)%nat) ->
              exists k raw, (l :: lines) !! k = Some raw /\
                            isBlank raw = false /\ P (i + k)%nat).
    { intros P (k & raw & Hk & Hb & HP). exists (S k), raw.
      repeat split; auto. now replace (i + S k)%nat with (S i + k)%nat by lia. }
    destruct (processLine_cases i l st)
      as [[Hb ->]|[[Hb (tx & Htx & Hid & ->)]|[Hb (msg & Hmsg & ->)]]];
      rewrite Hb; cbn [negb];
      match goal with
      | |- context [csvLoop _ _ _ _ ?s] =>
          destruct (IH (S i) s) as (new & errs & -> & Hn & He & Hc)
      end; cbn [transactions addedCount errors] in *.
    + exists new, errs. repeat split; auto.
      * revert Hn. apply List.Forall_impl. intros t [Ht Hk]. split; [exact Ht|].
        apply (Hshift (fun n => id t = newId n)), Hk.
      * revert He. apply List.Forall_impl. intros m Hk.
        apply (Hshift (fun n => messageOfLine n m)), Hk.
    + exists (tx :: new), errs. rewrite <- app_assoc. cbn [app length].
      repeat split.
      * f_equal. lia.
      * constructor.
        -- split; [exact Htx|]. exists 0%nat, l. rewrite Nat.add_0_r. now split.
        -- revert Hn. apply List.Forall_impl. intros t [Ht Hk]. split; [exact Ht|].
           apply (Hshift (fun n => id t = newId n)), Hk.
      * revert He. apply List.Forall_impl. intros m Hk.
        apply (Hshift (fun n => messageOfLine n m)), Hk.
      * lia.
    + exists new, (msg :: errs). rewrite <- app_assoc. cbn [app length].
      repeat split; auto.
      * revert Hn. apply List.Forall_impl. intros t [Ht Hk]. split; [exact Ht|].
        apply (Hshift (fun n => id t = newId n)), Hk.
      * constructor.
        -- exists 0%nat, l. rewrite Nat.add_0_r. now split.
        -- revert He. apply List.Forall_impl. intros m Hk.
           apply (Hshift (fun n => messageOfLine n m)), Hk.
      * lia.
Qed.

End ImportFacts.

(** ** The lines with their indices *)

Lemma combine_seq_lookup {A : Type} (l : list A) (a k : nat) (x : A) :
  l !! k = Some x -> combine (seq a (length l)) l !! k = Some ((a + k)%nat, x).
Proof.
  revert a k. induction l as [|y l IH]; intros a k H; [discriminate|].
  cbn [length seq combine]. destruct k as [|k].
  - cbn in H. injection H as ->. cbn. now rewrite Nat.add_0_r.
  - change (combine (seq (S a) (length l)) l !! k = Some ((a + S k)%nat, x)).
    change (l !! k = Some x) in H.
    rewrite (IH (S a) k H). f_equal. f_equal. lia.
Qed.

Lemma combine_seq_snd {A : Type} (l : list A) (a : nat) :
  map snd (combine (seq a (length l)) l) = l.
Proof.
  revert a. induction l as [|y l IH]; intros a; [reflexivity|].
  cbn. now rewrite IH.
Qed.

Lemma filter_map_snd {A B : Type} (f : B -> bool) (l : list (A * B)) :
  map snd (List.filter (fun p => f (snd p)) l) = List.filter f (map snd l).
Proof.
  induction l as [|[a b] l IH]; [reflexivity|]. cbn.
  destruct (f b); cbn; now rewrite IH.
Qed.

Lemma map_snd_drop {A B : Type} (n : nat) (l : list (A * B)) :
  map snd (drop n l) = drop n (map snd l).
Proof.
  revert n. induction l as [|x l IH]; intros [|n]; cbn; auto.
Qed.

Lemma dataLines_length (text : string) :
  length (dataLines text)
  = length (List.filter (fun l => negb (isBlank l))
              (drop (headerIndex (JS.splitOn "010" text))
                 (JS.splitOn "010" text))).
Proof.
  unfold dataLines. cbv zeta.
  rewrite <- (length_map snd).
  rewrite (filter_map_snd (fun l => negb (isBlank l))).
  now rewrite map_snd_drop, combine_seq_snd.
Qed.

Lemma dataLines_In (text : string) (k : nat) (raw : string) :
  drop (headerIndex (JS.splitOn "010" text)) (JS.splitOn "010" text) !! k
  = Some raw ->
  isBlank raw = false ->
  In ((headerIndex (JS.splitOn "010" text) + k)%nat, raw) (dataLines text).
Proof.
  intros Hk Hb. unfold dataLines. cbv zeta.
  apply List.filter_In. split; [|cbn [snd]; now rewrite Hb].
  rewrite lookup_drop in Hk.
  apply (combine_seq_lookup _ 0) in Hk. cbn [Nat.add] in Hk.
  eapply lookup_In. rewrite lookup_drop. exact Hk.
Qed.

(** What an import appends. *)
Lemma import_only_appends_shape (dateParse : string -> option string)
    (newId : nat -> float) (text : string) (ledger0 : list Tx) :
  exists new,
    ledgerAfter (processCsvData dateParse newId text ledger0) = ledger0 ++ new /\
    List.Forall (importedShape dateParse) new.
Proof.
  unfold processCsvData. cbv zeta.
  destruct (csvLoop_spec dateParse newId
              (drop (headerIndex (JS.splitOn "010" text)) (JS.splitOn "010" text))
              (headerIndex (JS.splitOn "010" text)) (mkCsv ledger0 0 []))
    as (new & errs & -> & Hn & _).
  exists new. split; [reflexivity|].
  revert Hn. apply List.Forall_impl. now intros t [Ht _].
Qed.

(** X9: an import leaves the entries the ledger held where they were and
    appends the new ones after them, each with a type the engine counts,
    an institution, an amount above zero and a date that is either of the
    form YYYY-MM-DD or what the date parser returned; the count it reports
    is the number of entries appended, and when that is zero the ledger is
    unchanged and the message says that nothing valid was found. *)
Theorem import_only_appends (dateParse : string -> option string)
    (newId : nat -> float) (text : string) (ledger0 : list Tx) :
  let out := processCsvData dateParse newId text ledger0 in
  exists new,
    ledgerAfter out = ledger0 ++ new /\
    length new = imported out /\
    List.Forall (importedShape dateParse) new /\
    (imported out = 0%nat ->
     ledgerAfter out = ledger0 /\
     errorText out
     = Some "No valid transactions found in CSV. Check format."%string) /\
    (errorText out = None <-> (0 < imported out)%nat /\ skipped out = []).
Proof.
  cbv zeta. unfold processCsvData. cbv zeta.
  destruct (csvLoop_spec dateParse newId
              (drop (headerIndex (JS.splitOn "010" text)) (JS.splitOn "010" text))
              (headerIndex (JS.splitOn "010" text)) (mkCsv ledger0 0 []))
    as (new & errs & -> & Hn & He & Hc).
  cbn [transactions addedCount errors ledgerAfter imported skipped errorText app Nat.add].
  exists new. split; [reflexivity|]. split; [reflexivity|]. split.
  { revert Hn. apply List.Forall_impl. now intros t [Ht _]. }
  split.
  - intros H0. destruct new; [|discriminate]. rewrite app_nil_r. now split.
  - destruct new as [|t new]; cbn [length Nat.ltb Nat.leb].
    + split; [discriminate | intros [H _]; lia].
    + destruct errs; split; try discriminate; auto.
      * intros _. split; [lia | reflexivity].
      * intros [_ H]. discriminate.
Qed.

(** X10: every line after the header that is not blank is accounted for:
    it gives one imported entry or one message, and each message names the
    position in the file, counted from 1, of the line it is about. *)
Theorem import_accounts_for_every_line (dateParse : string -> option string)
    (newId : nat -> float) (text : string) (ledger0 : list Tx) :
  let out := processCsvData dateParse newId text ledger0 in
  (imported out + length (skipped out) = length (dataLines text))%nat /\
  List.Forall (fun msg => exists k raw, In (k, raw) (dataLines text) /\
                                        messageOfLine k msg)
    (skipped out).
Proof.
  cbv zeta. unfold processCsvData. cbv zeta.
  destruct (csvLoop_spec dateParse newId
              (drop (headerIndex (JS.splitOn "010" text)) (JS.splitOn "010" text))
              (headerIndex (JS.splitOn "010" text)) (mkCsv ledger0 0 []))
    as (new & errs & -> & Hn & He & Hc).
  cbn [transactions addedCount errors ledgerAfter imported skipped errorText app Nat.add].
  split.
  - now rewrite dataLines_length.
  - revert He. apply List.Forall_impl. intros msg (k & raw & Hk & Hb & Hm).
    exists (headerIndex (JS.splitOn "010" text) + k)%nat, raw.
    split; [now apply dataLines_In | exact Hm].
Qed.

(** ** The import and the ledger it finds *)

Section ImportFrame.

Variable dateParse : string -> option string.
Variable newId : nat -> float.

Lemma processLine_frame (i : nat) (rawLine : string) (st : CsvState) :
  processLine dateParse newId i rawLine st
  = mkCsv
      (transactions st
       ++ transactions (processLine dateParse newId i rawLine (mkCsv [] 0 [])))
      (addedCount st
       + addedCount (processLine dateParse newId i rawLine (mkCsv [] 0 [])))
      (errors st
       ++ errors (processLine dateParse newId i rawLine (mkCsv [] 0 []))).
Proof.
  destruct (processLine_cases dateParse newId i rawLine (mkCsv [] 0 []))
    as [[Hb E0]|[[Hb (tx & _ & _ & E0)]|[Hb (msg & _ & E0)]]];
    rewrite E0; cbn [transactions addedCount errors app].
  - unfold processLine in *. unfold isBlank in Hb. cbv zeta. rewrite Hb.
    destruct st. cbn. now rewrite !app_nil_r, Nat.add_0_r.
  - revert E0. unfold processLine. cbv zeta.
    destruct (String.eqb (JS.trim rawLine) EmptyString); [discriminate|].
    destruct (map _ _) as [|dateRaw [|typeRaw [|amountRaw rest]]];
      try discriminate.
    destruct (JS.isNaN _ || JS.le _ 0); [discriminate|].
    destruct (isoRegexTest dateRaw).
    + intros E0. injection E0 as <-.
      rewrite app_nil_r. f_equal. lia.
    + destruct (dateParse dateRaw); [|discriminate].
      intros E0. injection E0 as <-.
      rewrite app_nil_r. f_equal. lia.
  - revert E0. unfold processLine. cbv zeta.
    destruct (String.eqb (JS.trim rawLine) EmptyString); [discriminate|].
    destruct (map _ _) as [|dateRaw [|typeRaw [|amountRaw rest]]].
    1-3: intros E0; injection E0 as <-; rewrite app_nil_r; f_equal; lia.
    destruct (JS.isNaN _ || JS.le _ 0).
    { intros E0. injection E0 as <-. rewrite app_nil_r. f_equal. lia. }
    destruct (isoRegexTest dateRaw); [discriminate|].
    destruct (dateParse dateRaw); [discriminate|].
    intros E0. injection E0 as <-. rewrite app_nil_r. f_equal. lia.
Qed.

Lemma csvLoop_frame (lines : list string) (i : nat) (st : CsvState) :
  csvLoop dateParse newId i lines st
  = mkCsv
      (transactions st
       ++ transactions (csvLoop dateParse newId i lines (mkCsv [] 0 [])))
      (addedCount st
       + addedCount (csvLoop dateParse newId i lines (mkCsv [] 0 [])))
      (errors st
       ++ errors (csvLoop dateParse newId i lines (mkCsv [] 0 []))).
Proof.
  revert i st. induction lines as [|l lines IH]; intros i st.
  - destruct st. cbn. now rewrite !app_nil_r, Nat.add_0_r.
  - cbn [csvLoop].
    rewrite (IH (S i) (processLine dateParse newId i l st)).
    rewrite (IH (S i) (processLine dateParse newId i l (mkCsv [] 0 []))).
    rewrite (processLine_frame i l st).
    cbn [transactions addedCount errors].
    now rewrite !app_assoc, Nat.add_assoc.
Qed.

End ImportFrame.

(** X21: what an import adds does not depend on what the ledger holds:
    the count, the messages and the text shown are those of the same
    import into an empty ledger, and the ledger afterwards is the ledger
    before followed by the entries that import gives.  So importing a file
    twice enters its records twice. *)
Theorem import_is_independent_of_ledger (dateParse : string -> option string)
    (newId : nat -> float) (text : string) (ledger0 : list Tx) :
  let out := processCsvData dateParse newId text ledger0 in
  let alone := processCsvData dateParse newId text [] in
  ledgerAfter out = ledger0 ++ ledgerAfter alone /\
  imported out = imported alone /\
  skipped out = skipped alone /\
  errorText out = errorText alone.
Proof.
  cbv zeta. unfold processCsvData. cbv zeta.
  rewrite (csvLoop_frame dateParse newId _ _ (mkCsv ledger0 0 [])).
  cbn [transactions addedCount errors ledgerAfter imported skipped errorText
       app Nat.add].
  repeat split.
Qed.

(** * Splitting text *)

Lemma csvSplit_nonempty (s : string) : csvSplit s <> [].
Proof.
  destruct s as [|c r]; cbn; [discriminate|].
  destruct (Ascii.eqb c "," && Nat.even (countQuotes r)); [discriminate|].
  destruct (csvSplit r); discriminate.
Qed.

Lemma splitOn_nonempty (sep : ascii) (s : string) : JS.splitOn sep s <> [].
Proof.
  destruct s as [|c r]; cbn; [discriminate|].
  destruct (Ascii.eqb c sep); [discriminate|].
  destruct (JS.splitOn sep r); discriminate.
Qed.

Lemma concat_cons (sep x : string) (l : list string) :
  l <> [] -> String.concat sep (x :: l) = (x ++ sep ++ String.concat sep l)%string.
Proof. destruct l; [contradiction | reflexivity]. Qed.

Lemma concat_cons_char (sep : string) (c : ascii) (h : string) (t : list string) :
  String.concat sep (String c h :: t) = String c (String.concat sep (h :: t)).
Proof. destruct t; reflexivity. Qed.

Lemma csvSplit_join (s : string) : String.concat "," (csvSplit s) = s.
Proof.
  induction s as [|c r IH]; [reflexivity|]. cbn [csvSplit].
  destruct (Ascii.eqb c "," && Nat.even (countQuotes r)) eqn:E.
  - apply andb_prop in E as [E _]. apply Ascii.eqb_eq in E as ->.
    rewrite concat_cons by apply csvSplit_nonempty. cbn. now rewrite IH.
  - pose proof (csvSplit_nonempty r) as Hne.
    destruct (csvSplit r) as [|h t]; [contradiction|].
    rewrite concat_cons_char. now rewrite IH.
Qed.

Lemma splitOn_join (sep : ascii) (s : string) :
  String.concat (String sep EmptyString) (JS.splitOn sep s) = s.
Proof.
  induction s as [|c r IH]; [reflexivity|]. cbn [JS.splitOn].
  destruct (Ascii.eqb c sep) eqn:E.
  - apply Ascii.eqb_eq in E as ->.
    rewrite concat_cons by apply splitOn_nonempty. cbn. now rewrite IH.
  - pose proof (splitOn_nonempty sep r) as Hne.
    destruct (JS.splitOn sep r) as [|h t]; [contradiction|].
    rewrite concat_cons_char. now rewrite IH.
Qed.

Lemma csvSplit_no_quote (s : string) :
  countQuotes s = 0%nat -> csvSplit s = JS.splitOn "," s.
Proof.
  induction s as [|c r IH]; [reflexivity|]. cbn [countQuotes csvSplit JS.splitOn].
  destruct (Ascii.eqb c "034"); [discriminate|]. intros H.
  rewrite H, (IH H). cbn [Nat.even]. now rewrite andb_true_r.
Qed.

Lemma countQuotes_app (a b : string) :
  countQuotes (a ++ b) = (countQuotes a + countQuotes b)%nat.
Proof.
  induction a as [|c a IH]; [reflexivity|]. simpl.
  destruct (Ascii.eqb c "034"); simpl; now rewrite IH.
Qed.

(** Before an odd number of quotes, no comma separates. *)
Lemma csvSplit_inside_quotes (body rest h : string) (t : list string) :
  countQuotes body = 0%nat -> Nat.even (countQuotes rest) = false ->
  csvSplit rest = h :: t ->
  csvSplit (body ++ rest) = (body ++ h)%string :: t.
Proof.
  intros Hb Hr E.
  induction body as [|c body IH]; [exact E|].
  cbn [countQuotes] in Hb.
  destruct (Ascii.eqb c "034") eqn:Q; [discriminate|].
  change (String c body ++ rest)%string with (String c (body ++ rest)).
  change (String c body ++ h)%string with (String c (body ++ h)).
  cbn [csvSplit].
  rewrite countQuotes_app, Hb, Nat.add_0_l, Hr, andb_false_r.
  now rewrite (IH Hb).
Qed.

Lemma dropLastQuote_snoc (body : string) :
  dropLastQuote (body ++ String "034" EmptyString) = body.
Proof.
  induction body as [|c body IH]; [reflexivity|].
  change (String c body ++ String "034" EmptyString)%string
    with (String c (body ++ String "034" EmptyString)).
  cbn [dropLastQuote]. rewrite IH.
  destruct (body ++ String "034" EmptyString)%string eqn:E; [|reflexivity].
  destruct body; discriminate.
Qed.

Lemma append_assoc (a b c : string) : ((a ++ b) ++ c = a ++ (b ++ c))%string.
Proof.
  induction a as [|x a IH]; [reflexivity|].
  change (String x a ++ b)%string with (String x (a ++ b)).
  change (String x (a ++ b) ++ c)%string with (String x ((a ++ b) ++ c)).
  change (String x a ++ (b ++ c))%string with (String x (a ++ (b ++ c))).
  now rewrite IH.
Qed.

Lemma splitOn_whole (sep : ascii) (a : string) :
  hasChar sep a = false -> JS.splitOn sep a = [a].
Proof.
  induction a as [|c a IH]; [reflexivity|]. cbn [hasChar JS.splitOn].
  intros H. apply orb_false_iff in H as [Hc Ha].
  now rewrite Hc, (IH Ha).
Qed.

(** ** Well-formed lines *)

Lemma dropLastQuote_no_quote (s : string) :
  countQuotes s = 0%nat -> dropLastQuote s = s.
Proof.
  induction s as [|c s IH]; [reflexivity|]. cbn [countQuotes].
  destruct (Ascii.eqb c "034") eqn:Q; [discriminate|]. intros H.
  cbn [dropLastQuote]. rewrite Q, (IH H). now destruct s.
Qed.

Lemma stripQuotes_no_quote (s : string) :
  countQuotes s = 0%nat -> stripQuotes s = s.
Proof.
  destruct s as [|c s]; [reflexivity|]. intros H.
  pose proof (dropLastQuote_no_quote _ H) as D.
  cbn [countQuotes] in H. unfold stripQuotes.
  destruct (Ascii.eqb c "034"); [discriminate | exact D].
Qed.

Lemma stripQuotes_field (f : CsvField) :
  wellFormedField f -> stripQuotes (fieldText f) = fieldContent f.
Proof.
  destruct f as [s|b]; cbn [wellFormedField fieldText fieldContent].
  - intros [H _]. now apply stripQuotes_no_quote.
  - intros _. cbn [stripQuotes]. rewrite Ascii.eqb_refl.
    apply dropLastQuote_snoc.
Qed.

Lemma countQuotes_field (f : CsvField) :
  wellFormedField f -> Nat.even (countQuotes (fieldText f)) = true.
Proof.
  destruct f as [s|b]; cbn [wellFormedField fieldText].
  - now intros [-> _].
  - intros H. cbn [countQuotes]. rewrite Ascii.eqb_refl.
    rewrite countQuotes_app, H. reflexivity.
Qed.

Lemma csvSplit_plain_cons (s rest : string) :
  hasChar "," s = false -> Nat.even (countQuotes rest) = true ->
  csvSplit (s ++ String "," rest) = s :: csvSplit rest.
Proof.
  intros Hs Hr. induction s as [|c s IH].
  - change (EmptyString ++ String "," rest)%string with (String "," rest).
    cbn [csvSplit]. now rewrite Ascii.eqb_refl, Hr.
  - cbn [hasChar] in Hs. apply orb_false_iff in Hs as [Hc Hs].
    change (String c s ++ String "," rest)%string
      with (String c (s ++ String "," rest)).
    cbn [csvSplit]. rewrite Hc. cbn [andb]. now rewrite (IH Hs).
Qed.

(** A comma after a well-formed field, with an even number of quotes to
    follow, ends the field. *)
Lemma csvSplit_field_cons (f : CsvField) (rest : string) :
  wellFormedField f -> Nat.even (countQuotes rest) = true ->
  csvSplit (fieldText f ++ String "," rest) = fieldText f :: csvSplit rest.
Proof.
  destruct f as [s|b]; cbn [wellFormedField fieldText].
  - intros [_ Hs] Hr. now apply csvSplit_plain_cons.
  - intros Hb Hr.
    change (String "034" (b ++ String "034" EmptyString) ++ String "," rest)%string
      with (String "034" ((b ++ String "034" EmptyString) ++ String "," rest)).
    rewrite append_assoc.
    change (String "034" EmptyString ++ String "," rest)%string
      with (String "034" (String "," rest)).
    assert (E : csvSplit (String "034" (String "," rest))
                = String "034" EmptyString :: csvSplit rest).
    { cbn [csvSplit]. change (Ascii.eqb "034" ",") with false. cbn [andb].
      now rewrite Ascii.eqb_refl, Hr. }
    assert (Hodd : Nat.even (countQuotes (String "034" (String "," rest)))
                   = false).
    { cbn [countQuotes]. rewrite Ascii.eqb_refl.
      change (Ascii.eqb "," "034") with false. cbv iota.
      rewrite Nat.even_succ, <- Nat.negb_even, Hr. reflexivity. }
    cbn [csvSplit]. change (Ascii.eqb "034" ",") with false. cbn [andb].
    now rewrite (csvSplit_inside_quotes b _ _ _ Hb Hodd E).
Qed.

Lemma csvSplit_field_last (f : CsvField) :
  wellFormedField f -> csvSplit (fieldText f) = [fieldText f].
Proof.
  destruct f as [s|b]; cbn [wellFormedField fieldText].
  - intros [Hq Hs]. rewrite (csvSplit_no_quote s Hq). now apply splitOn_whole.
  - intros Hb. cbn [csvSplit].
    change (Ascii.eqb "034" ",") with false. cbn [andb].
    now rewrite (csvSplit_inside_quotes b (String "034" EmptyString)
                   (String "034" EmptyString) [] Hb eq_refl eq_refl).
Qed.

Lemma countQuotes_lineOfFields (fields : list CsvField) :
  List.Forall wellFormedField fields ->
  Nat.even (countQuotes (lineOfFields fields)) = true.
Proof.
  unfold lineOfFields. induction 1 as [|f rest Hf Hrest IH]; [reflexivity|].
  destruct rest as [|g rest].
  - now apply countQuotes_field.
  - cbn [map] in *. rewrite concat_cons by discriminate.
    rewrite !countQuotes_app. change (countQuotes ",") with 0%nat.
    rewrite Nat.add_0_l, Nat.even_add, (countQuotes_field f Hf), IH.
    reflexivity.
Qed.

Lemma csvSplit_lineOfFields (fields : list CsvField) :
  fields <> [] -> List.Forall wellFormedField fields ->
  csvSplit (lineOfFields fields) = map fieldText fields.
Proof.
  intros Hne H. induction H as [|f rest Hf Hrest IH]; [contradiction|].
  destruct rest as [|g rest].
  - now apply csvSplit_field_last.
  - pose proof (countQuotes_lineOfFields (g :: rest) Hrest) as Hev.
    unfold lineOfFields in *. cbn [map] in *.
    rewrite concat_cons by discriminate.
    change ("," ++ ?x)%string with (String "," x).
    rewrite (csvSplit_field_cons f _ Hf Hev). f_equal.
    apply IH. discriminate.
Qed.

(** X11: splitting loses nothing: the fields of a line joined by commas,
    and the lines of a text joined by line feeds, give the line and the
    text back.  A line without a double quote splits at every comma.  A
    line that writes its fields each either plain (no double quote, no
    comma) or enclosed in double quotes (no double quote inside) splits
    into exactly those fields, wherever the quoted ones stand and whatever
    commas they hold, and each comes out of its quotes as its content.  A
    double quote elsewhere on the line undoes this: the split then cuts
    inside the quotes. *)
Theorem csv_split_round_trip (s : string) (fields : list CsvField) :
  String.concat "," (csvSplit s) = s /\
  String.concat (String "010" EmptyString) (JS.splitOn "010" s) = s /\
  (countQuotes s = 0%nat -> csvSplit s = JS.splitOn "," s) /\
  (fields <> [] -> List.Forall wellFormedField fields ->
   csvSplit (lineOfFields fields) = map fieldText fields /\
   map stripQuotes (csvSplit (lineOfFields fields))
   = map fieldContent fields) /\
  map stripQuotes (csvSplit (lineOfFields quotedAmountFields))
  = ["2024-01-19"; "7,371.84"; "RBC"]%string /\
  csvSplit (String "034" ("b,c" ++ String "034" (",x" ++ String "034" "y")))
  = [String "034" "b";
     ("c" ++ String "034" (",x" ++ String "034" "y"))%string].
Proof.
  split; [apply csvSplit_join|]. split; [apply splitOn_join|].
  split; [apply csvSplit_no_quote|].
  split; [|split; vm_compute; reflexivity].
  intros Hne Hwf. rewrite (csvSplit_lineOfFields fields Hne Hwf).
  split; [reflexivity|].
  rewrite map_map. clear Hne.
  induction Hwf as [|f rest Hf _ IH]; [reflexivity|].
  cbn [map]. now rewrite (stripQuotes_field f Hf), IH.
Qed.

(** X12: the template the page offers for download is a file the import
    takes whole: the header is skipped, and the two records are appended
    to the ledger as a contribution of 5,000 and a withdrawal of 2,000,
    without a message. *)
Theorem template_imports_cleanly (dateParse : string -> option string)
    (newId : nat -> float) (ledger0 : list Tx) :
  processCsvData dateParse newId csvContent ledger0
  = mkOutcome
      (ledger0 ++
       [mkTx (newId 1%nat) "2024-01-15" "CONTRIBUTION" 5000 "RBC";
        mkTx (newId 2%nat) "2024-06-20" "WITHDRAWAL" 2000 "Tangerine"])
      2 [] None.
Proof.
  unfold processCsvData. cbv zeta.
  change (JS.splitOn "010" csvContent)
    with ["Date,Type,Amount,Institution"%string;
          "2024-01-15,Contribution,5000,RBC"%string;
          "2024-06-20,Withdrawal,2000,Tangerine"%string].
  change (headerIndex _) with 1%nat. cbn [drop csvLoop].
  set (st0 := mkCsv ledger0 0 []).
  assert (E1 : processLine dateParse newId 1 "2024-01-15,Contribution,5000,RBC" st0
               = mkCsv (ledger0 ++ [mkTx (newId 1%nat) "2024-01-15"
                                      "CONTRIBUTION" 5000 "RBC"]) 1 []).
  { unfold processLine. cbv zeta.
    change (JS.trim "2024-01-15,Contribution,5000,RBC")
      with "2024-01-15,Contribution,5000,RBC"%string.
    cbn [String.eqb Ascii.eqb Bool.eqb].
    change (map _ (csvSplit "2024-01-15,Contribution,5000,RBC"))
      with ["2024-01-15"%string; "Contribution"%string; "5000"%string; "RBC"%string].
    cbv iota beta.
    change (JS.parseFloat (JS.removeChar "," "5000")) with 5000%float.
    change (JS.isNaN 5000 || JS.le 5000 0) with false.
    change (isoRegexTest "2024-01-15") with true.
    change (JS.includes (JS.toLowerCase "Contribution") "withdraw") with false.
    reflexivity. }
  rewrite E1.
  unfold processLine. cbv zeta.
  change (JS.trim "2024-06-20,Withdrawal,2000,Tangerine")
    with "2024-06-20,Withdrawal,2000,Tangerine"%string.
  cbn [String.eqb Ascii.eqb Bool.eqb].
  change (map _ (csvSplit "2024-06-20,Withdrawal,2000,Tangerine"))
    with ["2024-06-20"%string; "Withdrawal"%string; "2000"%string; "Tangerine"%string].
  cbv iota beta.
  change (JS.parseFloat (JS.removeChar "," "2000")) with 2000%float.
  change (JS.isNaN 2000 || JS.le 2000 0) with false.
  change (isoRegexTest "2024-06-20") with true.
  change (JS.includes (JS.toLowerCase "Withdrawal") "withdraw") with true.
  cbn. rewrite <- app_assoc. reflexivity.
Qed.

(** * Line ends *)

Lemma splitOn_app_sep (sep : ascii) (a b : string) :
  hasChar sep a = false ->
  JS.splitOn sep (a ++ String sep b) = a :: JS.splitOn sep b.
Proof.
  induction a as [|c a IH]; intros H.
  - change (EmptyString ++ String sep b)%string with (String sep b).
    cbn [JS.splitOn]. now rewrite Ascii.eqb_refl.
  - cbn [hasChar] in H. apply orb_false_iff in H as [Hc Ha].
    change (String c a ++ String sep b)%string
      with (String c (a ++ String sep b)).
    cbn [JS.splitOn]. now rewrite Hc, (IH Ha).
Qed.

Lemma hasChar_app (c : ascii) (a b : string) :
  hasChar c (a ++ b) = hasChar c a || hasChar c b.
Proof.
  induction a as [|x a IH]; [reflexivity|].
  change (String x a ++ b)%string with (String x (a ++ b)).
  cbn [hasChar]. now rewrite IH, orb_assoc.
Qed.

Lemma splitOn_joinLines (lines : list string) :
  lines <> [] ->
  List.Forall (fun l => hasChar "010" l = false) lines ->
  JS.splitOn "010" (joinLines lines) = lines.
Proof.
  intros Hne H. induction H as [|x rest Hx Hrest IH]; [contradiction|].
  destruct rest as [|y rest].
  - cbn. now apply splitOn_whole.
  - unfold joinLines in *. rewrite concat_cons by discriminate.
    change (String "010" EmptyString ++ ?s)%string with (String "010" s).
    rewrite splitOn_app_sep by exact Hx. f_equal. apply IH. discriminate.
Qed.

Lemma splitOn_joinLinesCRLF (lines : list string) :
  lines <> [] ->
  List.Forall (fun l => hasChar "010" l = false) lines ->
  JS.splitOn "010" (joinLinesCRLF lines) = withCR lines.
Proof.
  intros Hne H. induction H as [|x rest Hx Hrest IH]; [contradiction|].
  destruct rest as [|y rest].
  - cbn. now apply splitOn_whole.
  - unfold joinLinesCRLF in *. rewrite concat_cons by discriminate.
    change (String "013" (String "010" EmptyString) ++ ?s)%string
      with (String "013" EmptyString ++ String "010" s)%string.
    rewrite <- append_assoc.
    rewrite splitOn_app_sep
      by (rewrite hasChar_app, Hx; reflexivity).
    change (withCR (x :: y :: rest))
      with ((x ++ String "013" EmptyString)%string :: withCR (y :: rest)).
    f_equal. apply IH. discriminate.
Qed.

(** ** A carriage return at the end of a line *)

Lemma trimEnd_snoc_ws (s : string) (w : ascii) :
  JS.isWhiteSpace w = true ->
  JS.trimEnd (s ++ String w EmptyString) = JS.trimEnd s.
Proof.
  intros Hw. induction s as [|c s IH].
  - change (EmptyString ++ String w EmptyString)%string
      with (String w EmptyString).
    cbn [JS.trimEnd]. now rewrite Hw.
  - change (String c s ++ String w EmptyString)%string
      with (String c (s ++ String w EmptyString)).
    cbn [JS.trimEnd]. now rewrite IH.
Qed.

Lemma trimStart_snoc_ws (s : string) (w : ascii) :
  JS.isWhiteSpace w = true ->
  JS.trimStart (s ++ String w EmptyString)
  = match JS.trimStart s with
    | EmptyString => EmptyString
    | t => (t ++ String w EmptyString)%string
    end.
Proof.
  intros Hw. induction s as [|c s IH].
  - change (EmptyString ++ String w EmptyString)%string
      with (String w EmptyString).
    cbn [JS.trimStart]. now rewrite Hw.
  - change (String c s ++ String w EmptyString)%string
      with (String c (s ++ String w EmptyString)).
    cbn [JS.trimStart]. destruct (JS.isWhiteSpace c); [exact IH | reflexivity].
Qed.

Lemma trim_snoc_ws (s : string) (w : ascii) :
  JS.isWhiteSpace w = true ->
  JS.trim (s ++ String w EmptyString) = JS.trim s.
Proof.
  intros Hw. unfold JS.trim. rewrite (trimStart_snoc_ws s w Hw).
  destruct (JS.trimStart s) as [|c t]; [reflexivity|].
  now apply trimEnd_snoc_ws.
Qed.

Lemma toLowerCase_app (a b : string) :
  JS.toLowerCase (a ++ b) = (JS.toLowerCase a ++ JS.toLowerCase b)%string.
Proof.
  induction a as [|x a IH]; [reflexivity|].
  change (String x a ++ b)%string with (String x (a ++ b)).
  cbn [JS.toLowerCase]. now rewrite IH.
Qed.

Lemma prefix_cons (a b : ascii) (p s : string) :
  String.prefix (String a p) (String b s)
  = if ascii_dec a b then String.prefix p s else false.
Proof. reflexivity. Qed.

Lemma prefix_snoc (p s : string) (w : ascii) :
  hasChar w p = false ->
  String.prefix p (s ++ String w EmptyString) = String.prefix p s.
Proof.
  revert s. induction p as [|a p IH]; intros s H; [now destruct s|].
  cbn [hasChar] in H. apply orb_false_iff in H as [Ha Hp].
  destruct s as [|b s].
  - change (EmptyString ++ String w EmptyString)%string
      with (String w EmptyString).
    rewrite prefix_cons. destruct (ascii_dec a w) as [->|N]; [|reflexivity].
    now rewrite Ascii.eqb_refl in Ha.
  - change (String b s ++ String w EmptyString)%string
      with (String b (s ++ String w EmptyString)).
    rewrite !prefix_cons. destruct (ascii_dec a b); [now apply IH | reflexivity].
Qed.

Lemma prefix_date_snoc_cr (s : string) :
  String.prefix "date" (s ++ String "013" EmptyString) = String.prefix "date" s.
Proof. now apply prefix_snoc. Qed.

Lemma includes_date_snoc_cr (s : string) :
  JS.includes (s ++ String "013" EmptyString) "date" = JS.includes s "date".
Proof.
  induction s as [|c s IH]; [reflexivity|].
  change (String c s ++ String "013" EmptyString)%string
    with (String c (s ++ String "013" EmptyString)).
  cbn [JS.includes].
  change (String c (s ++ String "013" EmptyString))
    with (String c s ++ String "013" EmptyString)%string.
  now rewrite prefix_date_snoc_cr, IH.
Qed.

Lemma sameLine_refl (a : string) : sameLine a a.
Proof. now split. Qed.

Lemma sameLine_cr (a : string) : sameLine (a ++ String "013" EmptyString) a.
Proof.
  split.
  - now apply trim_snoc_ws.
  - rewrite toLowerCase_app. apply includes_date_snoc_cr.
Qed.

Lemma withCR_sameLine (lines : list string) : Forall2 sameLine (withCR lines) lines.
Proof.
  induction lines as [|x rest IH]; [constructor|].
  destruct rest as [|y rest].
  - constructor; [apply sameLine_refl | constructor].
  - change (withCR (x :: y :: rest))
      with ((x ++ String "013" EmptyString)%string :: withCR (y :: rest)).
    constructor; [apply sameLine_cr | exact IH].
Qed.

Section SameLines.

Variable dateParse : string -> option string.
Variable newId : nat -> float.

Lemma processLine_trim (i : nat) (a b : string) (st : CsvState) :
  JS.trim a = JS.trim b ->
  processLine dateParse newId i a st = processLine dateParse newId i b st.
Proof. intros E. unfold processLine. now rewrite E. Qed.

Lemma csvLoop_sameLine (l l' : list string) (i : nat) (st : CsvState) :
  Forall2 sameLine l l' ->
  csvLoop dateParse newId i l st = csvLoop dateParse newId i l' st.
Proof.
  intros H. revert i st. induction H as [|a b l l' [Hab _] _ IH]; intros i st.
  - reflexivity.
  - cbn [csvLoop]. rewrite (processLine_trim i a b st Hab). apply IH.
Qed.

Lemma headerIndex_sameLine (l l' : list string) :
  Forall2 sameLine l l' -> headerIndex l = headerIndex l'.
Proof.
  intros H. destruct H as [|a b l l' [_ Hab] _]; [reflexivity|].
  unfold headerIndex. now rewrite Hab.
Qed.

End SameLines.

(** X13: a file whose lines end the Windows way, with a carriage return
    before each line feed, is imported exactly as the same lines ended by
    line feeds alone. *)
Theorem windows_line_ends_import_alike (dateParse : string -> option string)
    (newId : nat -> float) (lines : list string) (ledger0 : list Tx) :
  List.Forall (fun l => hasChar "010" l = false) lines ->
  processCsvData dateParse newId (joinLinesCRLF lines) ledger0
  = processCsvData dateParse newId (joinLines lines) ledger0.
Proof.
  intros H. destruct lines as [|x rest]; [reflexivity|].
  unfold processCsvData. cbv zeta.
  rewrite splitOn_joinLinesCRLF, splitOn_joinLines by (discriminate || exact H).
  pose proof (withCR_sameLine (x :: rest)) as S.
  rewrite (headerIndex_sameLine _ _ S).
  rewrite (csvLoop_sameLine dateParse newId
             (drop (headerIndex (x :: rest)) (withCR (x :: rest)))
             (drop (headerIndex (x :: rest)) (x :: rest))).
  - reflexivity.
  - now apply Forall2_drop.
Qed.

Lemma templateLines_no_line_feed :
  List.Forall (fun l => hasChar "010" l = false) templateLines.
Proof. repeat constructor. Defined.

(** The template, saved the Windows way. *)
Lemma windows_line_ends_import_alike_witness :
  processCsvData (fun _ => None) (fun _ => 0%float)
    (joinLinesCRLF templateLines) []
  = processCsvData (fun _ => None) (fun _ => 0%float)
      (joinLines templateLines) [].
Proof.
  exact (windows_line_ends_import_alike (fun _ => None) (fun _ => 0%float)
           templateLines [] templateLines_no_line_feed).
Defined.

(** * The entry form and the ledger of the page *)

Section Gate.

Import FloatOrder FloatFacts.

Lemma is_zero_fval (a : float) :
  PrimFloat.is_zero a = true <-> notnan a = true /\ fval a = 0.
Proof.
  unfold PrimFloat.is_zero. rewrite eqb_iff.
  change (fval zero) with 0. change (notnan zero) with true. tauto.
Qed.

(** The three amount tests of the form, together: the amount is above 0. *)
Lemma amount_tests (a : float) :
  JS.gt a 0 = true <->
  JS.truthy a = true /\ JS.isNaN a = false /\ JS.le a 0 = false.
Proof.
  unfold JS.gt, JS.truthy, JS.isNaN, JS.le. split.
  - intros H. apply ltb_iff in H as (_ & Na & Hlt). rewrite fval_zero in Hlt.
    assert (Hn : PrimFloat.is_nan a = false)
      by (rewrite is_nan_notnan, Na; reflexivity).
    assert (Hz : PrimFloat.is_zero a = false).
    { destruct (PrimFloat.is_zero a) eqn:Z; [|reflexivity].
      apply is_zero_fval in Z as [_ Z]. lia. }
    rewrite Hn, Hz. repeat split.
    apply (leb_false_iff a 0 Na notnan_zero). now rewrite fval_zero.
  - intros (_ & Hn & Hle). apply amount_gate_positive.
    unfold JS.isNaN, JS.le. now rewrite Hn, Hle.
Qed.

(** What is neither a number above zero nor turned away by the first two
    amount tests is at or below zero. *)
Lemma amount_not_positive (a : float) :
  JS.gt a 0 = false -> JS.truthy a = true -> JS.isNaN a = false ->
  JS.le a 0 = true.
Proof.
  intros Hg Ht Hn. destruct (JS.le a 0) eqn:Hle; [reflexivity|].
  assert (JS.gt a 0 = true) by (apply amount_tests; auto). congruence.
Qed.

End Gate.

(** X14: a manual entry goes into the ledger exactly when an institution
    and a date are given, the amount reads as a number above zero and the
    first four characters of the date are the selected year.  It is then
    appended after the entries already there, the amount field is cleared
    and the type goes back to CONTRIBUTION; otherwise the ledger and the
    form stay as they were and a message is shown.  An amount of zero is
    reported as not valid, an amount below zero as not positive. *)
Theorem manual_entry_gate (now : float) (form : Form) (ledger0 : list Tx) :
  let out := addTransaction now form ledger0 in
  let amount := JS.parseFloat (txAmount form) in
  (if entryAccepted form
   then ledgerAdded out
        = ledger0 ++ [mkTx now (txDate form) (txType form) amount
                        (txInstitution form)] /\
        shownError out = None /\
        formAfter out
        = mkForm (txDate form) (txInstitution form) "CONTRIBUTION"
            EmptyString (calcYear form)
   else ledgerAdded out = ledger0 /\ formAfter out = form /\
        exists msg, shownError out = Some msg) /\
  (txInstitution form <> EmptyString -> txDate form <> EmptyString ->
   (PrimFloat.is_zero amount = true ->
    shownError out = Some "Please enter a valid date and amount."%string) /\
   (JS.lt amount 0 = true ->
    shownError out = Some "Amount must be positive."%string)).
Proof.
  cbv zeta. unfold addTransaction, entryAccepted. cbv zeta.
  destruct (String.eqb (txInstitution form) EmptyString) eqn:Hi.
  { cbn [negb andb]. split; [repeat split; eauto|].
    intros N. apply String.eqb_neq in N. congruence. }
  destruct (String.eqb (txDate form) EmptyString) eqn:Hd.
  { cbn [negb andb orb]. split; [repeat split; eauto|].
    intros _ N. apply String.eqb_neq in N. congruence. }
  cbn [negb andb orb].
  generalize (JS.parseFloat (txAmount form)). intros a.
  destruct (JS.gt a 0) eqn:Hg.
  - apply amount_tests in Hg as (Ht & Hn & Hle). rewrite Ht, Hn, Hle.
    cbn [negb orb andb].
    split.
    + destruct (String.eqb (String.substring 0 4 (txDate form)) (calcYear form));
        cbn [negb]; repeat split; eauto.
    + intros _ _. split.
      * intros Hz. unfold JS.truthy in Ht. rewrite Hz, orb_true_r in Ht.
        discriminate.
      * intros Hlt. unfold JS.lt, JS.le in *.
        apply FloatFacts.ltb_iff in Hlt as (Na & N0 & Hlt).
        apply (FloatFacts.leb_false_iff a 0 Na N0) in Hle. lia.
  - cbn [andb]. destruct (negb (JS.truthy a) || JS.isNaN a) eqn:Hbad.
    + split; [repeat split; eauto|]. intros _ _. split; [reflexivity|].
      intros Hlt. exfalso. unfold JS.lt in Hlt.
      apply FloatFacts.ltb_iff in Hlt as (Na & N0 & Hlt).
      apply orb_prop in Hbad as [Hbad|Hbad].
      * apply negb_true_iff in Hbad. unfold JS.truthy in Hbad.
        apply negb_false_iff, orb_prop in Hbad as [Hbad|Hbad].
        -- rewrite FloatFacts.is_nan_notnan, Na in Hbad. discriminate.
        -- apply is_zero_fval in Hbad as [_ Hz].
           change (FloatOrder.fval 0) with 0 in Hlt. lia.
      * unfold JS.isNaN in Hbad.
        rewrite FloatFacts.is_nan_notnan, Na in Hbad. discriminate.
    + apply orb_false_iff in Hbad as [Ht Hn]. apply negb_false_iff in Ht.
      rewrite (amount_not_positive a Hg Ht Hn).
      split; [repeat split; eauto|]. intros _ _. split; [|reflexivity].
      intros Hz. unfold JS.truthy in Ht. rewrite Hz, orb_true_r in Ht.
      discriminate.
Qed.

(** ** Removal *)

Lemma removeTransaction_fresh (id0 : float) (l : list Tx) :
  List.Forall (fun t => PrimFloat.eqb (id t) id0 = false) l ->
  removeTransaction id0 l = l.
Proof.
  unfold removeTransaction. induction 1 as [|t l Ht _ IH]; [reflexivity|].
  cbn [List.filter]. rewrite Ht. cbn [negb]. now rewrite IH.
Qed.

Lemma removeTransaction_app (id0 : float) (l1 l2 : list Tx) :
  removeTransaction id0 (l1 ++ l2)
  = removeTransaction id0 l1 ++ removeTransaction id0 l2.
Proof. apply List.filter_app. Qed.

Lemma addTransaction_ledger (now : float) (form : Form) (l : list Tx) :
  ledgerAdded (addTransaction now form l) = l \/
  exists tx, id tx = now /\ entryInvariant tx /\
             ledgerAdded (addTransaction now form l) = l ++ [tx].
Proof.
  unfold addTransaction. cbv zeta.
  destruct (String.eqb (txInstitution form) EmptyString) eqn:Hi;
    [left; reflexivity|].
  destruct (String.eqb (txDate form) EmptyString
            || negb (JS.truthy (JS.parseFloat (txAmount form)))
            || JS.isNaN (JS.parseFloat (txAmount form))) eqn:Hbad;
    [left; reflexivity|].
  destruct (JS.le (JS.parseFloat (txAmount form)) 0) eqn:Hle;
    [left; reflexivity|].
  destruct (negb (String.eqb (String.substring 0 4 (txDate form))
                    (calcYear form)));
    [left; reflexivity|].
  right. eexists. split; [|split]; [| |reflexivity].
  - reflexivity.
  - split.
    + unfold positiveAmount. cbn [amount].
      apply orb_false_iff in Hbad as [Hbad Hn].
      apply amount_gate_positive. unfold JS.isNaN in *. now rewrite Hn, Hle.
    + cbn [institution]. now apply String.eqb_neq.
Qed.

Lemma removeTransaction_added (now : float) (form : Form) (l : list Tx) :
  PrimFloat.eqb now now = true ->
  removeTransaction now (ledgerAdded (addTransaction now form l))
  = removeTransaction now l.
Proof.
  intros Hnow.
  destruct (addTransaction_ledger now form l) as [->|(tx & Hid & _ & ->)];
    [reflexivity|].
  rewrite removeTransaction_app. unfold removeTransaction at 2.
  cbn [List.filter]. rewrite Hid, Hnow. cbn [negb]. apply app_nil_r.
Qed.

(** X15: removing the id of an entry just made gives back the ledger as it
    was before the entry, when the clock reading is a number and no older
    entry carries it; two entries made at the same clock reading carry the
    same id, and removing it takes both. *)
Theorem removal_undoes_entry (now : float) (form form' : Form)
    (ledger0 : list Tx) :
  PrimFloat.eqb now now = true ->
  List.Forall (fun t => PrimFloat.eqb (id t) now = false) ledger0 ->
  removeTransaction now (ledgerAdded (addTransaction now form ledger0))
  = ledger0 /\
  removeTransaction now
    (ledgerAdded (addTransaction now form'
                    (ledgerAdded (addTransaction now form ledger0))))
  = ledger0.
Proof.
  intros Hnow Hfresh.
  rewrite !removeTransaction_added by exact Hnow.
  now rewrite removeTransaction_fresh.
Qed.

(** One entry, then a second at the same clock reading, then the removal. *)
Lemma removal_undoes_entry_witness :
  removeTransaction 1700000000000
    (ledgerAdded (addTransaction 1700000000000 sampleForm scenarioA))
  = scenarioA /\
  removeTransaction 1700000000000
    (ledgerAdded (addTransaction 1700000000000 sampleForm
                    (ledgerAdded (addTransaction 1700000000000 sampleForm
                                    scenarioA))))
  = scenarioA.
Proof.
  refine (removal_undoes_entry 1700000000000 sampleForm sampleForm scenarioA
            eq_refl _).
  repeat constructor.
Defined.

(** ** The ledgers the page can hold *)

Lemma removeTransaction_Forall (P : Tx -> Prop) (id0 : float) (l : list Tx) :
  List.Forall P l -> List.Forall P (removeTransaction id0 l).
Proof.
  intros H. apply List.Forall_forall. intros t Ht.
  apply List.filter_In in Ht as [Ht _].
  rewrite List.Forall_forall in H. now apply H.
Qed.

Lemma importedShape_invariant (dateParse : string -> option string) (tx : Tx) :
  importedShape dateParse tx -> entryInvariant tx.
Proof. intros (_ & Hi & Ha & _). now split. Qed.

(** X16: every entry of every ledger the page can come to hold, by manual
    entries, removals and imports in any order, has an amount above zero
    and an institution. *)
Theorem page_ledger_invariant (dateParse : string -> option string)
    (l : list Tx) :
  Reachable dateParse l -> List.Forall entryInvariant l.
Proof.
  induction 1 as [|now form l _ IH|id0 l _ IH|newId text l _ IH].
  - constructor.
  - destruct (addTransaction_ledger now form l) as [->|(tx & _ & Htx & ->)];
      [exact IH|].
    apply List.Forall_app. split; [exact IH | now constructor].
  - now apply removeTransaction_Forall.
  - destruct (import_only_appends_shape dateParse newId text l)
      as (new & -> & Hnew).
    apply List.Forall_app. split; [exact IH|].
    revert Hnew. apply List.Forall_impl. apply importedShape_invariant.
Qed.

(** A manual entry, then the template imported, then a removal. *)
Lemma page_ledger_invariant_witness :
  List.Forall entryInvariant
    (removeTransaction 5
       (ledgerAfter
          (processCsvData (fun _ => None) (fun _ => 0%float) csvContent
             (ledgerAdded (addTransaction 1 sampleForm []))))).
Proof.
  exact (page_ledger_invariant (fun _ => None) _
           (reach_remove _ 5 _
              (reach_import _ (fun _ => 0%float) csvContent _
                 (reach_add _ 1 sampleForm [] (reach_empty _))))).
Defined.

(** ** The starting room field *)

Lemma startRoomOf_cases (value : string) :
  startRoomOf value
  = if JS.truthy (JS.parseFloat value) then JS.parseFloat value else 0%float.
Proof. reflexivity. Qed.

(** X17: whatever the starting room field holds, the room handed to the
    engine is a number: the field's leading number when it has one that is
    not zero, and 0 otherwise (blank, not a number, or zero of either
    sign).  So with a ledger of finite amounts above zero, room and excess
    are at or above zero after every simulated day. *)
Theorem start_room_field_is_safe (value : string) (year : Z) (txs : list Tx)
    (n : nat) :
  JS.isNaN (startRoomOf value) = false /\
  startRoomOf value
  = (if JS.truthy (JS.parseFloat value) then JS.parseFloat value else 0%float) /\
  (List.Forall finitePositiveAmount txs ->
   let l := ledger (stateAfterDays n year (startRoomOf value) (sortTxs txs)) in
   JS.ge (unusedRoom l) 0 = true /\ JS.ge (excess l) 0 = true).
Proof.
  assert (Hn : JS.isNaN (startRoomOf value) = false).
  { rewrite startRoomOf_cases. unfold JS.truthy, JS.isNaN.
    destruct (PrimFloat.is_nan (JS.parseFloat value)) eqn:E; [reflexivity|].
    cbn [orb]. destruct (PrimFloat.is_zero _); [reflexivity | exact E]. }
  split; [exact Hn|]. split; [apply startRoomOf_cases|].
  intros Hfin. cbv zeta. unfold stateAfterDays.
  pose proof (dailyLoop_ok (sortTxs txs) (Forall_sortTxs _ _ Hfin)
                (Date_UTC year 11 31) n
                (initState (startRoomOf value) (Date_UTC year 0 1))
                (initLedger_ok _ Hn)) as [He Hu].
  split; [exact Hu|]. unfold JS.ge. now apply FloatFacts.plus_nonneg.
Qed.
